(** * fast_vision: geometry-to-schema pipeline, embedded in Rocq

    A shallow embedding of the document pipeline of [fast_vision]
    (word builder, table de-duplication, block matcher, style normaliser,
    schema assembler, orchestrator and command line), followed by the
    properties of the specification proved or refuted on it.

    Conventions of the embedding:
    - Python [float] coordinates are exact rationals ([Q]); [round(x, n)]
      is rounding to [n] decimals, ties to even.
    - Python [str] is [string]; the alphabet is the code points below 256.
    - a [dict] with a fixed set of keys is a record, an optional key is an
      [option] field; a [dict] used as a map keeps its insertion order as
      an association list, except the style table, a [gmap].
    - [uuid.uuid4()] draws from an explicit supply [rnd : nat -> N]; a
      run of the pipeline is a function of the supply and the input.
    - a raised exception is [None]. *)

From Stdlib Require Import ZArith QArith Qcanon Qround Qabs String Ascii List
  Bool Lia Lqa Permutation Sorted DecimalString.
From stdpp Require Import gmap strings.
Import ListNotations.
Close Scope Q_scope.
Open Scope string_scope.
Open Scope list_scope.
Open Scope Z_scope.

(** ** The Python runtime used by the sources *)

Module Py.

(** *** Numbers *)

Definition ltb (x y : Q) : bool := negb (Qle_bool y x).
Definition leb (x y : Q) : bool := Qle_bool x y.
Definition eqb (x y : Q) : bool := Qeq_bool x y.

(** [max(a, b)] and [min(a, b)] keep the first argument on ties. *)
Definition max (a b : Q) : Q := if ltb a b then b else a.
Definition min (a b : Q) : Q := if ltb b a then b else a.

Definition abs (x : Q) : Q := if ltb x 0 then Qopp x else x.

(** [min(f(c) for c in cs)] over a non-empty sequence. *)
Definition min_of {A} (f : A -> Q) (c : A) (cs : list A) : Q :=
  fold_left (fun m x => min m (f x)) cs (f c).
Definition max_of {A} (f : A -> Q) (c : A) (cs : list A) : Q :=
  fold_left (fun m x => max m (f x)) cs (f c).

Definition round_half_even (x : Q) : Z :=
  let f := Qfloor x in
  match Qcompare (x - inject_Z f) (1 # 2) with
  | Lt => f
  | Gt => f + 1
  | Eq => if Z.even f then f else f + 1
  end.

(** [round(x, ndigits)] *)
Definition round (x : Q) (ndigits : nat) : Q :=
  let s := inject_Z (10 ^ Z.of_nat ndigits) in
  Qred (inject_Z (round_half_even (x * s)) / s).

(** [int(x)] on a float truncates towards zero. *)
Definition int_of_float (x : Q) : Z := Z.quot (Qnum x) (Zpos (Qden x)).

(** [max(xs, default=d)] *)
Definition max_default (xs : list Q) (d : Q) : Q :=
  match xs with
  | [] => d
  | x :: xs' => fold_left max xs' x
  end.

(** [sum] of floats starting from [0.0]. *)
Definition fsum (l : list Q) : Q := fold_left Qplus l 0%Q.

(** *** Characters and strings *)

Definition code (c : ascii) : N := N_of_ascii c.

Definition isspace_char (c : ascii) : bool :=
  let n := code c in
  ((9 <=? n) && (n <=? 13) || (28 <=? n) && (n <=? 32)
   || (n =? 133) || (n =? 160))%N.

(** [c.isdigit()]: the ASCII digits and the superscripts of Latin-1. *)
Definition isdigit_char (c : ascii) : bool :=
  let n := code c in
  ((48 <=? n) && (n <=? 57) || (n =? 178) || (n =? 179) || (n =? 185))%N.

Definition isdecimal_char (c : ascii) : bool :=
  let n := code c in ((48 <=? n) && (n <=? 57))%N.

Definition lower_char (c : ascii) : ascii :=
  let n := code c in
  if ((65 <=? n) && (n <=? 90)
      || (192 <=? n) && (n <=? 222) && negb (n =? 215))%N
  then ascii_of_N (n + 32) else c.

Fixpoint lower (s : string) : string :=
  match s with
  | EmptyString => EmptyString
  | String c s' => String (lower_char c) (lower s')
  end.

Fixpoint forallb_str (p : ascii -> bool) (s : string) : bool :=
  match s with
  | EmptyString => true
  | String c s' => p c && forallb_str p s'
  end.

(** [s.isdigit()] is false on the empty string. *)
Definition isdigit (s : string) : bool :=
  match s with
  | EmptyString => false
  | _ => forallb_str isdigit_char s
  end.

Fixpoint lstrip (s : string) : string :=
  match s with
  | String c s' => if isspace_char c then lstrip s' else s
  | EmptyString => EmptyString
  end.

Fixpoint rstrip (s : string) : string :=
  match s with
  | EmptyString => EmptyString
  | String c s' =>
      match rstrip s' with
      | EmptyString => if isspace_char c then EmptyString
                       else String c EmptyString
      | r => String c r
      end
  end.

Definition strip (s : string) : string := rstrip (lstrip s).

Definition startswith (p s : string) : bool := String.prefix p s.

(** [p in s] on strings *)
Fixpoint contains (p s : string) : bool :=
  String.prefix p s
  || match s with
     | EmptyString => false
     | String _ s' => contains p s'
     end.

(** [s[:n]] *)
Definition take (n : nat) (s : string) : string := String.substring 0 n s.

(** [sep.join(parts)] *)
Definition join (sep : string) (parts : list string) : string :=
  String.concat sep parts.

(** [s.split(sep, 1)]: [None] when [sep] does not occur, else the text
    before and after its first occurrence. *)
Fixpoint split_first (sep s : string) : option (string * string) :=
  if String.prefix sep s
  then Some (EmptyString, String.substring (String.length sep)
                             (String.length s - String.length sep) s)
  else match s with
       | EmptyString => None
       | String c s' =>
           match split_first sep s' with
           | Some (a, b) => Some (String c a, b)
           | None => None
           end
       end.

(** [s.split(sep)[0]] *)
Definition before_first (sep s : string) : string :=
  match split_first sep s with
  | Some (a, _) => a
  | None => s
  end.

(** [s.split(c)] for a one-character separator *)
Fixpoint split_char (sep : ascii) (s : string) : list string :=
  match s with
  | EmptyString => [EmptyString]
  | String c s' =>
      if Ascii.eqb c sep then EmptyString :: split_char sep s'
      else match split_char sep s' with
           | [] => [String c EmptyString]
           | p :: ps => String c p :: ps
           end
  end.

(** [s.split()]: the maximal runs of non-whitespace. *)
Fixpoint words_from (cur : string) (s : string) : list string :=
  let flush := match cur with EmptyString => [] | _ => [cur] end in
  match s with
  | EmptyString => flush
  | String c s' =>
      if isspace_char c then flush ++ words_from EmptyString s'
      else words_from (cur +:+ String c EmptyString) s'
  end.
Definition split_ws (s : string) : list string := words_from EmptyString s.

(** Truthiness of a string. *)
Definition truthy (s : string) : bool :=
  match s with EmptyString => false | _ => true end.

(** *** Sorting: [sorted] and [list.sort] are stable. *)

Section Sort.
Context {A : Type} (lt : A -> A -> bool).

Fixpoint insert (x : A) (l : list A) : list A :=
  match l with
  | [] => [x]
  | y :: l' => if lt y x then y :: insert x l' else x :: y :: l'
  end.

Definition sorted (l : list A) : list A := fold_right insert [] l.
End Sort.

(** Key orders: a float, and a pair of floats compared as a tuple. *)
Definition lt_key1 {A} (k : A -> Q) (a b : A) : bool := ltb (k a) (k b).
Definition lt_key2 {A} (k1 k2 : A -> Q) (a b : A) : bool :=
  ltb (k1 a) (k1 b) || eqb (k1 a) (k1 b) && ltb (k2 a) (k2 b).
Definition lt_keyZ {A} (k : A -> Z) (a b : A) : bool := Z.ltb (k a) (k b).

(** [enumerate(l)] *)
Definition enumerate {A} (l : list A) : list (Z * A) :=
  combine (map Z.of_nat (seq 0 (length l))) l.

(** *** Mode of a sequence of strings
    [font_counts] is filled in order of first occurrence and
    [max(font_counts, key=font_counts.get)] returns the first key with
    the greatest count. *)

Fixpoint count_incr (k : string) (d : list (string * Z))
  : list (string * Z) :=
  match d with
  | [] => [(k, 1)]
  | (k', n) :: d' =>
      if String.eqb k k' then (k', n + 1) :: d'
      else (k', n) :: count_incr k d'
  end.

Definition counts (keys : list string) : list (string * Z) :=
  fold_left (fun d k => count_incr k d) keys [].

Fixpoint first_max (best : string * Z) (d : list (string * Z)) : string :=
  match d with
  | [] => fst best
  | (k, n) :: d' =>
      if snd best <? n then first_max (k, n) d' else first_max best d'
  end.

Definition mode (k : string) (ks : list string) : string :=
  match counts (k :: ks) with
  | [] => k
  | b :: d => first_max b d
  end.

(** *** Ordered dictionaries with integer keys *)

Fixpoint dict_get {V} (k : Z) (d : list (Z * V)) : option V :=
  match d with
  | [] => None
  | (k', v) :: d' => if k =? k' then Some v else dict_get k d'
  end.

Fixpoint dict_set {V} (k : Z) (v : V) (d : list (Z * V)) : list (Z * V) :=
  match d with
  | [] => [(k, v)]
  | (k', v') :: d' =>
      if k =? k' then (k, v) :: d' else (k', v') :: dict_set k v d'
  end.

End Py.

(** ** Randomness and exceptions

    A computation that may draw identifiers and may raise: it receives
    the number of draws made so far and returns its result with the new
    count, or [None] when an exception escapes. *)

Definition Run (A : Type) : Type := nat -> option (A * nat).

Definition ret {A} (a : A) : Run A := fun k => Some (a, k).

Definition bind {A B} (m : Run A) (f : A -> Run B) : Run B :=
  fun k => match m k with
           | Some (a, k') => f a k'
           | None => None
           end.

Definition lift {A} (o : option A) : Run A :=
  fun k => match o with Some a => Some (a, k) | None => None end.

Notation "x <- m ;; f" := (bind m (fun x => f))
  (at level 100, m at next level, right associativity).

Fixpoint for_each {A B} (f : A -> Run B) (l : list A) : Run (list B) :=
  match l with
  | [] => ret []
  | x :: l' => y <- f x ;; ys <- for_each f l' ;; ret (y :: ys)
  end.

(** [for x in l: st = f(st, x)] *)
Fixpoint fold_run {S A} (f : S -> A -> Run S) (l : list A) (st : S) : Run S :=
  match l with
  | [] => ret st
  | x :: l' => st' <- f st x ;; fold_run f l' st'
  end.

(** *** [uuid.uuid4()] and [str(uuid)] *)

Definition hex_digit (d : N) : ascii :=
  ascii_of_N (if (d <? 10)%N then 48 + d else 87 + d).

(** The [len] least significant hexadecimal digits of [n]. *)
Fixpoint hex_fixed (len : nat) (n : N) : string :=
  match len with
  | O => EmptyString
  | S len' => hex_fixed len' (n / 16) +:+ String (hex_digit (n mod 16)) ""
  end.

(** [uuid4] keeps 122 random bits and forces version 4, variant 10. *)
Definition uuid4_int (r : N) : N :=
  let r := (r mod 2 ^ 128)%N in
  let r := N.lor (N.ldiff r (N.shiftl 0xf000 64)) (N.shiftl 4 76) in
  N.lor (N.ldiff r (N.shiftl 0xc000 48)) (N.shiftl 0x8000 48).

Definition str_uuid (u : N) : string :=
  let h := hex_fixed 32 u in
  String.substring 0 8 h +:+ "-" +:+ String.substring 8 4 h +:+ "-"
  +:+ String.substring 12 4 h +:+ "-" +:+ String.substring 16 4 h +:+ "-"
  +:+ String.substring 20 12 h.

Section Randomness.
Variable rnd : nat -> N.

(** [str(uuid.uuid4())] *)
Definition uuid4 : Run string :=
  fun k => Some (str_uuid (uuid4_int (rnd k)), S k).
End Randomness.

(** ** Geometry: characters, words, lines, blocks *)

Record Char := {
  c_text : string; c_x0 : Q; c_y0 : Q; c_x1 : Q; c_y1 : Q;
  c_fontname : string; c_size : Q; c_color : string }.

Record Word := {
  w_text : string; w_x0 : Q; w_y0 : Q; w_x1 : Q; w_y1 : Q;
  w_fontname : string; w_size : Q; w_color : string }.

Record Line := {
  ln_text : string; ln_x0 : Q; ln_y0 : Q; ln_x1 : Q; ln_y1 : Q;
  ln_fontname : string; ln_size : Q; ln_color : string;
  ln_words : list Word }.

(** *** geometry/word_builder.py *)

Definition GAP_FACTOR : Q := 35 # 100.

(** [_merge_chars]; on an empty run [max()] raises. *)
Definition _merge_chars (chars : list Char) : option Word :=
  match chars with
  | [] => None
  | c :: cs =>
      let text := Py.join "" (map c_text chars) in
      let size_sum := Py.fsum (map c_size chars) in
      let dominant_font := Py.mode (c_fontname c) (map c_fontname cs) in
      let avg_size :=
        Py.round (size_sum / inject_Z (Z.of_nat (length chars))) 2 in
      Some {| w_text := text;
              w_x0 := Py.min_of c_x0 c cs;
              w_y0 := Py.min_of c_y0 c cs;
              w_x1 := Py.max_of c_x1 c cs;
              w_y1 := Py.max_of c_y1 c cs;
              w_fontname := dominant_font;
              w_size := avg_size;
              w_color := c_color c |}
  end.

Definition same_line (prev c : Char) : bool :=
  let y_overlap :=
    (Py.min (c_y1 prev) (c_y1 c) - Py.max (c_y0 prev) (c_y0 c))%Q in
  let min_height :=
    Py.min (c_y1 prev - c_y0 prev)%Q (c_y1 c - c_y0 c)%Q in
  Py.ltb 0 y_overlap
  && Py.ltb (1 # 2) (y_overlap / Py.max min_height (1 # 10)).

Definition within_gap (prev c : Char) : bool :=
  let gap := (c_x0 c - c_x1 prev)%Q in
  let avg_width :=
    ((c_x1 prev - c_x0 prev + c_x1 c - c_x0 c) / 2)%Q in
  let threshold :=
    Py.max (avg_width * GAP_FACTOR)%Q (c_size prev * (1 # 4))%Q in
  Py.leb gap threshold.

(** The walk over [sorted_chars[1:]] with its two accumulators. *)
Fixpoint words_loop (cs : list Char) (words : list Word)
  (current : list Char) : option (list Word) :=
  match cs with
  | [] =>
      match current with
      | [] => Some words
      | _ => w ← _merge_chars current; Some (words ++ [w])
      end
  | c :: cs' =>
      prev ← last current;
      if same_line prev c && within_gap prev c
      then words_loop cs' words (current ++ [c])
      else w ← _merge_chars current; words_loop cs' (words ++ [w]) [c]
  end.

Definition sorted_chars (chars : list Char) : list Char :=
  Py.sorted (Py.lt_key2 (fun c => Py.round (c_y0 c) 1) c_x0) chars.

Definition build_words (chars : list Char) : option (list Word) :=
  match sorted_chars chars with
  | [] => Some []
  | c0 :: rest => words_loop rest [] [c0]
  end.

(** *** geometry/line_builder.py *)

Definition _merge_words (words : list Word) : option Line :=
  match words with
  | [] => None
  | w :: ws =>
      let text := Py.join " " (map w_text words) in
      let size_sum := Py.fsum (map w_size words) in
      let dominant_font := Py.mode (w_fontname w) (map w_fontname ws) in
      let avg_size :=
        Py.round (size_sum / inject_Z (Z.of_nat (length words))) 2 in
      Some {| ln_text := text;
              ln_x0 := Py.min_of w_x0 w ws;
              ln_y0 := Py.min_of w_y0 w ws;
              ln_x1 := Py.max_of w_x1 w ws;
              ln_y1 := Py.max_of w_y1 w ws;
              ln_fontname := dominant_font;
              ln_size := avg_size;
              ln_color := w_color w;
              ln_words := words |}
  end.

Definition in_band (ref w : Word) : bool :=
  let ref_mid_y := ((w_y0 ref + w_y1 ref) / 2)%Q in
  let w_mid_y := ((w_y0 w + w_y1 w) / 2)%Q in
  let tolerance := Py.max (w_size ref * (6 # 10))%Q 3%Q in
  Py.leb (Py.abs (w_mid_y - ref_mid_y)%Q) tolerance.

Fixpoint lines_loop (ws : list Word) (lines : list (list Word))
  (current_line : list Word) : option (list (list Word)) :=
  match ws with
  | [] =>
      match current_line with
      | [] => Some lines
      | _ => Some (lines ++ [current_line])
      end
  | w :: ws' =>
      ref ← head current_line;
      if in_band ref w
      then lines_loop ws' lines (current_line ++ [w])
      else lines_loop ws' (lines ++ [current_line]) [w]
  end.

Definition build_lines (words : list Word) : option (list Line) :=
  match Py.sorted (Py.lt_key2 w_y0 w_x0) words with
  | [] => Some []
  | w0 :: rest =>
      lines ← lines_loop rest [] [w0];
      mapM (fun line_words =>
              _merge_words (Py.sorted (Py.lt_key1 w_x0) line_words)) lines
  end.

(** *** geometry/block_builder.py *)

Record Rhetoric_raw := { rr_fields : list (string * string) }.
Record Features_raw := { fr_fields : list (string * Qc) }.

(** A block dict.  [id] to [words] are set by the builders; the keys
    after them are added by classification and style normalisation. *)
Record BlockDict := {
  bd_id : option string;
  bd_text : string;
  bd_x0 : Q; bd_y0 : Q; bd_x1 : Q; bd_y1 : Q;
  bd_fontname : string; bd_size : Q; bd_color : string;
  bd_lines : list Line;
  bd_words : list Word;
  bd_block_type : option string;
  bd_role : option string;
  bd_reading_order : option Z;
  bd_rhetoric : option Rhetoric_raw;
  bd_rhetoric_features : option Features_raw;
  bd_style_id : option string }.

Definition LINE_GAP_FACTOR : Q := 15 # 10.
Definition X_SHIFT_TOLERANCE : Q := 40.

Definition _font_family (fontname : string) : string :=
  let name :=
    fold_left (fun name suffix => Py.before_first suffix name)
      ["-Bold"; "-Italic"; "-BoldItalic"; ",Bold"; ",Italic";
       "-Regular"; ",Regular"; "+"] fontname in
  Py.strip name.

Section BlockBuilder.
Variable rnd : nat -> N.

Definition _merge_lines (lines : list Line) : Run BlockDict :=
  match lines with
  | [] => lift None
  | ln :: lns =>
      let text := Py.join (String (ascii_of_N 10) "") (map ln_text lines) in
      let all_words := concat (map ln_words lines) in
      let size_sum := Py.fsum (map ln_size lines) in
      let dominant_font := Py.mode (ln_fontname ln) (map ln_fontname lns) in
      let avg_size :=
        Py.round (size_sum / inject_Z (Z.of_nat (length lines))) 2 in
      id <- uuid4 rnd ;;
      ret {| bd_id := Some id;
             bd_text := text;
             bd_x0 := Py.min_of ln_x0 ln lns;
             bd_y0 := Py.min_of ln_y0 ln lns;
             bd_x1 := Py.max_of ln_x1 ln lns;
             bd_y1 := Py.max_of ln_y1 ln lns;
             bd_fontname := dominant_font;
             bd_size := avg_size;
             bd_color := ln_color ln;
             bd_lines := lines;
             bd_words := all_words;
             bd_block_type := None;
             bd_role := None;
             bd_reading_order := None;
             bd_rhetoric := None;
             bd_rhetoric_features := None;
             bd_style_id := None |}
  end.

Definition continues_block (prev ln : Line) : bool :=
  let gap := (ln_y0 ln - ln_y1 prev)%Q in
  let threshold := Py.max (ln_size prev * LINE_GAP_FACTOR)%Q 4%Q in
  let x_shift := Py.abs (ln_x0 ln - ln_x0 prev)%Q in
  let same_font :=
    String.eqb (_font_family (ln_fontname ln))
               (_font_family (ln_fontname prev)) in
  Py.leb gap threshold && Py.leb x_shift X_SHIFT_TOLERANCE && same_font.

Fixpoint blocks_loop (lns : list Line) (blocks : list (list Line))
  (current_block : list Line) : option (list (list Line)) :=
  match lns with
  | [] =>
      match current_block with
      | [] => Some blocks
      | _ => Some (blocks ++ [current_block])
      end
  | ln :: lns' =>
      prev ← last current_block;
      if continues_block prev ln
      then blocks_loop lns' blocks (current_block ++ [ln])
      else blocks_loop lns' (blocks ++ [current_block]) [ln]
  end.

Definition build_blocks (lines : list Line) : Run (list BlockDict) :=
  match Py.sorted (Py.lt_key1 ln_y0) lines with
  | [] => ret []
  | l0 :: rest =>
      blocks <- lift (blocks_loop rest [] [l0]) ;;
      for_each _merge_lines blocks
  end.
End BlockBuilder.

(** *** geometry/table_extractor.py *)

Record BBox := { bx0 : Q; by0 : Q; bx1 : Q; by1 : Q }.

Record CellDict := {
  cd_row : Z; cd_col : Z; cd_row_span : Z; cd_col_span : Z;
  cd_text : string; cd_bbox : BBox }.

(** A table dict; [td_bbox = None] stands for a missing or empty
    ["bbox"]. *)
Record TableDict := {
  td_id : string; td_page : Z; td_rows : Z; td_cols : Z;
  td_bbox : option BBox; td_cells : list CellDict;
  td_block_type : string }.

(** What the table finder reports for one table: its bbox and the
    row-major matrix of cell texts ([None] for an empty cell). *)
Record Detected := {
  dt_bbox : BBox; dt_data : list (list (option string)) }.

Definition _approx_cell_bbox (table_bbox : BBox) (n_rows n_cols row col : Z)
  : BBox :=
  let '{| bx0 := x0; by0 := y0; bx1 := x1; by1 := y1 |} := table_bbox in
  let col_w := ((x1 - x0) / inject_Z (Z.max n_cols 1))%Q in
  let row_h := ((y1 - y0) / inject_Z (Z.max n_rows 1))%Q in
  {| bx0 := Py.round (x0 + inject_Z col * col_w)%Q 2;
     by0 := Py.round (y0 + inject_Z row * row_h)%Q 2;
     bx1 := Py.round (x0 + inject_Z (col + 1) * col_w)%Q 2;
     by1 := Py.round (y0 + inject_Z (row + 1) * row_h)%Q 2 |}.

Section TableExtractor.
Variable rnd : nat -> N.

Definition table_of_detected (page_number : Z) (tbl : Detected)
  : Run (list TableDict) :=
  let tbl_bbox := dt_bbox tbl in
  let data := dt_data tbl in
  match data with
  | [] => ret []
  | _ =>
      let num_rows := Z.of_nat (length data) in
      let num_cols :=
        fold_left Z.max (map (fun row => Z.of_nat (length row)) data) 0 in
      let cells :=
        flat_map (fun '((r, row) : Z * list (option string)) =>
          map (fun '((c, cell_text) : Z * option string) =>
                 {| cd_row := r; cd_col := c;
                    cd_row_span := 1; cd_col_span := 1;
                    cd_text := Py.strip (default "" cell_text);
                    cd_bbox :=
                      _approx_cell_bbox tbl_bbox num_rows num_cols r c |})
              (Py.enumerate row))
          (Py.enumerate data) in
      id <- uuid4 rnd ;;
      ret [{| td_id := id; td_page := page_number;
              td_rows := num_rows; td_cols := num_cols;
              td_bbox := Some tbl_bbox; td_cells := cells;
              td_block_type := "table" |}]
  end.

(** [extract_tables], from the tables found on the page. *)
Definition extract_tables (detected : list Detected) (page_number : Z)
  : Run (list TableDict) :=
  tables <- for_each (table_of_detected page_number) detected ;;
  ret (concat tables).
End TableExtractor.

Definition block_area (block : BlockDict) : Q :=
  Py.max ((bd_x1 block - bd_x0 block) * (bd_y1 block - bd_y0 block))%Q
         (1 # 100).

Definition inter_area (block : BlockDict) (t : BBox) : Q :=
  let ix0 := Py.max (bd_x0 block) (bx0 t) in
  let iy0 := Py.max (bd_y0 block) (by0 t) in
  let ix1 := Py.min (bd_x1 block) (bx1 t) in
  let iy1 := Py.min (bd_y1 block) (by1 t) in
  (Py.max 0 (ix1 - ix0) * Py.max 0 (iy1 - iy0))%Q.

(** The inner loop over the tables, left at the first overlap. *)
Fixpoint overlaps_loop (overlap_threshold : Q) (block : BlockDict)
  (tables : list TableDict) : option bool :=
  match tables with
  | [] => Some false
  | table :: tables' =>
      t ← td_bbox table;
      if Py.ltb overlap_threshold (inter_area block t / block_area block)
      then Some true
      else overlaps_loop overlap_threshold block tables'
  end.

Fixpoint dedup_loop (overlap_threshold : Q) (text_blocks : list BlockDict)
  (tables : list TableDict) (clean : list BlockDict)
  : option (list BlockDict) :=
  match text_blocks with
  | [] => Some clean
  | block :: rest =>
      overlaps ← overlaps_loop overlap_threshold block tables;
      dedup_loop overlap_threshold rest tables
        (if negb overlaps then clean ++ [block] else clean)
  end.

Definition deduplicate_blocks_from_tables (text_blocks : list BlockDict)
  (tables : list TableDict) (overlap_threshold : Q)
  : option (list BlockDict) :=
  match tables with
  | [] => Some text_blocks
  | _ => dedup_loop overlap_threshold text_blocks tables []
  end.

Definition default_overlap_threshold : Q := 5 # 10.

(** *** geometry/docx_extractor.py: pagination *)

Record PageData := {
  pd_page_number : Z; pd_width : Q; pd_height : Q; pd_chars : list Char }.

Definition shift_word (page_top : Q) (w : Word) : Word :=
  {| w_text := w_text w; w_x0 := w_x0 w; w_y0 := (w_y0 w - page_top)%Q;
     w_x1 := w_x1 w; w_y1 := (w_y1 w - page_top)%Q;
     w_fontname := w_fontname w; w_size := w_size w;
     w_color := w_color w |}.

Definition shift_block (page_top : Q) (b : BlockDict) : BlockDict :=
  {| bd_id := bd_id b; bd_text := bd_text b;
     bd_x0 := bd_x0 b; bd_y0 := (bd_y0 b - page_top)%Q;
     bd_x1 := bd_x1 b; bd_y1 := (bd_y1 b - page_top)%Q;
     bd_fontname := bd_fontname b; bd_size := bd_size b;
     bd_color := bd_color b; bd_lines := bd_lines b;
     bd_words := map (shift_word page_top) (bd_words b);
     bd_block_type := bd_block_type b; bd_role := bd_role b;
     bd_reading_order := bd_reading_order b;
     bd_rhetoric := bd_rhetoric b;
     bd_rhetoric_features := bd_rhetoric_features b;
     bd_style_id := bd_style_id b |}.

Definition shift_bbox (page_top : Q) (b : BBox) : BBox :=
  {| bx0 := bx0 b; by0 := (by0 b - page_top)%Q;
     bx1 := bx1 b; by1 := (by1 b - page_top)%Q |}.

Definition shift_cell (page_top : Q) (c : CellDict) : CellDict :=
  {| cd_row := cd_row c; cd_col := cd_col c;
     cd_row_span := cd_row_span c; cd_col_span := cd_col_span c;
     cd_text := cd_text c; cd_bbox := shift_bbox page_top (cd_bbox c) |}.

Definition shift_table (page_top : Q) (bbox : BBox) (t : TableDict)
  : TableDict :=
  {| td_id := td_id t; td_page := td_page t; td_rows := td_rows t;
     td_cols := td_cols t; td_bbox := Some (shift_bbox page_top bbox);
     td_cells := map (shift_cell page_top) (td_cells t);
     td_block_type := td_block_type t |}.

(** The tables whose top edge falls on the page, rebased. *)
Fixpoint page_tables_of (page_top page_bottom : Q) (tables : list TableDict)
  : option (list TableDict) :=
  match tables with
  | [] => Some []
  | t :: ts =>
      bbox ← td_bbox t;
      rest ← page_tables_of page_top page_bottom ts;
      Some (if Py.leb page_top (by0 bbox) && Py.ltb (by0 bbox) page_bottom
            then shift_table page_top bbox t :: rest else rest)
  end.

Definition page_blocks_of (page_top page_bottom : Q)
  (blocks : list BlockDict) : list BlockDict :=
  map (shift_block page_top)
    (List.filter (fun b => Py.leb page_top (bd_y0 b)
                      && Py.ltb (bd_y0 b) page_bottom) blocks).

Definition PagedDoc : Type :=
  list PageData * list (Z * list BlockDict) * list (Z * list TableDict).

Fixpoint paginate_loop (blocks : list BlockDict) (tables : list TableDict)
  (page_w page_h : Q) (page_nums : list Z) (acc : PagedDoc)
  : option PagedDoc :=
  match page_nums with
  | [] => Some acc
  | page_num :: nums =>
      let '(pages_data, blocks_by_page, tables_by_page) := acc in
      let page_idx := page_num - 1 in
      let page_top := (inject_Z page_idx * page_h)%Q in
      let page_bottom := (page_top + page_h)%Q in
      page_tables ← page_tables_of page_top page_bottom tables;
      paginate_loop blocks tables page_w page_h nums
        (pages_data ++ [{| pd_page_number := page_num; pd_width := page_w;
                           pd_height := page_h; pd_chars := [] |}],
         Py.dict_set page_idx (page_blocks_of page_top page_bottom blocks)
           blocks_by_page,
         Py.dict_set page_idx page_tables tables_by_page)
  end.

Definition _paginate (blocks : list BlockDict) (tables : list TableDict)
  (page_w page_h : Q) : option PagedDoc :=
  match blocks, tables with
  | [], [] =>
      Some ([{| pd_page_number := 1; pd_width := page_w;
                pd_height := page_h; pd_chars := [] |}],
            [(0, [])], [(0, [])])
  | _, _ =>
      bottoms ← mapM (fun t => by1 <$> td_bbox t) tables;
      let max_y :=
        Py.max (Py.max_default (map bd_y1 blocks) 0%Q)
               (Py.max_default bottoms 0%Q) in
      if Py.eqb page_h 0 then None
      else
        let n_pages := Z.max 1 (Py.int_of_float (max_y / page_h) + 1) in
        paginate_loop blocks tables page_w page_h
          (map Z.of_nat (seq 1 (Z.to_nat n_pages))) ([], [], [])
  end.

(** ** schema.py *)

Inductive SourceType := src_pdf | src_docx | src_html | src_image.

Inductive BlockType :=
  | heading | paragraph | list_item | table | figure | caption
  | header | footer | page_number | code_block.

Inductive RoleType :=
  | r_title | r_section_title | r_subsection_title | r_paragraph
  | r_list_item | r_table | r_figure | r_caption | r_header | r_footer.

Inductive WeightType := w_normal | w_bold.
Inductive AlignType := a_left | a_center | a_right | a_justify.
Inductive RelationType := rel_next | rel_parent | rel_child | rel_caption_of.
Inductive PageUnit := pt | px.

Definition BlockType_value (t : BlockType) : string :=
  match t with
  | heading => "heading" | paragraph => "paragraph"
  | list_item => "list_item" | table => "table" | figure => "figure"
  | caption => "caption" | header => "header" | footer => "footer"
  | page_number => "page_number" | code_block => "code_block"
  end.

Definition all_BlockType : list BlockType :=
  [heading; paragraph; list_item; table; figure; caption; header; footer;
   page_number; code_block].

Definition RoleType_value (r : RoleType) : string :=
  match r with
  | r_title => "title" | r_section_title => "section_title"
  | r_subsection_title => "subsection_title" | r_paragraph => "paragraph"
  | r_list_item => "list_item" | r_table => "table" | r_figure => "figure"
  | r_caption => "caption" | r_header => "header" | r_footer => "footer"
  end.

Definition all_RoleType : list RoleType :=
  [r_title; r_section_title; r_subsection_title; r_paragraph; r_list_item;
   r_table; r_figure; r_caption; r_header; r_footer].

Definition RelationType_of (s : string) : option RelationType :=
  if String.eqb s "next" then Some rel_next
  else if String.eqb s "parent" then Some rel_parent
  else if String.eqb s "child" then Some rel_child
  else if String.eqb s "caption_of" then Some rel_caption_of
  else None.

(** The value sets of the rhetoric enums. *)
Definition ToneType_values : list string :=
  ["formal"; "neutral"; "conversational"; "legal"; "compliance"; "academic"].
Definition VoiceType_values : list string := ["active"; "passive"; "mixed"].
Definition ModalityType_values : list string :=
  ["mandatory"; "advisory"; "descriptive"].
Definition TenseType_values : list string :=
  ["present"; "past"; "future"; "mixed"].
Definition DomainType_values : list string :=
  ["legal"; "banking"; "technical"; "general"].

Record Rhetoric := {
  tone : option string; voice : option string; modality : option string;
  tense : option string; domain : option string }.

Record RhetoricFeatures := {
  avg_sentence_length : option Qc; modal_density : option Qc;
  passive_ratio : option Qc; legal_term_density : option Qc }.

Record Style := {
  st_font_family : option string; st_size : option Q;
  st_weight : option WeightType; st_italic : option bool;
  st_underline : option bool; st_color : option string;
  st_align : option AlignType }.

Record DocumentMeta := {
  document_id : string; schema_version : string; source : SourceType;
  page_count : option Z }.

Record Page := {
  pg_page_number : Z; pg_width : Q; pg_height : Q; pg_rotation : Z;
  pg_unit : PageUnit }.

Record Block := {
  b_id : string; b_type : BlockType; b_role : option RoleType;
  b_page : Z; b_bbox : BBox; b_bbox_norm : option BBox;
  b_reading_order : Z; b_z_index : Z; b_parent : option string;
  b_children : option (list string); b_text : option string;
  b_style_id : option string; b_html : option string;
  b_html_template : option string; b_rhetoric : option Rhetoric;
  b_rhetoric_features : option RhetoricFeatures }.

Record Span := {
  sp_id : string; sp_block_id : string; sp_text : string; sp_bbox : BBox;
  sp_bbox_norm : option BBox; sp_style_id : option string }.

Record Token := {
  tk_text : string; tk_bbox : BBox; tk_bbox_norm : option BBox;
  tk_block_id : string; tk_span_id : option string }.

Record TableCell := {
  tc_row : Z; tc_col : Z; tc_row_span : Z; tc_col_span : Z;
  tc_text : string; tc_bbox : BBox; tc_bbox_norm : option BBox;
  tc_style_id : option string }.

Record Table := {
  t_id : string; t_page : Z; t_rows : Z; t_cols : Z;
  t_bbox : option BBox; t_cells : list TableCell }.

Record Edge := { from_id : string; to : string; relation : RelationType }.

Record LayoutDocument := {
  document : DocumentMeta;
  pages : list Page;
  blocks : list Block;
  spans : option (list Span);
  tokens : option (list Token);
  tables : option (list Table);
  styles : option (gmap string Style);
  reading_graph : option (list Edge) }.

(** Model validation: the field constraints of the schema, checked when
    an instance is built; a violation raises. *)

Definition new_Page (page_number : Z) (width height : Q) (rotation : Z)
  : option Page :=
  if (1 <=? page_number) && Py.ltb 0 width && Py.ltb 0 height
  then Some {| pg_page_number := page_number; pg_width := width;
               pg_height := height; pg_rotation := rotation;
               pg_unit := pt |}
  else None.

Definition new_Block (b : Block) : option Block :=
  if (1 <=? b_page b) && (0 <=? b_reading_order b) then Some b else None.

Definition new_TableCell (c : TableCell) : option TableCell :=
  if (0 <=? tc_row c) && (0 <=? tc_col c) && (1 <=? tc_row_span c)
     && (1 <=? tc_col_span c)
  then Some c else None.

Definition new_Table (t : Table) : option Table :=
  if (1 <=? t_page t) && (1 <=? t_rows t) && (1 <=? t_cols t)
  then Some t else None.

Definition new_Edge (from_ to_ rel : string) : option Edge :=
  r ← RelationType_of rel;
  Some {| from_id := from_; to := to_; relation := r |}.

Definition valid_enum (values : list string) (v : option string) : bool :=
  match v with
  | None => true
  | Some s => existsb (String.eqb s) values
  end.

Definition new_Rhetoric (r : Rhetoric) : option Rhetoric :=
  if valid_enum ToneType_values (tone r)
     && valid_enum VoiceType_values (voice r)
     && valid_enum ModalityType_values (modality r)
     && valid_enum TenseType_values (tense r)
     && valid_enum DomainType_values (domain r)
  then Some r else None.

(** ** merger/block_matcher.py *)

(** A semantic tag as parsed from the tagger's JSON answer.  The raw
    feature values are canonical rationals, so that [==] on tags is
    equality. *)
Record Tag := {
  tag_block_index : option Z;
  tag_block_type : option string;
  tag_role : option string;
  tag_reading_order : option Z;
  tag_text : option string;
  tag_rhetoric : option Rhetoric_raw;
  tag_rhetoric_features : option Features_raw }.

#[global] Instance Rhetoric_raw_eq_dec : EqDecision Rhetoric_raw.
Proof. solve_decision. Defined.

#[global] Instance Features_raw_eq_dec : EqDecision Features_raw.
Proof. solve_decision. Defined.

(** [==] on tag dicts *)
#[global] Instance Tag_eq_dec : EqDecision Tag.
Proof. solve_decision. Defined.

(** [l.remove(x)]: drops the first element equal to [x]. *)
Fixpoint list_remove (x : Tag) (l : list Tag) : list Tag :=
  match l with
  | [] => []
  | y :: l' => if decide (y = x) then l' else y :: list_remove x l'
  end.

Definition with_classification (b : BlockDict)
  (block_type role : option string) (reading_order : option Z)
  (rhetoric : option Rhetoric_raw) (features : option Features_raw)
  : BlockDict :=
  {| bd_id := bd_id b; bd_text := bd_text b;
     bd_x0 := bd_x0 b; bd_y0 := bd_y0 b; bd_x1 := bd_x1 b; bd_y1 := bd_y1 b;
     bd_fontname := bd_fontname b; bd_size := bd_size b;
     bd_color := bd_color b; bd_lines := bd_lines b; bd_words := bd_words b;
     bd_block_type := block_type; bd_role := role;
     bd_reading_order := reading_order;
     bd_rhetoric := rhetoric; bd_rhetoric_features := features;
     bd_style_id := bd_style_id b |}.

(** The three [setdefault] calls. *)
Definition set_defaults (i : Z) (b : BlockDict) : BlockDict :=
  with_classification b
    (Some (default "paragraph" (bd_block_type b)))
    (Some (default "paragraph" (bd_role b)))
    (Some (default i (bd_reading_order b)))
    (bd_rhetoric b) (bd_rhetoric_features b).

Definition _apply_tag (block : BlockDict) (tag : Tag) (fallback_order : Z)
  : BlockDict :=
  with_classification block
    (Some (default "paragraph" (tag_block_type tag)))
    (Some (default "paragraph" (tag_role tag)))
    (Some (default fallback_order (tag_reading_order tag)))
    (tag_rhetoric tag) (tag_rhetoric_features tag).

Section BlockMatcher.
(** [SequenceMatcher(None, a, b).ratio()] *)
Variable ratio : string -> string -> Q.

Fixpoint best_loop (block_text : string) (tags : list Tag)
  (best_score : Q) (best_tag : option Tag) : Q * option Tag :=
  match tags with
  | [] => (best_score, best_tag)
  | tag :: tags' =>
      let tag_text_ := default "" (tag_text tag) in
      if negb (Py.truthy tag_text_)
      then best_loop block_text tags' best_score best_tag
      else
        let score := ratio (Py.take 200 block_text) (Py.take 200 tag_text_) in
        if Py.ltb best_score score
        then best_loop block_text tags' score (Some tag)
        else best_loop block_text tags' best_score best_tag
  end.

Definition _find_best_tag (block : BlockDict) (tags : list Tag)
  : option Tag :=
  let block_text := bd_text block in
  if negb (Py.truthy block_text) then None
  else
    let '(best_score, best_tag) := best_loop block_text tags 0%Q None in
    if Py.ltb (4 # 10) best_score then best_tag else None.

(** [index_map]: the last tag carrying each [block_index]. *)
Definition index_map_of (tags : list Tag) : list (Z * Tag) :=
  fold_left (fun m tag =>
               match tag_block_index tag with
               | Some idx => Py.dict_set idx tag m
               | None => m
               end) tags [].

(** First pass over [enumerate(blocks)]: the tagged blocks and the set
    [matched]. *)
Fixpoint index_pass (index_map : list (Z * Tag))
  (blocks : list (Z * BlockDict)) : list (Z * BlockDict) * list Z :=
  match blocks with
  | [] => ([], [])
  | (i, block) :: rest =>
      let '(rest', matched) := index_pass index_map rest in
      match Py.dict_get i index_map with
      | Some tag => ((i, _apply_tag block tag i) :: rest', i :: matched)
      | None => ((i, block) :: rest', matched)
      end
  end.

Definition in_matched (matched : list Z) (idx : option Z) : bool :=
  match idx with
  | Some i => existsb (Z.eqb i) matched
  | None => false
  end.

(** Second pass, over all blocks; only the unmatched ones are touched.
    Returns the blocks and the tags still unused. *)
Fixpoint fuzzy_pass (matched : list Z) (blocks : list (Z * BlockDict))
  (unmatched_tags : list Tag) : list (Z * BlockDict) * list Tag :=
  match blocks with
  | [] => ([], unmatched_tags)
  | (i, block) :: rest =>
      if existsb (Z.eqb i) matched
      then let '(rest', tags') := fuzzy_pass matched rest unmatched_tags in
           ((i, block) :: rest', tags')
      else
        match _find_best_tag block unmatched_tags with
        | Some best_tag =>
            let '(rest', tags') :=
              fuzzy_pass matched rest (list_remove best_tag unmatched_tags) in
            ((i, _apply_tag block best_tag i) :: rest', tags')
        | None =>
            let '(rest', tags') := fuzzy_pass matched rest unmatched_tags in
            ((i, set_defaults i block) :: rest', tags')
        end
  end.

Definition match_blocks_to_tags (blocks : list BlockDict) (tags : list Tag)
  : list BlockDict :=
  match tags with
  | [] => map (fun '(i, b) => set_defaults i b) (Py.enumerate blocks)
  | _ =>
      let index_map := index_map_of tags in
      let '(blocks1, matched) :=
        index_pass index_map (Py.enumerate blocks) in
      let unmatched_blocks :=
        List.filter (fun '(i, _) => negb (existsb (Z.eqb i) matched)) blocks1 in
      let unmatched_tags :=
        List.filter (fun t => negb (in_matched matched (tag_block_index t)))
          tags in
      let blocks2 :=
        match unmatched_blocks, unmatched_tags with
        | _ :: _, _ :: _ => fst (fuzzy_pass matched blocks1 unmatched_tags)
        | _, _ => blocks1
        end in
      map (fun '(i, b) => set_defaults i b) blocks2
  end.
End BlockMatcher.

(** ** styles/style_normalizer.py *)

Record StyleDict := {
  sd_font_family : string; sd_size : Q; sd_weight : string;
  sd_italic : bool; sd_underline : bool; sd_color : string;
  sd_align : string }.

Definition str_int (z : Z) : string := NilZero.string_of_int (Z.to_int z).

(** [str(x)] for a float with at most one decimal, as [round(size, 1)]
    returns (below the magnitude where the exponent form starts). *)
Definition str_float1 (x : Q) : string :=
  let t := Qfloor (x * 10) in
  (if t <? 0 then "-" else "")
  +:+ str_int (Z.abs t / 10) +:+ "." +:+ str_int (Z.abs t mod 10).

Definition str_bool (b : bool) : string := if b then "True" else "False".

Definition _clean_font_name (fontname : string) : string :=
  match Py.split_first "+" fontname with
  | Some (_, rest) => rest
  | None => fontname
  end.

Section StyleNormalizer.
(** [hashlib.sha256(key.encode()).hexdigest()] *)
Variable sha256_hexdigest : string -> string.

Definition _hash_style (style : StyleDict) : string :=
  let key :=
    sd_font_family style +:+ "|" +:+ str_float1 (sd_size style) +:+ "|"
    +:+ sd_weight style +:+ "|" +:+ str_bool (sd_italic style) +:+ "|"
    +:+ sd_color style in
  Py.take 12 (sha256_hexdigest key).

Definition style_of_block (block : BlockDict) : StyleDict :=
  let font := bd_fontname block in
  let fn_lower := Py.lower font in
  {| sd_font_family := _clean_font_name font;
     sd_size := Py.round (bd_size block) 1;
     sd_weight := if Py.contains "bold" fn_lower then "bold" else "normal";
     sd_italic :=
       Py.contains "italic" fn_lower || Py.contains "oblique" fn_lower;
     sd_underline := false;
     sd_color := bd_color block;
     sd_align := "left" |}.

Definition with_style_id (block : BlockDict) (style_id : string)
  : BlockDict :=
  {| bd_id := bd_id block; bd_text := bd_text block;
     bd_x0 := bd_x0 block; bd_y0 := bd_y0 block;
     bd_x1 := bd_x1 block; bd_y1 := bd_y1 block;
     bd_fontname := bd_fontname block; bd_size := bd_size block;
     bd_color := bd_color block; bd_lines := bd_lines block;
     bd_words := bd_words block;
     bd_block_type := bd_block_type block; bd_role := bd_role block;
     bd_reading_order := bd_reading_order block;
     bd_rhetoric := bd_rhetoric block;
     bd_rhetoric_features := bd_rhetoric_features block;
     bd_style_id := Some style_id |}.

(** One iteration of the loop: the block as mutated. *)
Definition styled (block : BlockDict) : BlockDict :=
  with_style_id block (_hash_style (style_of_block block)).

Fixpoint styles_loop (blocks : list BlockDict)
  (styles : gmap string StyleDict) : gmap string StyleDict :=
  match blocks with
  | [] => styles
  | block :: rest =>
      let style_obj := style_of_block block in
      let style_id := _hash_style style_obj in
      styles_loop rest
        (match styles !! style_id with
         | Some _ => styles
         | None => <[style_id := style_obj]> styles
         end)
  end.

Definition normalize_styles (blocks : list BlockDict)
  : list BlockDict * gmap string StyleDict :=
  (map styled blocks, styles_loop blocks ∅).
End StyleNormalizer.

(** ** merger/schema_assembler.py *)

Definition _normalize_bbox (bbox : BBox) (page_w page_h : Q) : BBox :=
  if Py.leb page_w 0 || Py.leb page_h 0
  then {| bx0 := 0; by0 := 0; bx1 := 0; by1 := 0 |}
  else {| bx0 := Py.round (bx0 bbox / page_w) 6;
          by0 := Py.round (by0 bbox / page_h) 6;
          bx1 := Py.round (bx1 bbox / page_w) 6;
          by1 := Py.round (by1 bbox / page_h) 6 |}.

Definition _safe_block_type (val : string) : BlockType :=
  default paragraph
    (find (fun t => String.eqb val (BlockType_value t)) all_BlockType).

Definition _safe_role (val : string) : RoleType :=
  default r_paragraph
    (find (fun r => String.eqb val (RoleType_value r)) all_RoleType).

Definition _safe_weight (val : option string) : option WeightType :=
  match val with
  | Some v => if String.eqb v "normal" then Some w_normal
              else if String.eqb v "bold" then Some w_bold else None
  | None => None
  end.

Definition _safe_align (val : option string) : option AlignType :=
  match val with
  | Some v => if String.eqb v "left" then Some a_left
              else if String.eqb v "center" then Some a_center
              else if String.eqb v "right" then Some a_right
              else if String.eqb v "justify" then Some a_justify else None
  | None => None
  end.

Definition _html_tag_for_type (block_type : BlockType) : string :=
  match block_type with
  | heading => "h2" | paragraph => "p" | list_item => "li"
  | table => "table" | figure => "figure" | caption => "figcaption"
  | header => "header" | footer => "footer" | page_number => "span"
  | code_block => "pre"
  end.

(** [raw.get(key)] *)
Fixpoint raw_get {V} (key : string) (raw : list (string * V)) : option V :=
  match raw with
  | [] => None
  | (k, v) :: raw' => if String.eqb key k then Some v else raw_get key raw'
  end.

Definition _build_rhetoric (raw : Rhetoric_raw) : option Rhetoric :=
  let f := rr_fields raw in
  new_Rhetoric {| tone := raw_get "tone" f; voice := raw_get "voice" f;
                  modality := raw_get "modality" f;
                  tense := raw_get "tense" f;
                  domain := raw_get "domain" f |}.

Definition _build_rhetoric_features (raw : Features_raw)
  : option RhetoricFeatures :=
  let f := fr_fields raw in
  Some {| avg_sentence_length := raw_get "avg_sentence_length" f;
          modal_density := raw_get "modal_density" f;
          passive_ratio := raw_get "passive_ratio" f;
          legal_term_density := raw_get "legal_term_density" f |}.

Definition style_of_dict (sdict : StyleDict) : Style :=
  {| st_font_family := Some (sd_font_family sdict);
     st_size := Some (sd_size sdict);
     st_weight := _safe_weight (Some (sd_weight sdict));
     st_italic := Some (sd_italic sdict);
     st_underline := Some (sd_underline sdict);
     st_color := Some (sd_color sdict);
     st_align := _safe_align (Some (sd_align sdict)) |}.

(** The accumulators of [assemble_document]. *)
Record Asm := {
  a_pages : list Page;
  all_blocks : list Block;
  all_spans : list Span;
  all_tokens : list Token;
  all_tables : list Table;
  all_edges : list Edge;
  prev_block_id : option string }.

Definition Asm_init : Asm :=
  {| a_pages := []; all_blocks := []; all_spans := []; all_tokens := [];
     all_tables := []; all_edges := []; prev_block_id := None |}.

(** [if prev_block_id: all_edges.append(Edge(from=..., to=...,
    relation="next"))] *)
Definition chain_edge (prev : option string) (target : string)
  (edges : list Edge) : option (list Edge) :=
  match prev with
  | Some p =>
      if Py.truthy p
      then e ← new_Edge p target "next"; Some (edges ++ [e])
      else Some edges
  | None => Some edges
  end.

(** [x if x else None] on a list *)
Definition or_None {A} (l : list A) : option (list A) :=
  match l with [] => None | _ => Some l end.

(** The model instances built for one text block: the block, its single
    span, and one token per word. *)
Definition block_bbox (block_dict : BlockDict) : BBox :=
  {| bx0 := bd_x0 block_dict; by0 := bd_y0 block_dict;
     bx1 := bd_x1 block_dict; by1 := bd_y1 block_dict |}.

Definition block_rhetoric (block_dict : BlockDict) : option Rhetoric :=
  match bd_rhetoric block_dict with
  | Some raw => match rr_fields raw with
                | [] => None
                | _ => _build_rhetoric raw
                end
  | None => None
  end.

Definition block_rhetoric_features (block_dict : BlockDict)
  : option RhetoricFeatures :=
  match bd_rhetoric_features block_dict with
  | Some raw => match fr_fields raw with
                | [] => None
                | _ => _build_rhetoric_features raw
                end
  | None => None
  end.

Definition text_block (block_id : string) (page_num : Z) (page_w page_h : Q)
  (block_dict : BlockDict) : Block :=
  let bbox := block_bbox block_dict in
  let block_type :=
    _safe_block_type (default "paragraph" (bd_block_type block_dict)) in
  let role := _safe_role (default "paragraph" (bd_role block_dict)) in
  let text := bd_text block_dict in
  let html_tag := _html_tag_for_type block_type in
  let html_template :=
    "<" +:+ html_tag +:+ ">{{text}}</" +:+ html_tag +:+ ">" in
  let html_content :=
    "<" +:+ html_tag +:+ ">" +:+ text +:+ "</" +:+ html_tag +:+ ">" in
  {| b_id := block_id; b_type := block_type; b_role := Some role;
     b_page := page_num; b_bbox := bbox;
     b_bbox_norm := Some (_normalize_bbox bbox page_w page_h);
     b_reading_order := default 0 (bd_reading_order block_dict);
     b_z_index := 0; b_parent := None; b_children := None;
     b_text := Some text; b_style_id := bd_style_id block_dict;
     b_html := Some html_content; b_html_template := Some html_template;
     b_rhetoric := block_rhetoric block_dict;
     b_rhetoric_features := block_rhetoric_features block_dict |}.

Definition block_span (block_id : string) (page_w page_h : Q)
  (block_dict : BlockDict) : Span :=
  let bbox := block_bbox block_dict in
  {| sp_id := "s-" +:+ block_id; sp_block_id := block_id;
     sp_text := bd_text block_dict; sp_bbox := bbox;
     sp_bbox_norm := Some (_normalize_bbox bbox page_w page_h);
     sp_style_id := bd_style_id block_dict |}.

Definition word_token (block_id : string) (page_w page_h : Q) (word : Word)
  : Token :=
  let w_bbox := {| bx0 := w_x0 word; by0 := w_y0 word;
                   bx1 := w_x1 word; by1 := w_y1 word |} in
  {| tk_text := w_text word; tk_bbox := w_bbox;
     tk_bbox_norm := Some (_normalize_bbox w_bbox page_w page_h);
     tk_block_id := block_id; tk_span_id := Some ("s-" +:+ block_id) |}.

(** The instances built for one table: its cells, and the synthetic
    block, whose reading order is the number of blocks emitted so far. *)
Definition table_cell (page_w page_h : Q) (cell_dict : CellDict)
  : TableCell :=
  let c_bbox := cd_bbox cell_dict in
  {| tc_row := cd_row cell_dict; tc_col := cd_col cell_dict;
     tc_row_span := cd_row_span cell_dict;
     tc_col_span := cd_col_span cell_dict;
     tc_text := cd_text cell_dict; tc_bbox := c_bbox;
     tc_bbox_norm := Some (_normalize_bbox c_bbox page_w page_h);
     tc_style_id := None |}.

Definition table_block (tbl_id : string) (page_num : Z) (page_w page_h : Q)
  (tbl_bbox : BBox) (n_blocks : nat) : Block :=
  {| b_id := tbl_id; b_type := table; b_role := Some r_table;
     b_page := page_num; b_bbox := tbl_bbox;
     b_bbox_norm := Some (_normalize_bbox tbl_bbox page_w page_h);
     b_reading_order := Z.of_nat n_blocks;
     b_z_index := 0; b_parent := None; b_children := None;
     b_text := Some "[TABLE]"; b_style_id := None;
     b_html := None; b_html_template := None;
     b_rhetoric := None; b_rhetoric_features := None |}.

Section SchemaAssembler.
Variable rnd : nat -> N.

(** The body of the loop over the text blocks of a page. *)
Definition emit_block (page_num : Z) (page_w page_h : Q) (st : Asm)
  (block_dict : BlockDict) : Run Asm :=
  fresh <- uuid4 rnd ;;
  let block_id := default fresh (bd_id block_dict) in
  block <- lift (new_Block
                   (text_block block_id page_num page_w page_h block_dict)) ;;
  edges <- lift (chain_edge (prev_block_id st) block_id (all_edges st)) ;;
  ret {| a_pages := a_pages st;
         all_blocks := all_blocks st ++ [block];
         all_spans :=
           all_spans st ++ [block_span block_id page_w page_h block_dict];
         all_tokens :=
           all_tokens st
           ++ map (word_token block_id page_w page_h) (bd_words block_dict);
         all_tables := all_tables st;
         all_edges := edges;
         prev_block_id := Some block_id |}.

(** The body of the loop over the tables of a page. *)
Definition emit_table (page_num : Z) (page_w page_h : Q) (st : Asm)
  (tbl_dict : TableDict) : Run Asm :=
  let tbl_id := td_id tbl_dict in
  let tbl_bbox := td_bbox tbl_dict in
  cells <- lift (mapM (fun cell_dict =>
                         new_TableCell (table_cell page_w page_h cell_dict))
                   (td_cells tbl_dict)) ;;
  tbl <- lift (new_Table
    {| t_id := tbl_id; t_page := page_num; t_rows := td_rows tbl_dict;
       t_cols := td_cols tbl_dict; t_bbox := tbl_bbox;
       t_cells := cells |}) ;;
  match tbl_bbox with
  | Some bbox =>
      block <- lift (new_Block
                       (table_block tbl_id page_num page_w page_h bbox
                          (length (all_blocks st)))) ;;
      edges <- lift (chain_edge (prev_block_id st) tbl_id (all_edges st)) ;;
      ret {| a_pages := a_pages st;
             all_blocks := all_blocks st ++ [block];
             all_spans := all_spans st;
             all_tokens := all_tokens st;
             all_tables := all_tables st ++ [tbl];
             all_edges := edges;
             prev_block_id := Some tbl_id |}
  | None =>
      ret {| a_pages := a_pages st;
             all_blocks := all_blocks st;
             all_spans := all_spans st;
             all_tokens := all_tokens st;
             all_tables := all_tables st ++ [tbl];
             all_edges := all_edges st;
             prev_block_id := prev_block_id st |}
  end.

Definition reading_order_key (b : BlockDict) : Z :=
  default 0 (bd_reading_order b).

Definition assemble_page (merged_blocks : list (Z * list BlockDict))
  (tables_by_page : list (Z * list TableDict)) (st : Asm)
  (page_data : PageData) : Run Asm :=
  let page_num := pd_page_number page_data in
  let page_w := pd_width page_data in
  let page_h := pd_height page_data in
  let page_idx := page_num - 1 in
  page <- lift (new_Page page_num page_w page_h 0) ;;
  let st :=
    {| a_pages := a_pages st ++ [page];
       all_blocks := all_blocks st; all_spans := all_spans st;
       all_tokens := all_tokens st; all_tables := all_tables st;
       all_edges := all_edges st; prev_block_id := prev_block_id st |} in
  let blocks :=
    Py.sorted (Py.lt_keyZ reading_order_key)
      (default [] (Py.dict_get page_idx merged_blocks)) in
  st <- fold_run (emit_block page_num page_w page_h) blocks st ;;
  fold_run (emit_table page_num page_w page_h)
    (default [] (Py.dict_get page_idx tables_by_page)) st.

Definition assemble_document (doc_id : string) (pages_data : list PageData)
  (merged_blocks : list (Z * list BlockDict))
  (tables_by_page : list (Z * list TableDict))
  (styles_ : gmap string StyleDict) (source_type : SourceType)
  : Run LayoutDocument :=
  let pydantic_styles := style_of_dict <$> styles_ in
  st <- fold_run (assemble_page merged_blocks tables_by_page)
          pages_data Asm_init ;;
  ret {| document :=
           {| document_id := doc_id; schema_version := "3.0";
              source := source_type;
              page_count := Some (Z.of_nat (length (a_pages st))) |};
         pages := a_pages st;
         blocks := all_blocks st;
         spans := or_None (all_spans st);
         tokens := or_None (all_tokens st);
         tables := or_None (all_tables st);
         styles := if decide (pydantic_styles = ∅) then None
                   else Some pydantic_styles;
         reading_graph := or_None (all_edges st) |}.
End SchemaAssembler.

(** ** pipeline.py *)

(** [int(s)] on a string: surrounding whitespace, an optional sign, then
    decimal digits, single underscores allowed between digits. *)
Definition digit_value (c : ascii) : Z := Z.of_N (Py.code c) - 48.

Fixpoint int_digits (s : string) (acc : Z) : option Z :=
  match s with
  | EmptyString => Some acc
  | String c s' =>
      if Py.isdecimal_char c then int_digits s' (acc * 10 + digit_value c)
      else if Ascii.eqb c "_" then
        match s' with
        | String c2 s'' =>
            if Py.isdecimal_char c2
            then int_digits s'' (acc * 10 + digit_value c2)
            else None
        | EmptyString => None
        end
      else None
  end.

Definition int_unsigned (s : string) : option Z :=
  match s with
  | String c s' =>
      if Py.isdecimal_char c then int_digits s' (digit_value c) else None
  | EmptyString => None
  end.

Definition py_int (s : string) : option Z :=
  match Py.strip s with
  | String c s' =>
      if Ascii.eqb c "-" then Z.opp <$> int_unsigned s'
      else if Ascii.eqb c "+" then int_unsigned s'
      else int_unsigned (String c s')
  | EmptyString => None
  end.

(** [range(a, b)] *)
Definition range (a b : Z) : list Z :=
  map (fun i => a + Z.of_nat i) (seq 0 (Z.to_nat (b - a))).

(** [for p in ps: if 1 <= p <= total: result.add(p)] *)
Definition add_in_range (total : Z) (ps : list Z) (result : gset Z)
  : gset Z :=
  fold_left (fun result p =>
               if (1 <=? p) && (p <=? total) then {[ p ]} ∪ result
               else result) ps result.

(** The body of the loop for one comma-separated part. *)
Definition parse_part (total : Z) (result : gset Z) (part : string)
  : gset Z :=
  let part := Py.strip part in
  if Py.contains "-" part then
    match Py.split_first "-" part with
    | Some (a, b) =>
        match py_int a, py_int b with
        | Some a, Some b => add_in_range total (range a (b + 1)) result
        | _, _ => result
        end
    | None => result
    end
  else
    match py_int part with
    | Some p => add_in_range total [p] result
    | None => result
    end.

Definition _parse_page_range (page_range : string) (total : Z) : gset Z :=
  let result :=
    fold_left (parse_part total) (Py.split_char "," page_range) ∅ in
  if decide (result = ∅) then list_to_set (range 1 (total + 1))
  else result.

Definition char_at (n : nat) (s : string) : option ascii := String.get n s.

(** The bullets other than the hyphen lie outside the alphabet of the
    embedding, so that [startswith] has one alternative left. *)
Definition _guess_block_type (block : BlockDict) : string :=
  let size := bd_size block in
  let fontname := Py.lower (bd_fontname block) in
  let text := bd_text block in
  if Py.leb 14 size || Py.contains "bold" fontname && Py.leb 12 size
  then "heading"
  else
    let word_count := Z.of_nat (length (Py.split_ws text)) in
    if (word_count <=? 3) && Py.isdigit (Py.strip text) then "page_number"
    else if Py.startswith "-" (Py.lstrip text)
            || (2 <? Z.of_nat (String.length text))
               && match char_at 0 text, char_at 1 text with
                  | Some c0, Some c1 =>
                      Py.isdigit_char c0
                      && (Ascii.eqb c1 "." || Ascii.eqb c1 ")")
                  | _, _ => false
                  end
    then "list_item"
    else "paragraph".

Definition role_map : list (string * string) :=
  [("heading", "section_title"); ("paragraph", "paragraph");
   ("list_item", "list_item"); ("table", "table"); ("figure", "figure");
   ("caption", "caption"); ("header", "header"); ("footer", "footer");
   ("page_number", "footer"); ("code_block", "paragraph")].

Definition _guess_role (block : BlockDict) : string :=
  let bt := default "paragraph" (bd_block_type block) in
  default "paragraph" (raw_get bt role_map).

(** One page of a PDF as the extractors read it: its size, its cleaned
    characters and the tables found on it.  Pages are numbered from 1 in
    file order. *)
Record PdfPage := {
  pp_width : Q; pp_height : Q; pp_chars : list Char;
  pp_tables : list Detected }.

Definition extract_chars_from_pdf (pdf : list PdfPage) : list PageData :=
  map (fun '((i, p) : Z * PdfPage) =>
         {| pd_page_number := i + 1; pd_width := pp_width p;
            pd_height := pp_height p; pd_chars := pp_chars p |})
    (Py.enumerate pdf).

(** What the table finder sees on page [page_number]. *)
Definition detected_on (pdf : list PdfPage) (page_number : Z)
  : list Detected :=
  match nth_error pdf (Z.to_nat (page_number - 1)) with
  | Some p => if 1 <=? page_number then pp_tables p else []
  | None => []
  end.

(** The no-vision loop body: three assignments. *)
Definition classify_heuristic (i : Z) (b : BlockDict) : BlockDict :=
  let b1 := with_classification b (Some (_guess_block_type b)) (bd_role b)
              (bd_reading_order b) (bd_rhetoric b)
              (bd_rhetoric_features b) in
  let b2 := with_classification b1 (bd_block_type b1)
              (Some (_guess_role b1)) (bd_reading_order b1)
              (bd_rhetoric b1) (bd_rhetoric_features b1) in
  with_classification b2 (bd_block_type b2) (bd_role b2) (Some i)
    (bd_rhetoric b2) (bd_rhetoric_features b2).

(** The body of the [except] branch: three [setdefault] calls. *)
Definition classify_fallback (i : Z) (b : BlockDict) : BlockDict :=
  with_classification b
    (Some (default (_guess_block_type b) (bd_block_type b)))
    (Some (default "paragraph" (bd_role b)))
    (Some (default i (bd_reading_order b)))
    (bd_rhetoric b) (bd_rhetoric_features b).

Definition on_pages {A B} (f : A -> B) (d : list (Z * A)) : list (Z * B) :=
  map (fun '(k, v) => (k, f v)) d.

Definition dict_values {A} (d : list (Z * A)) : list A := map snd d.

Definition enumerate_map {A B} (f : Z -> A -> B) (l : list A) : list B :=
  map (fun '(i, x) => f i x) (Py.enumerate l).

Record DocxWalk := {
  dw_blocks : list BlockDict; dw_tables : list TableDict;
  dw_page_w : Q; dw_page_h : Q }.

Definition extract_from_docx (w : DocxWalk) : option PagedDoc :=
  _paginate (dw_blocks w) (dw_tables w) (dw_page_w w) (dw_page_h w).

Section Pipeline.
Variable rnd : nat -> N.
Variable sha256_hexdigest : string -> string.
Variable ratio : string -> string -> Q.
(** The tagger: the tags per page index, or [None] when it raises. *)
Variable tag_all_pages :
  list (Z * list BlockDict) -> option (list (Z * list Tag)).
(** The blocks as the text-only tagger of the DOCX path leaves them. *)
Variable _refine_docx_blocks_via_api :
  list (Z * list BlockDict) -> list (Z * list BlockDict).

Definition _build_page_geometry (pdf : list PdfPage) (page : PageData)
  : Run (Z * list BlockDict * list TableDict) :=
  let page_idx := pd_page_number page - 1 in
  words <- lift (build_words (pd_chars page)) ;;
  lines_list <- lift (build_lines words) ;;
  blocks <- build_blocks rnd lines_list ;;
  tables_ <- extract_tables rnd (detected_on pdf (pd_page_number page))
              (pd_page_number page) ;;
  blocks <- lift (deduplicate_blocks_from_tables blocks tables_
                    default_overlap_threshold) ;;
  ret (page_idx, blocks, tables_).

(** Pages complete in submission order. *)
Definition collect_geometry
  (results : list (Z * list BlockDict * list TableDict))
  : list (Z * list BlockDict) * list (Z * list TableDict) :=
  fold_left (fun '(merged_blocks, tables_by_page) '(page_idx, blocks, tbls) =>
               (Py.dict_set page_idx blocks merged_blocks,
                Py.dict_set page_idx tbls tables_by_page))
    results ([], []).

Definition classify (use_vision : bool)
  (pages_data : list PageData) (merged_blocks : list (Z * list BlockDict))
  : list (Z * list BlockDict) :=
  if use_vision then
    let pages_blocks_input :=
      map (fun page =>
             (pd_page_number page - 1,
              default [] (Py.dict_get (pd_page_number page - 1)
                            merged_blocks))) pages_data in
    match tag_all_pages pages_blocks_input with
    | Some tags_by_page =>
        map (fun '(page_idx, blocks) =>
               (page_idx,
                match_blocks_to_tags ratio blocks
                  (default [] (Py.dict_get page_idx tags_by_page))))
          merged_blocks
    | None => on_pages (enumerate_map classify_fallback) merged_blocks
    end
  else on_pages (enumerate_map classify_heuristic) merged_blocks.

(** Steps 5 and 6, shared by both pipelines: the style table is built
    from all blocks, which receive their [style_id] in place. *)
Definition normalize_and_assemble (doc_id : string)
  (pages_data : list PageData) (merged_blocks : list (Z * list BlockDict))
  (tables_by_page : list (Z * list TableDict)) (source_type : SourceType)
  : Run LayoutDocument :=
  let all_blocks_for_styles := concat (dict_values merged_blocks) in
  let global_styles :=
    snd (normalize_styles sha256_hexdigest all_blocks_for_styles) in
  let merged_blocks :=
    on_pages (fun blocks => fst (normalize_styles sha256_hexdigest blocks))
      merged_blocks in
  assemble_document rnd doc_id pages_data merged_blocks tables_by_page
    global_styles source_type.

Definition process_pdf (pdf : list PdfPage) (use_vision : bool)
  (page_range : option string) : Run LayoutDocument :=
  doc_id <- uuid4 rnd ;;
  let pages_data := extract_chars_from_pdf pdf in
  let pages_data :=
    match page_range with
    | Some r =>
        if Py.truthy r then
          let pages_to_process :=
            _parse_page_range r (Z.of_nat (length pages_data)) in
          List.filter
            (fun p => bool_decide (pd_page_number p ∈ pages_to_process))
            pages_data
        else pages_data
    | None => pages_data
    end in
  results <- for_each (_build_page_geometry pdf) pages_data ;;
  let '(merged_blocks, tables_by_page) := collect_geometry results in
  let merged_blocks := classify use_vision pages_data merged_blocks in
  normalize_and_assemble doc_id pages_data merged_blocks tables_by_page
    src_pdf.

Definition process_docx (docx : DocxWalk) (use_vision : bool)
  : Run LayoutDocument :=
  doc_id <- uuid4 rnd ;;
  paged <- lift (extract_from_docx docx) ;;
  let '(pages_data, merged_blocks, tables_by_page) := paged in
  let total_blocks :=
    length (concat (dict_values merged_blocks)) in
  let merged_blocks :=
    if use_vision && negb (Nat.eqb total_blocks 0)
    then _refine_docx_blocks_via_api merged_blocks
    else merged_blocks in
  normalize_and_assemble doc_id pages_data merged_blocks tables_by_page
    src_docx.
End Pipeline.

(** *** [process_document] and cli.py *)

(** [os.path.splitext(p)[1]] on a POSIX path: the text from the last
    dot of the last path component, unless only dots precede it. *)
Fixpoint after_last_slash (s : string) : option string :=
  match s with
  | EmptyString => None
  | String c s' =>
      match after_last_slash s' with
      | Some r => Some r
      | None => if Ascii.eqb c "/" then Some s' else None
      end
  end.

Fixpoint split_last_dot (s : string) : option (string * string) :=
  match s with
  | EmptyString => None
  | String c s' =>
      match split_last_dot s' with
      | Some (stem, ext) => Some (String c stem, ext)
      | None => if Ascii.eqb c "." then Some (EmptyString, s) else None
      end
  end.

Definition splitext_ext (p : string) : string :=
  let name := default p (after_last_slash p) in
  match split_last_dot name with
  | Some (stem, ext) =>
      if Py.forallb_str (fun c => Ascii.eqb c ".") stem then "" else ext
  | None => ""
  end.

(** An exception that leaves [process_document]. *)
Inductive Raised :=
  | ValueError (msg : string)
  | ProcessingError.

Definition Outcome (A : Type) : Type := nat -> Raised + (A * nat).

Definition of_run {A} (m : Run A) : Outcome A :=
  fun k => match m k with
           | Some r => inr r
           | None => inl ProcessingError
           end.

(** ** Serialisation: [model_dump_json(by_alias=True, exclude_none=True)]

    The JSON text is modelled by the value tree it denotes, with the keys
    of every object in the declaration order of the model's fields (and a
    dict's keys in the order of the map); fields whose value is [None] are
    left out, and [from_id] is written under its alias. *)

#[local] Unset Elimination Schemes.
Inductive Json :=
  | JBool (b : bool)
  | JInt (n : Z)
  | JFloat (x : Q)
  | JStr (s : string)
  | JArr (items : list Json)
  | JObj (fields : list (string * Json)).
#[local] Set Elimination Schemes.

Definition opt_field {A} (name : string) (dump : A -> Json) (v : option A)
  : list (string * Json) :=
  match v with
  | Some a => [(name, dump a)]
  | None => []
  end.

Definition SourceType_value (s : SourceType) : string :=
  match s with
  | src_pdf => "pdf" | src_docx => "docx" | src_html => "html"
  | src_image => "image"
  end.

Definition WeightType_value (w : WeightType) : string :=
  match w with w_normal => "normal" | w_bold => "bold" end.

Definition AlignType_value (a : AlignType) : string :=
  match a with
  | a_left => "left" | a_center => "center" | a_right => "right"
  | a_justify => "justify"
  end.

Definition RelationType_value (r : RelationType) : string :=
  match r with
  | rel_next => "next" | rel_parent => "parent" | rel_child => "child"
  | rel_caption_of => "caption_of"
  end.

Definition PageUnit_value (u : PageUnit) : string :=
  match u with pt => "pt" | px => "px" end.

Definition dump_bbox (b : BBox) : Json :=
  JArr [JFloat (bx0 b); JFloat (by0 b); JFloat (bx1 b); JFloat (by1 b)].

Definition dump_Rhetoric (r : Rhetoric) : Json :=
  JObj (opt_field "tone" JStr (tone r) ++ opt_field "voice" JStr (voice r)
        ++ opt_field "modality" JStr (modality r)
        ++ opt_field "tense" JStr (tense r)
        ++ opt_field "domain" JStr (domain r)).

Definition dump_Qc (x : Qc) : Json := JFloat (this x).

Definition dump_RhetoricFeatures (f : RhetoricFeatures) : Json :=
  JObj (opt_field "avg_sentence_length" dump_Qc (avg_sentence_length f)
        ++ opt_field "modal_density" dump_Qc (modal_density f)
        ++ opt_field "passive_ratio" dump_Qc (passive_ratio f)
        ++ opt_field "legal_term_density" dump_Qc (legal_term_density f)).

Definition dump_Style (s : Style) : Json :=
  JObj (opt_field "font_family" JStr (st_font_family s)
        ++ opt_field "size" JFloat (st_size s)
        ++ opt_field "weight" (fun w => JStr (WeightType_value w))
             (st_weight s)
        ++ opt_field "italic" JBool (st_italic s)
        ++ opt_field "underline" JBool (st_underline s)
        ++ opt_field "color" JStr (st_color s)
        ++ opt_field "align" (fun a => JStr (AlignType_value a))
             (st_align s)).

Definition dump_DocumentMeta (d : DocumentMeta) : Json :=
  JObj ([("document_id", JStr (document_id d));
         ("schema_version", JStr (schema_version d));
         ("source", JStr (SourceType_value (source d)))]
        ++ opt_field "page_count" JInt (page_count d)).

Definition dump_Page (p : Page) : Json :=
  JObj [("page_number", JInt (pg_page_number p));
        ("width", JFloat (pg_width p)); ("height", JFloat (pg_height p));
        ("rotation", JInt (pg_rotation p));
        ("unit", JStr (PageUnit_value (pg_unit p)))].

Definition dump_Block (b : Block) : Json :=
  JObj ([("id", JStr (b_id b)); ("type", JStr (BlockType_value (b_type b)))]
        ++ opt_field "role" (fun r => JStr (RoleType_value r)) (b_role b)
        ++ [("page", JInt (b_page b)); ("bbox", dump_bbox (b_bbox b))]
        ++ opt_field "bbox_norm" dump_bbox (b_bbox_norm b)
        ++ [("reading_order", JInt (b_reading_order b));
            ("z_index", JInt (b_z_index b))]
        ++ opt_field "parent" JStr (b_parent b)
        ++ opt_field "children" (fun c => JArr (map JStr c)) (b_children b)
        ++ opt_field "text" JStr (b_text b)
        ++ opt_field "style_id" JStr (b_style_id b)
        ++ opt_field "html" JStr (b_html b)
        ++ opt_field "html_template" JStr (b_html_template b)
        ++ opt_field "rhetoric" dump_Rhetoric (b_rhetoric b)
        ++ opt_field "rhetoric_features" dump_RhetoricFeatures
             (b_rhetoric_features b)).

Definition dump_Span (s : Span) : Json :=
  JObj ([("id", JStr (sp_id s)); ("block_id", JStr (sp_block_id s));
         ("text", JStr (sp_text s)); ("bbox", dump_bbox (sp_bbox s))]
        ++ opt_field "bbox_norm" dump_bbox (sp_bbox_norm s)
        ++ opt_field "style_id" JStr (sp_style_id s)).

Definition dump_Token (t : Token) : Json :=
  JObj ([("text", JStr (tk_text t)); ("bbox", dump_bbox (tk_bbox t))]
        ++ opt_field "bbox_norm" dump_bbox (tk_bbox_norm t)
        ++ [("block_id", JStr (tk_block_id t))]
        ++ opt_field "span_id" JStr (tk_span_id t)).

Definition dump_TableCell (c : TableCell) : Json :=
  JObj ([("row", JInt (tc_row c)); ("col", JInt (tc_col c));
         ("row_span", JInt (tc_row_span c));
         ("col_span", JInt (tc_col_span c)); ("text", JStr (tc_text c));
         ("bbox", dump_bbox (tc_bbox c))]
        ++ opt_field "bbox_norm" dump_bbox (tc_bbox_norm c)
        ++ opt_field "style_id" JStr (tc_style_id c)).

Definition dump_Table (t : Table) : Json :=
  JObj ([("id", JStr (t_id t)); ("page", JInt (t_page t));
         ("rows", JInt (t_rows t)); ("cols", JInt (t_cols t))]
        ++ opt_field "bbox" dump_bbox (t_bbox t)
        ++ [("cells", JArr (map dump_TableCell (t_cells t)))]).

Definition dump_Edge (e : Edge) : Json :=
  JObj [("from", JStr (from_id e)); ("to", JStr (to e));
        ("relation", JStr (RelationType_value (relation e)))].

Definition dump_styles (m : gmap string Style) : Json :=
  JObj (map (fun kv : string * Style => (fst kv, dump_Style (snd kv)))
          (map_to_list m)).

Definition model_dump_json (doc : LayoutDocument) : Json :=
  JObj ([("document", dump_DocumentMeta (document doc));
         ("pages", JArr (map dump_Page (pages doc)));
         ("blocks", JArr (map dump_Block (blocks doc)))]
        ++ opt_field "spans" (fun l => JArr (map dump_Span l)) (spans doc)
        ++ opt_field "tokens" (fun l => JArr (map dump_Token l))
             (tokens doc)
        ++ opt_field "tables" (fun l => JArr (map dump_Table l))
             (tables doc)
        ++ opt_field "styles" dump_styles (styles doc)
        ++ opt_field "reading_graph" (fun l => JArr (map dump_Edge l))
             (reading_graph doc)).

Record Args := {
  arg_input : string; arg_output : option string; arg_no_vision : bool;
  arg_pages : option string; arg_indent : Z; arg_verbose : bool }.

(** How the interpreter leaves [main]. *)
Inductive Exit :=
  | Exit_written (doc : LayoutDocument)
  | Exit_uncaught (exc : Raised)
  | Exit_usage.

(** The process exit status: 0 on return, 1 on an uncaught exception,
    2 when [argparse] rejects the command line. *)
Definition exit_code (e : Exit) : Z :=
  match e with
  | Exit_written _ => 0
  | Exit_uncaught _ => 1
  | Exit_usage => 2
  end.

(** What [main] writes to the output file or to stdout. *)
Definition written (e : Exit) : option Json :=
  match e with
  | Exit_written doc => Some (model_dump_json doc)
  | _ => None
  end.

(** The last line the interpreter prints on stderr, when it is known. *)
Definition stderr_last_line (e : Exit) : option string :=
  match e with
  | Exit_uncaught (ValueError msg) => Some ("ValueError: " +:+ msg)
  | _ => None
  end.

Section Cli.
Variable rnd : nat -> N.
Variable sha256_hexdigest : string -> string.
Variable ratio : string -> string -> Q.
Variable tag_all_pages :
  list (Z * list BlockDict) -> option (list (Z * list Tag)).
Variable _refine_docx_blocks_via_api :
  list (Z * list BlockDict) -> list (Z * list BlockDict).
(** The files as the two readers parse them; [None] when the reader
    raises. *)
Variable open_pdf : string -> option (list PdfPage).
Variable open_docx : string -> option DocxWalk.
(** [parser.parse_args()] *)
Variable parse_args : list string -> option Args.

Definition process_document (filepath : string) (use_vision : bool)
  (page_range : option string) : Outcome LayoutDocument :=
  let ext := Py.lower (splitext_ext filepath) in
  if String.eqb ext ".pdf" then
    of_run (pdf <- lift (open_pdf filepath) ;;
            process_pdf rnd sha256_hexdigest ratio tag_all_pages pdf
              use_vision page_range)
  else if String.eqb ext ".docx" || String.eqb ext ".doc" then
    of_run (docx <- lift (open_docx filepath) ;;
            process_docx rnd sha256_hexdigest _refine_docx_blocks_via_api
              docx use_vision)
  else
    fun _ => inl (ValueError ("Unsupported file format: '" +:+ ext
                              +:+ "'. Supported: .pdf, .docx")).

Definition main (argv : list string) : Exit :=
  match parse_args argv with
  | None => Exit_usage
  | Some args =>
      match process_document (arg_input args) (negb (arg_no_vision args))
              (arg_pages args) 0%nat with
      | inr (doc, _) => Exit_written doc
      | inl exc => Exit_uncaught exc
      end
  end.
End Cli.

(** ** geometry/char_extractor.py: colours *)

(** [format(n, "x")] for a natural number. *)
Fixpoint hex_digits (fuel : nat) (n : N) : string :=
  match fuel with
  | O => String (hex_digit (n mod 16)) ""
  | S fuel' =>
      if (n <? 16)%N then String (hex_digit n) ""
      else hex_digits fuel' (n / 16) +:+ String (hex_digit (n mod 16)) ""
  end.

(** [f"{r:02x}"]: lower-case hexadecimal, zero-padded to two characters,
    the sign counting as one. *)
Definition format_02x (r : Z) : string :=
  if r <? 0 then "-" +:+ hex_digits (N.size_nat (Z.to_N (- r))) (Z.to_N (- r))
  else
    let h := hex_digits (N.size_nat (Z.to_N r)) (Z.to_N r) in
    if (String.length h <? 2)%nat then "0" +:+ h else h.

(** [int(max(0, min(1, v)) * 255)] *)
Definition channel (v : Q) : Z :=
  Py.int_of_float (Py.max 0 (Py.min 1 v) * 255)%Q.

Definition hex_color (r g b : Z) : string :=
  "#" +:+ format_02x r +:+ format_02x g +:+ format_02x b.

(** [_extract_color], from the value of ["non_stroking_color"]: [None]
    when the key is missing or the value is not a list or tuple. *)
Definition _extract_color (nsc : option (list Q)) : string :=
  match nsc with
  | None => "#000000"
  | Some [r; g; b] => hex_color (channel r) (channel g) (channel b)
  | Some [gray] =>
      let gray := channel gray in hex_color gray gray gray
  | Some [c_; m_; y_; k_] =>
      let r := Py.int_of_float (255 * (1 - c_) * (1 - k_))%Q in
      let g := Py.int_of_float (255 * (1 - m_) * (1 - k_))%Q in
      let b := Py.int_of_float (255 * (1 - y_) * (1 - k_))%Q in
      hex_color r g b
  | Some _ => "#000000"
  end.

(** A colour as the schema expects it: [#] and six lower-case
    hexadecimal digits. *)
Definition is_hex_char (c : ascii) : bool :=
  let n := Py.code c in
  ((48 <=? n) && (n <=? 57) || (97 <=? n) && (n <=? 102))%N.

Definition is_hex_color (s : string) : bool :=
  match s with
  | String c rest =>
      Ascii.eqb c "#" && (String.length rest =? 6)%nat
      && Py.forallb_str is_hex_char rest
  | EmptyString => false
  end.

(** Two hexadecimal digits. *)
Definition two_hex (s : string) : bool :=
  (String.length s =? 2)%nat && Py.forallb_str is_hex_char s.

(** ** geometry/docx_extractor.py: paragraph classification *)

(** [_classify_paragraph].  The bullet characters tested by
    [startswith] lie outside the alphabet of the embedding, which leaves
    the numbered-item test. *)
Definition _classify_paragraph (style_name : string) (font_size : Q)
  (is_bold : bool) (text : string) : string * string :=
  if Py.contains "heading" style_name || Py.contains "title" style_name then
    if Py.contains "title" style_name then ("heading", "title")
    else
      match find (fun lvl => Py.contains (str_int lvl) style_name)
              (range 1 7) with
      | Some lvl =>
          if lvl <=? 2 then ("heading", "section_title")
          else ("heading", "subsection_title")
      | None => ("heading", "section_title")
      end
  else if Py.contains "list" style_name || Py.contains "bullet" style_name
  then ("list_item", "list_item")
  else if Py.contains "caption" style_name then ("caption", "caption")
  else if Py.contains "code" style_name || Py.contains "mono" style_name
  then ("code_block", "paragraph")
  else if is_bold && Py.leb 14 font_size then ("heading", "section_title")
  else
    let stripped := Py.lstrip text in
    if (2 <? Z.of_nat (String.length stripped))
       && match char_at 0 stripped, char_at 1 stripped with
          | Some c0, Some c1 =>
              Py.isdigit_char c0 && (Ascii.eqb c1 "." || Ascii.eqb c1 ")")
          | _, _ => false
          end
    then ("list_item", "list_item")
    else ("paragraph", "paragraph").

(** The pairs of block type and role that the DOCX classifier and the
    PDF heuristics can produce. *)
Definition docx_pairs : list (string * string) :=
  [("heading", "title"); ("heading", "section_title");
   ("heading", "subsection_title"); ("list_item", "list_item");
   ("caption", "caption"); ("code_block", "paragraph");
   ("paragraph", "paragraph")].

Definition heuristic_pairs : list (BlockType * RoleType) :=
  [(heading, r_section_title); (page_number, r_footer);
   (list_item, r_list_item); (paragraph, r_paragraph)].

(** ** vision/api_tagger.py: the summary sent with a page *)

Record BlockSummary := {
  bs_index : Z; bs_text : string; bs_font : string; bs_size : Q }.

Definition _build_blocks_summary (blocks : list BlockDict)
  : list BlockSummary :=
  map (fun '((i, b) : Z * BlockDict) =>
         let text := bd_text b in
         let text :=
           if (120 <? String.length text)%nat
           then Py.take 120 text +:+ "..." else text in
         {| bs_index := i; bs_text := text; bs_font := bd_fontname b;
            bs_size := bd_size b |})
    (Py.enumerate blocks).

(** * Vocabulary of the properties *)

(** ** Word builder *)

(** A word list built group by group. *)
Definition merged_from (groups : list (list Char)) (words : list Word)
  : Prop :=
  Forall2 (fun g w => g <> [] /\ _merge_chars g = Some w) groups words.

(** ** Table de-duplication *)

(** The block's own area, and the overlap test of the loop. *)
Definition true_area (b : BlockDict) : Q :=
  ((bd_x1 b - bd_x0 b) * (bd_y1 b - bd_y0 b))%Q.

Definition overlaps_table (thr : Q) (b : BlockDict) (T : BBox) : bool :=
  Py.ltb thr (inter_area b T / block_area b).

(** The block's bbox lies entirely within the table's. *)
Definition within_table (b : BlockDict) (T : BBox) : Prop :=
  (bx0 T <= bd_x0 b /\ bd_x0 b <= bd_x1 b /\ bd_x1 b <= bx1 T
   /\ by0 T <= bd_y0 b /\ bd_y0 b <= bd_y1 b /\ bd_y1 b <= by1 T)%Q.

(** A block of 1/16 pt by 1/16 pt inside a table of 10 pt by 10 pt. *)
Definition tiny_block : BlockDict :=
  {| bd_id := Some "b"; bd_text := "x";
     bd_x0 := 0; bd_y0 := 0; bd_x1 := 1 # 16; bd_y1 := 1 # 16;
     bd_fontname := "Arial"; bd_size := 1 # 16; bd_color := "#000000";
     bd_lines := []; bd_words := [];
     bd_block_type := None; bd_role := None; bd_reading_order := None;
     bd_rhetoric := None; bd_rhetoric_features := None;
     bd_style_id := None |}.

Definition big_table_bbox : BBox :=
  {| bx0 := 0; by0 := 0; bx1 := 10; by1 := 10 |}.

Definition big_table : TableDict :=
  {| td_id := "t"; td_page := 1; td_rows := 1; td_cols := 1;
     td_bbox := Some big_table_bbox; td_cells := [];
     td_block_type := "table" |}.

(** ** Page ranges *)

(** What a comma-separated part denotes: a page [N], or the pages of
    [A-B], both ends included; only pages of the document count. *)
Definition part_selects (total : Z) (part : string) (p : Z) : Prop :=
  1 <= p <= total
  /\ if Py.contains "-" (Py.strip part)
     then exists sa sb a b,
            Py.split_first "-" (Py.strip part) = Some (sa, sb)
            /\ py_int sa = Some a /\ py_int sb = Some b /\ a <= p <= b
     else py_int (Py.strip part) = Some p.

(** ** Block matcher *)

(** A model of [SequenceMatcher(None, a, b).ratio()] for texts shorter
    than 200 characters (where no element is treated as junk): the
    longest common block, earliest in [a] then in [b], is matched and the
    texts on its left and on its right are matched recursively; the ratio
    is twice the number of matched characters over the total length. *)
Fixpoint common_prefix (a b : list ascii) : nat :=
  match a, b with
  | x :: a', y :: b' =>
      if Ascii.eqb x y then S (common_prefix a' b') else O
  | _, _ => O
  end.

Fixpoint scan_b (a b : list ascii) (i j : nat) (best : nat * nat * nat)
  : nat * nat * nat :=
  match b with
  | [] => best
  | _ :: b' =>
      let k := common_prefix a b in
      scan_b a b' i (S j) (if (snd best <? k)%nat then (i, j, k) else best)
  end.

Fixpoint scan_a (a b : list ascii) (i : nat) (best : nat * nat * nat)
  : nat * nat * nat :=
  match a with
  | [] => best
  | _ :: a' => scan_a a' b (S i) (scan_b a b i O best)
  end.

Definition find_longest_match (a b : list ascii) : nat * nat * nat :=
  scan_a a b O (O, O, O).

Fixpoint matching (fuel : nat) (a b : list ascii) : nat :=
  match fuel with
  | O => O
  | S fuel' =>
      let '(i, j, k) := find_longest_match a b in
      if (k =? 0)%nat then O
      else (matching fuel' (firstn i a) (firstn j b) + k
            + matching fuel' (skipn (i + k) a) (skipn (j + k) b))%nat
  end.

Definition matcher_ratio (a b : string) : Q :=
  let la := list_ascii_of_string a in
  let lb := list_ascii_of_string b in
  let total := (length la + length lb)%nat in
  if (total =? 0)%nat then 1%Q
  else (inject_Z (2 * Z.of_nat (matching (S (length la)) la lb))
        / inject_Z (Z.of_nat total))%Q.

Section FuzzyPassSpec.
Variable ratio : string -> string -> Q.

(** The score the fuzzy pass gives a tag for a block. *)
Definition score (block : BlockDict) (t : Tag) : Q :=
  ratio (Py.take 200 (bd_text block))
        (Py.take 200 (default "" (tag_text t))).

Definition has_text (t : Tag) : Prop := default "" (tag_text t) <> "".

(** The tags that win in [fuzzy_pass], block by block. *)
Fixpoint fuzzy_winners (matched : list Z) (blocks_ : list (Z * BlockDict))
  (unmatched_tags : list Tag) : list (option Tag) :=
  match blocks_ with
  | [] => []
  | (i, block) :: rest =>
      if existsb (Z.eqb i) matched
      then None :: fuzzy_winners matched rest unmatched_tags
      else match _find_best_tag ratio block unmatched_tags with
           | Some t =>
               Some t :: fuzzy_winners matched rest
                           (list_remove t unmatched_tags)
           | None => None :: fuzzy_winners matched rest unmatched_tags
           end
  end.

(** What the fuzzy pass does to one block, given its verdict. *)
Definition fuzzy_result (matched : list Z) (ib : Z * BlockDict)
  (winner : option Tag) : Z * BlockDict :=
  let '(i, block) := ib in
  if existsb (Z.eqb i) matched then (i, block)
  else match winner with
       | Some t => (i, _apply_tag block t i)
       | None => (i, set_defaults i block)
       end.

End FuzzyPassSpec.

(** The two ways a block leaves [match_blocks_to_tags]. *)
Definition tagged_or_default (tags_ : list Tag) (ib : Z * BlockDict)
  (b' : BlockDict) : Prop :=
  (exists t, In t tags_ /\ b' = _apply_tag (snd ib) t (fst ib))
  \/ b' = set_defaults (fst ib) (snd ib).

Definition block_a : BlockDict :=
  {| bd_id := Some "b0"; bd_text := "a";
     bd_x0 := 72; bd_y0 := 100; bd_x1 := 80; bd_y1 := 112;
     bd_fontname := "Arial"; bd_size := 12; bd_color := "#000000";
     bd_lines := []; bd_words := [];
     bd_block_type := None; bd_role := None; bd_reading_order := None;
     bd_rhetoric := None; bd_rhetoric_features := None;
     bd_style_id := None |}.

Definition tag_abcd : Tag :=
  {| tag_block_index := None; tag_block_type := Some "heading";
     tag_role := Some "title"; tag_reading_order := Some 5;
     tag_text := Some "abcd"; tag_rhetoric := None;
     tag_rhetoric_features := None |}.

(** ** Command line *)

(** A stand-in command-line parser: one positional argument. *)
Definition parse_input_only (argv : list string) : option Args :=
  match argv with
  | [input] => Some {| arg_input := input; arg_output := None;
                       arg_no_vision := false; arg_pages := None;
                       arg_indent := 2; arg_verbose := false |}
  | _ => None
  end.

Definition main_offline : list string -> Exit :=
  main (fun k => N.of_nat k) (fun key => key) matcher_ratio
    (fun _ => None) (fun merged => merged) (fun _ => None) (fun _ => None)
    parse_input_only.

(** ** Rounding *)

Definition pow10 (n : nat) : Q := inject_Z (10 ^ Z.of_nat n).

(** ** The assembler, step by step *)

(** The identifier a text block is emitted under. *)
Definition emitted_id (rnd : nat -> N) (k : nat) (block_dict : BlockDict)
  : string :=
  default (str_uuid (uuid4_int (rnd k))) (bd_id block_dict).

(** The blocks and tables the assembler reads for a page. *)
Definition page_blocks (merged_blocks : list (Z * list BlockDict))
  (page_data : PageData) : list BlockDict :=
  Py.sorted (Py.lt_keyZ reading_order_key)
    (default [] (Py.dict_get (pd_page_number page_data - 1) merged_blocks)).

Definition page_tables (tables_by_page : list (Z * list TableDict))
  (page_data : PageData) : list TableDict :=
  default [] (Py.dict_get (pd_page_number page_data - 1) tables_by_page).

Definition with_page (st : Asm) (page : Page) : Asm :=
  {| a_pages := a_pages st ++ [page];
     all_blocks := all_blocks st; all_spans := all_spans st;
     all_tokens := all_tokens st; all_tables := all_tables st;
     all_edges := all_edges st; prev_block_id := prev_block_id st |}.

(** ** Reading graph *)

Definition next_edge (a b : string) : Edge :=
  {| from_id := a; to := b; relation := rel_next |}.

(** The [next] chain through a sequence of block ids. *)
Fixpoint chain (ids : list string) : list Edge :=
  match ids with
  | a :: rest =>
      match rest with
      | b :: _ => next_edge a b :: chain rest
      | [] => []
      end
  | [] => []
  end.

Definition edges_of (doc : LayoutDocument) : list Edge :=
  default [] (reading_graph doc).

(** C4 as a predicate on documents: the reading graph is the [next]
    chain through the blocks in emission order, N-1 edges for N blocks,
    the k-th from the k-th block to the next. *)
Definition next_chain_graph (doc : LayoutDocument) : Prop :=
  edges_of doc = chain (map b_id (blocks doc))
  /\ Forall (fun e => relation e = rel_next) (edges_of doc)
  /\ length (edges_of doc) = (length (blocks doc) - 1)%nat
  /\ forall n a b,
       blocks doc !! n = Some a -> blocks doc !! S n = Some b ->
       edges_of doc !! n = Some (next_edge (b_id a) (b_id b)).

(** The state of the chain: the edges link the blocks emitted so far, and
    the last of them is remembered. *)
Definition chained (st : Asm) : Prop :=
  all_edges st = chain (map b_id (all_blocks st))
  /\ prev_block_id st = last (map b_id (all_blocks st))
  /\ Forall (fun b => b_id b <> "") (all_blocks st).

Definition ids_nonempty (merged_blocks : list (Z * list BlockDict))
  (tables_by_page : list (Z * list TableDict)) : Prop :=
  (forall i bds bd, In (i, bds) merged_blocks -> In bd bds ->
                    bd_id bd <> Some "")
  /\ (forall i tds td, In (i, tds) tables_by_page -> In td tds ->
                       td_id td <> "").

(** A two-page sample: one text block per page and a table on page 2. *)
Definition sample_word : Word :=
  {| w_text := "Hello"; w_x0 := 72; w_y0 := 100; w_x1 := 120; w_y1 := 112;
     w_fontname := "Arial"; w_size := 12; w_color := "#000000" |}.

Definition sample_block (id : string) : BlockDict :=
  {| bd_id := Some id; bd_text := "Hello";
     bd_x0 := 72; bd_y0 := 100; bd_x1 := 120; bd_y1 := 112;
     bd_fontname := "Arial"; bd_size := 12; bd_color := "#000000";
     bd_lines := []; bd_words := [sample_word];
     bd_block_type := Some "paragraph"; bd_role := Some "paragraph";
     bd_reading_order := Some 0;
     bd_rhetoric := None; bd_rhetoric_features := None;
     bd_style_id := None |}.

Definition sample_table : TableDict :=
  {| td_id := "t1"; td_page := 2; td_rows := 1; td_cols := 1;
     td_bbox := Some {| bx0 := 72; by0 := 200; bx1 := 300; by1 := 260 |};
     td_cells :=
       [{| cd_row := 0; cd_col := 0; cd_row_span := 1; cd_col_span := 1;
           cd_text := "A";
           cd_bbox := {| bx0 := 72; by0 := 200; bx1 := 300; by1 := 260 |} |}];
     td_block_type := "table" |}.

Definition sample_pages : list PageData :=
  [{| pd_page_number := 1; pd_width := 612; pd_height := 792;
      pd_chars := [] |};
   {| pd_page_number := 2; pd_width := 612; pd_height := 792;
      pd_chars := [] |}].

Definition sample_merged : list (Z * list BlockDict) :=
  [(0, [sample_block "b1"]); (1, [sample_block "b2"])].

Definition sample_tables : list (Z * list TableDict) :=
  [(0, []); (1, [sample_table])].

Definition sample_rnd (k : nat) : N := N.of_nat k.

(** A stand-in for the digest in closed examples: the key itself. *)
Definition sample_digest (key : string) : string := key.

Definition sample_assembly : option (LayoutDocument * nat) :=
  assemble_document sample_rnd "doc" sample_pages sample_merged
    sample_tables ∅ src_pdf 0%nat.

(** ** Referential integrity *)

(** Every reference held by the accumulators resolves: style ids in
    [keys], block ids among the blocks emitted so far. *)
Definition refs_resolve (keys : gset string) (st : Asm) : Prop :=
  let ids := map b_id (all_blocks st) in
  Forall (fun b => forall sid, b_style_id b = Some sid -> sid ∈ keys)
    (all_blocks st)
  /\ Forall (fun s => (forall sid, sp_style_id s = Some sid -> sid ∈ keys)
                      /\ In (sp_block_id s) ids) (all_spans st)
  /\ Forall (fun t => In (tk_block_id t) ids) (all_tokens st)
  /\ Forall (fun e => In (from_id e) ids /\ In (to e) ids) (all_edges st)
  /\ forall p, prev_block_id st = Some p -> In p ids.

Definition style_keys (doc : LayoutDocument) : gset string :=
  dom (default ∅ (styles doc)).

(** C3 as a predicate on documents. *)
Definition referential_integrity (doc : LayoutDocument) : Prop :=
  let ids := map b_id (blocks doc) in
  (forall b sid, In b (blocks doc) -> b_style_id b = Some sid ->
                 sid ∈ style_keys doc)
  /\ (forall s sid, In s (default [] (spans doc)) ->
                    sp_style_id s = Some sid -> sid ∈ style_keys doc)
  /\ (forall e, In e (edges_of doc) -> In (from_id e) ids /\ In (to e) ids)
  /\ (forall s, In s (default [] (spans doc)) -> In (sp_block_id s) ids)
  /\ (forall t, In t (default [] (tokens doc)) -> In (tk_block_id t) ids).

Definition sample_normalized : option (LayoutDocument * nat) :=
  normalize_and_assemble sample_rnd sample_digest "doc" sample_pages
    sample_merged sample_tables src_pdf 0%nat.

(** ** Normalised bounding boxes *)

Definition unit_interval (x : Q) : Prop := (0 <= x /\ x <= 1)%Q.

Definition near (eps r x : Q) : Prop := (Qabs (r - x) <= eps)%Q.

(** C2's relation between a bbox on a page of size [w] by [h] and its
    normalised form: in the unit square, and the quotient within 1e-6. *)
Definition norm_claimed (w h : Q) (bbox : BBox) (norm : option BBox)
  : Prop :=
  exists r, norm = Some r
    /\ unit_interval (bx0 r) /\ unit_interval (by0 r)
    /\ unit_interval (bx1 r) /\ unit_interval (by1 r)
    /\ near (1 # 1000000) (bx0 r) (bx0 bbox / w)
    /\ near (1 # 1000000) (by0 r) (by0 bbox / h)
    /\ near (1 # 1000000) (bx1 r) (bx1 bbox / w)
    /\ near (1 # 1000000) (by1 r) (by1 bbox / h).

(** What the code gives: the quotient within 5e-7, and a component in
    the unit interval when the coordinate lies on the page. *)
Definition norm_rounded (w h : Q) (bbox : BBox) (norm : option BBox)
  : Prop :=
  exists r, norm = Some r
    /\ near (1 # 2000000) (bx0 r) (bx0 bbox / w)
    /\ near (1 # 2000000) (by0 r) (by0 bbox / h)
    /\ near (1 # 2000000) (bx1 r) (bx1 bbox / w)
    /\ near (1 # 2000000) (by1 r) (by1 bbox / h)
    /\ ((0 <= bx0 bbox /\ bx0 bbox <= w)%Q -> unit_interval (bx0 r))
    /\ ((0 <= by0 bbox /\ by0 bbox <= h)%Q -> unit_interval (by0 r))
    /\ ((0 <= bx1 bbox /\ bx1 bbox <= w)%Q -> unit_interval (bx1 r))
    /\ ((0 <= by1 bbox /\ by1 bbox <= h)%Q -> unit_interval (by1 r)).

Section NormAllSpec.
Variable R : Q -> Q -> BBox -> option BBox -> Prop.

Definition on_page (pgs : list Page) (n : Z) (bbox : BBox)
  (norm : option BBox) : Prop :=
  exists pg, In pg pgs /\ pg_page_number pg = n
             /\ R (pg_width pg) (pg_height pg) bbox norm.

Definition on_block_page (pgs : list Page) (bls : list Block)
  (block_id : string) (bbox : BBox) (norm : option BBox) : Prop :=
  exists b, In b bls /\ b_id b = block_id
            /\ on_page pgs (b_page b) bbox norm.

(** Every block, span, token and table cell satisfies [R] against the
    size of its page. *)
Definition norm_all (pgs : list Page) (bls : list Block) (sps : list Span)
  (tks : list Token) (tbs : list Table) : Prop :=
  Forall (fun b => on_page pgs (b_page b) (b_bbox b) (b_bbox_norm b)) bls
  /\ Forall (fun s => on_block_page pgs bls (sp_block_id s) (sp_bbox s)
                        (sp_bbox_norm s)) sps
  /\ Forall (fun t => on_block_page pgs bls (tk_block_id t) (tk_bbox t)
                        (tk_bbox_norm t)) tks
  /\ Forall (fun t => Forall (fun c => on_page pgs (t_page t) (tc_bbox c)
                                         (tc_bbox_norm c)) (t_cells t)) tbs.

Definition bbox_norm_all (doc : LayoutDocument) : Prop :=
  norm_all (pages doc) (blocks doc) (default [] (spans doc))
    (default [] (tokens doc)) (default [] (tables doc)).

Definition asm_norm (st : Asm) : Prop :=
  norm_all (a_pages st) (all_blocks st) (all_spans st) (all_tokens st)
    (all_tables st).

(** While page [pd] is assembled, it is among the pages. *)
Definition norm_within (pd : PageData) (st : Asm) : Prop :=
  asm_norm st
  /\ (0 < pd_width pd)%Q /\ (0 < pd_height pd)%Q
  /\ exists pg, In pg (a_pages st)
                /\ pg_page_number pg = pd_page_number pd
                /\ pg_width pg = pd_width pd /\ pg_height pg = pd_height pd.

End NormAllSpec.

(** A DOCX body with one paragraph whose synthetic bbox runs from y = 780
    to y = 820 on pages 792 pt high. *)
Definition straddling_walk : DocxWalk :=
  {| dw_blocks :=
       [{| bd_id := Some "p1"; bd_text := "Hello";
           bd_x0 := 72; bd_y0 := 780; bd_x1 := 540; bd_y1 := 820;
           bd_fontname := "Calibri"; bd_size := 11; bd_color := "#000000";
           bd_lines := [];
           bd_words :=
             [{| w_text := "Hello"; w_x0 := 72; w_y0 := 780;
                 w_x1 := 102; w_y1 := 820; w_fontname := "Calibri";
                 w_size := 11; w_color := "#000000" |}];
           bd_block_type := Some "paragraph"; bd_role := Some "paragraph";
           bd_reading_order := Some 0;
           bd_rhetoric := None; bd_rhetoric_features := None;
           bd_style_id := None |}];
     dw_tables := []; dw_page_w := 612; dw_page_h := 792 |}.

Definition straddling_run : option (LayoutDocument * nat) :=
  process_docx sample_rnd sample_digest (fun merged => merged)
    straddling_walk false 0%nat.

(** ** Reading order *)

(** The blocks emitted by the loop over a page's text blocks, started
    after [k] draws, and by the loop over its tables, started when [n]
    blocks have been emitted. *)
Fixpoint text_blocks_from (rnd : nat -> N) (k : nat) (pn : Z) (w h : Q)
  (l : list BlockDict) : list Block :=
  match l with
  | [] => []
  | bd :: l' =>
      text_block (emitted_id rnd k bd) pn w h bd
      :: text_blocks_from rnd (S k) pn w h l'
  end.

Fixpoint table_blocks_from (n : nat) (pn : Z) (w h : Q)
  (l : list TableDict) : list Block :=
  match l with
  | [] => []
  | td :: l' =>
      match td_bbox td with
      | Some bbox =>
          table_block (td_id td) pn w h bbox n
          :: table_blocks_from (S n) pn w h l'
      | None => table_blocks_from n pn w h l'
      end
  end.

(** The blocks of one page: its text blocks, then its table blocks. *)
Definition page_segment_ok (rnd : nat -> N)
  (merged_blocks : list (Z * list BlockDict))
  (tables_by_page : list (Z * list TableDict)) (n : nat) (pd : PageData)
  (seg : list Block * list Block) : Prop :=
  (exists k, fst seg
             = text_blocks_from rnd k (pd_page_number pd) (pd_width pd)
                 (pd_height pd) (page_blocks merged_blocks pd))
  /\ snd seg
     = table_blocks_from (n + length (fst seg)) (pd_page_number pd)
         (pd_width pd) (pd_height pd) (page_tables tables_by_page pd).

Definition seg_blocks (seg : list Block * list Block) : list Block :=
  fst seg ++ snd seg.

(** The blocks of the pages in turn, [n] blocks having been emitted
    before. *)
Fixpoint segments_ok (rnd : nat -> N)
  (merged_blocks : list (Z * list BlockDict))
  (tables_by_page : list (Z * list TableDict)) (n : nat)
  (pages_data : list PageData) (segs : list (list Block * list Block))
  : Prop :=
  match pages_data, segs with
  | [], [] => True
  | pd :: pds, seg :: segs' =>
      page_segment_ok rnd merged_blocks tables_by_page n pd seg
      /\ segments_ok rnd merged_blocks tables_by_page
           (n + length (seg_blocks seg)) pds segs'
  | _, _ => False
  end.

Definition counted_from (s : nat) (keys : list Z) : Prop :=
  keys = map Z.of_nat (seq s (length keys)).

(** A page as the heuristic classifier leaves it: reading orders
    0, 1, 2, ... in list order, and no block typed as a table. *)
Definition heuristic_page (bds : list BlockDict) : Prop :=
  counted_from 0 (map reading_order_key bds)
  /\ Forall (fun b => _safe_block_type
                        (default "paragraph" (bd_block_type b)) <> table)
       bds.

Definition blocks_on (doc : LayoutDocument) (n : Z) : list Block :=
  List.filter (fun b => b_page b =? n) (blocks doc).

(** The reading order on page [n] of a document: the page's blocks are
    one segment of the block list, text blocks first, numbered from 0 in
    emission order, then the synthetic table blocks; when no block
    precedes the segment, the table blocks continue the numbering. *)
Definition page_reading_order (doc : LayoutDocument) (n : Z) : Prop :=
  exists pre txt tbl post,
    blocks doc = pre ++ txt ++ tbl ++ post
    /\ blocks_on doc n = txt ++ tbl
    /\ Forall (fun b => b_type b <> table) txt
    /\ Forall (fun b => b_type b = table) tbl
    /\ counted_from 0 (map b_reading_order txt)
    /\ (pre = [] -> counted_from 0 (map b_reading_order (txt ++ tbl))).

(** C1 as a predicate on documents: on every page the reading orders are
    the set 0..n-1, and along the whole block list they grow by one. *)
Definition reading_order_per_page (doc : LayoutDocument) : Prop :=
  forall pg, In pg (pages doc) ->
    forall r, In r (map b_reading_order (blocks_on doc (pg_page_number pg)))
              <-> 0 <= r < Z.of_nat (length (blocks_on doc
                                               (pg_page_number pg))).

Definition reading_order_across (doc : LayoutDocument) : Prop :=
  forall n a b, blocks doc !! n = Some a -> blocks doc !! S n = Some b ->
                b_reading_order b = b_reading_order a + 1.

Definition glyph_H : Char :=
  {| c_text := "H"; c_x0 := 72; c_y0 := 100; c_x1 := 80; c_y1 := 112;
     c_fontname := "Arial"; c_size := 12; c_color := "#000000" |}.

(** Two pages with the letter H; page 2 also has a one-cell table below
    the text. *)
Definition two_page_pdf : list PdfPage :=
  [{| pp_width := 612; pp_height := 792; pp_chars := [glyph_H];
      pp_tables := [] |};
   {| pp_width := 612; pp_height := 792; pp_chars := [glyph_H];
      pp_tables :=
        [{| dt_bbox := {| bx0 := 72; by0 := 200; bx1 := 300; by1 := 260 |};
            dt_data := [[Some "A"]] |}] |}].

Definition two_page_run : option (LayoutDocument * nat) :=
  process_pdf sample_rnd sample_digest matcher_ratio (fun _ => None)
    two_page_pdf false None 0%nat.

(** ** Determinism up to identifiers *)

(** Blanking every identifier drawn from [uuid4], and every reference to
    one. *)
Definition erase_block (b : Block) : Block :=
  {| b_id := ""; b_type := b_type b; b_role := b_role b; b_page := b_page b;
     b_bbox := b_bbox b; b_bbox_norm := b_bbox_norm b;
     b_reading_order := b_reading_order b; b_z_index := b_z_index b;
     b_parent := b_parent b; b_children := b_children b;
     b_text := b_text b; b_style_id := b_style_id b; b_html := b_html b;
     b_html_template := b_html_template b; b_rhetoric := b_rhetoric b;
     b_rhetoric_features := b_rhetoric_features b |}.

Definition erase_span (s : Span) : Span :=
  {| sp_id := ""; sp_block_id := ""; sp_text := sp_text s;
     sp_bbox := sp_bbox s; sp_bbox_norm := sp_bbox_norm s;
     sp_style_id := sp_style_id s |}.

Definition erase_token (t : Token) : Token :=
  {| tk_text := tk_text t; tk_bbox := tk_bbox t;
     tk_bbox_norm := tk_bbox_norm t; tk_block_id := "";
     tk_span_id := (fun _ => "") <$> tk_span_id t |}.

Definition erase_table (t : Table) : Table :=
  {| t_id := ""; t_page := t_page t; t_rows := t_rows t;
     t_cols := t_cols t; t_bbox := t_bbox t; t_cells := t_cells t |}.

Definition erase_edge (e : Edge) : Edge :=
  {| from_id := ""; to := ""; relation := relation e |}.

Definition erase_ids (doc : LayoutDocument) : LayoutDocument :=
  {| document :=
       {| document_id := "";
          schema_version := schema_version (document doc);
          source := source (document doc);
          page_count := page_count (document doc) |};
     pages := pages doc;
     blocks := map erase_block (blocks doc);
     spans := map erase_span <$> spans doc;
     tokens := map erase_token <$> tokens doc;
     tables := map erase_table <$> tables doc;
     styles := styles doc;
     reading_graph := map erase_edge <$> reading_graph doc |}.

(** Two outcomes of a computation related by [R]: both raise, or both
    return related values. *)
Definition outcome_rel {A B} (R : A -> B -> Prop)
  (o1 : option (A * nat)) (o2 : option (B * nat)) : Prop :=
  match o1, o2 with
  | Some (a, _), Some (b, _) => R a b
  | None, None => True
  | _, _ => False
  end.

Definition run_rel {A B} (R : A -> B -> Prop) (m1 : Run A) (m2 : Run B)
  : Prop :=
  forall k1 k2, outcome_rel R (m1 k1) (m2 k2).

(** Block and table dicts that differ in their identifier only, both
    identifiers being non-empty. *)
Definition with_id (b : BlockDict) (id : option string) : BlockDict :=
  {| bd_id := id; bd_text := bd_text b;
     bd_x0 := bd_x0 b; bd_y0 := bd_y0 b; bd_x1 := bd_x1 b; bd_y1 := bd_y1 b;
     bd_fontname := bd_fontname b; bd_size := bd_size b;
     bd_color := bd_color b; bd_lines := bd_lines b; bd_words := bd_words b;
     bd_block_type := bd_block_type b; bd_role := bd_role b;
     bd_reading_order := bd_reading_order b;
     bd_rhetoric := bd_rhetoric b;
     bd_rhetoric_features := bd_rhetoric_features b;
     bd_style_id := bd_style_id b |}.

Definition same_bd (b1 b2 : BlockDict) : Prop :=
  exists i1 i2, i1 <> "" /\ i2 <> ""
                /\ bd_id b1 = Some i1 /\ b2 = with_id b1 (Some i2).

Definition with_td_id (t : TableDict) (id : string) : TableDict :=
  {| td_id := id; td_page := td_page t; td_rows := td_rows t;
     td_cols := td_cols t; td_bbox := td_bbox t; td_cells := td_cells t;
     td_block_type := td_block_type t |}.

Definition same_td (t1 t2 : TableDict) : Prop :=
  exists i2, td_id t1 <> "" /\ i2 <> "" /\ t2 = with_td_id t1 i2.

Definition prev_truthy (st : Asm) : bool :=
  match prev_block_id st with
  | Some p => Py.truthy p
  | None => false
  end.

Definition same_asm (st1 st2 : Asm) : Prop :=
  a_pages st1 = a_pages st2
  /\ map erase_block (all_blocks st1) = map erase_block (all_blocks st2)
  /\ map erase_span (all_spans st1) = map erase_span (all_spans st2)
  /\ map erase_token (all_tokens st1) = map erase_token (all_tokens st2)
  /\ map erase_table (all_tables st1) = map erase_table (all_tables st2)
  /\ map erase_edge (all_edges st1) = map erase_edge (all_edges st2)
  /\ prev_truthy st1 = prev_truthy st2.

(** Dictionaries with the same keys and related values. *)
Definition same_dict {A} (R : A -> A -> Prop) (d1 d2 : list (Z * list A))
  : Prop :=
  Forall2 (fun e1 e2 => fst e1 = fst e2 /\ Forall2 R (snd e1) (snd e2))
    d1 d2.

Definition same_geometry
  (r1 r2 : Z * list BlockDict * list TableDict) : Prop :=
  fst (fst r1) = fst (fst r2)
  /\ Forall2 same_bd (snd (fst r1)) (snd (fst r2))
  /\ Forall2 same_td (snd r1) (snd r2).

(** A step on block dicts that neither reads nor writes the id. *)
Definition id_blind (f : BlockDict -> BlockDict) : Prop :=
  forall b i, f (with_id b i) = with_id (f b) i /\ bd_id (f b) = bd_id b.

(** A second supply of random bits, as the operating system hands a
    second process. *)
Definition other_rnd (k : nat) : N := N.of_nat (k + 100).

(** ** Bounding boxes of the geometry layer *)

Definition char_bbox (c : Char) : BBox :=
  {| bx0 := c_x0 c; by0 := c_y0 c; bx1 := c_x1 c; by1 := c_y1 c |}.

Definition word_bbox (w : Word) : BBox :=
  {| bx0 := w_x0 w; by0 := w_y0 w; bx1 := w_x1 w; by1 := w_y1 w |}.

Definition line_bbox (ln : Line) : BBox :=
  {| bx0 := ln_x0 ln; by0 := ln_y0 ln; bx1 := ln_x1 ln; by1 := ln_y1 ln |}.

(** [outer] contains [inner]. *)
Definition encloses (outer inner : BBox) : Prop :=
  (bx0 outer <= bx0 inner /\ by0 outer <= by0 inner
   /\ bx1 inner <= bx1 outer /\ by1 inner <= by1 outer)%Q.

(** [outer] is the bounding box of the boxes [inner]: it contains each of
    them and each of its edges is an edge of one of them. *)
Definition bounding_box (outer : BBox) (inner : list BBox) : Prop :=
  Forall (encloses outer) inner
  /\ (exists b, In b inner /\ bx0 outer = bx0 b)
  /\ (exists b, In b inner /\ by0 outer = by0 b)
  /\ (exists b, In b inner /\ bx1 outer = bx1 b)
  /\ (exists b, In b inner /\ by1 outer = by1 b).

(** A list in non-decreasing order of a float key. *)
Definition ascending {A} (key : A -> Q) (l : list A) : Prop :=
  StronglySorted (fun a b => (key a <= key b)%Q) l.

(** The word built from the single glyph [glyph_H]. *)
Definition sample_word_H : Word :=
  {| w_text := "H"; w_x0 := 72; w_y0 := 100; w_x1 := 80; w_y1 := 112;
     w_fontname := "Arial"; w_size := 12; w_color := "#000000" |}.

(** A well-formed line: it has words, in ascending order of [x0], its
    text is theirs joined by spaces, and its box is their bounding
    box. *)
Definition line_ok (ln : Line) : Prop :=
  ln_words ln <> []
  /\ ascending w_x0 (ln_words ln)
  /\ ln_text ln = Py.join " " (map w_text (ln_words ln))
  /\ bounding_box (line_bbox ln) (map word_bbox (ln_words ln)).


(** A block as [_merge_lines] leaves it: it has lines, its text is
    theirs joined by newlines, its words are theirs in order, its box is
    their bounding box, and it is not classified or styled yet. *)
Definition block_built (b : BlockDict) : Prop :=
  bd_lines b <> []
  /\ bd_text b = Py.join (String (ascii_of_N 10) "") (map ln_text (bd_lines b))
  /\ bd_words b = concat (map ln_words (bd_lines b))
  /\ bounding_box (block_bbox b) (map line_bbox (bd_lines b))
  /\ bd_block_type b = None /\ bd_role b = None
  /\ bd_reading_order b = None /\ bd_style_id b = None.

(** The identifiers drawn from position [k] on. *)
Definition drawn (rnd : nat -> N) (k n : nat) : list string :=
  map (fun i => str_uuid (uuid4_int (rnd i))) (seq k n).

(** ** Tables as extracted *)

(** A table dict whose cells are indexed within its [rows] by [cols]
    grid, each spanning one row and one column. *)
Definition grid_ok (t : TableDict) : Prop :=
  1 <= td_rows t
  /\ Forall (fun c => 0 <= cd_row c < td_rows t
                      /\ 0 <= cd_col c < td_cols t
                      /\ cd_row_span c = 1 /\ cd_col_span c = 1
                      /\ cd_bbox c
                         = match td_bbox t with
                           | Some bbox =>
                               _approx_cell_bbox bbox (td_rows t) (td_cols t)
                                 (cd_row c) (cd_col c)
                           | None => cd_bbox c
                           end)
       (td_cells t).

(** The detected tables that [extract_tables] keeps. *)
Definition with_data (detected : list Detected) : list Detected :=
  List.filter (fun d => match dt_data d with [] => false | _ => true end)
    detected.

(** ** What classification leaves alone *)

(** [b'] differs from [b] at most in block_type, role, reading_order,
    rhetoric and rhetoric_features. *)
Definition same_content (b b' : BlockDict) : Prop :=
  bd_id b' = bd_id b /\ bd_text b' = bd_text b
  /\ block_bbox b' = block_bbox b
  /\ bd_fontname b' = bd_fontname b /\ bd_size b' = bd_size b
  /\ bd_color b' = bd_color b /\ bd_lines b' = bd_lines b
  /\ bd_words b' = bd_words b /\ bd_style_id b' = bd_style_id b.

Definition classified (b : BlockDict) : Prop :=
  is_Some (bd_block_type b) /\ is_Some (bd_role b)
  /\ is_Some (bd_reading_order b).

(** A tag addressed to the block at index 1. *)
Definition tag_at_1 : Tag :=
  {| tag_block_index := Some 1; tag_block_type := Some "heading";
     tag_role := Some "title"; tag_reading_order := None;
     tag_text := Some "zzzz"; tag_rhetoric := None;
     tag_rhetoric_features := None |}.

(** ** Spans, tokens and tables of a document *)

(** Every span is the span of a block, named after it and carrying its
    text, boxes and style; every token points to the span of its own
    block. *)
Definition span_links (bls : list Block) (sps : list Span)
  (tks : list Token) : Prop :=
  Forall (fun s =>
            sp_id s = "s-" +:+ sp_block_id s
            /\ exists b, In b bls /\ b_id b = sp_block_id s
                         /\ b_text b = Some (sp_text s)
                         /\ b_bbox b = sp_bbox s
                         /\ b_bbox_norm b = sp_bbox_norm s
                         /\ b_style_id b = sp_style_id s) sps
  /\ Forall (fun t =>
               exists s, In s sps /\ tk_span_id t = Some (sp_id s)
                         /\ sp_block_id s = tk_block_id t) tks.

Definition has_bbox (t : Table) : bool :=
  match t_bbox t with Some _ => true | None => false end.

(** Every table with a bbox has its synthetic block, and the blocks are
    as many as the spans and these tables together. *)
Definition table_links (bls : list Block) (sps : list Span)
  (tbs : list Table) : Prop :=
  Forall (fun t =>
            forall bbox, t_bbox t = Some bbox ->
              exists b, In b bls /\ b_id b = t_id t /\ b_type b = table
                        /\ b_role b = Some r_table
                        /\ b_page b = t_page t /\ b_bbox b = bbox
                        /\ b_text b = Some "[TABLE]") tbs
  /\ length bls = (length sps + length (List.filter has_bbox tbs))%nat.

(** ** Page selection *)

(** The page model built from a page dict. *)
Definition page_of (pd : PageData) : Page :=
  {| pg_page_number := pd_page_number pd; pg_width := pd_width pd;
     pg_height := pd_height pd; pg_rotation := 0; pg_unit := pt |}.

(** Whether page [p] of a [total]-page file is processed. *)
Definition selected (page_range : option string) (total p : Z) : bool :=
  match page_range with
  | Some r =>
      if Py.truthy r then bool_decide (p ∈ _parse_page_range r total)
      else true
  | None => true
  end.

(** [max(len(row) for row in data)] *)
Definition longest_row {A} (data : list (list A)) : Z :=
  fold_left Z.max (map (fun row => Z.of_nat (length row)) data) 0.

(** ** When the pipeline returns *)

(** What the schema demands of a table dict. *)
Definition table_valid (t : TableDict) : Prop :=
  1 <= td_rows t /\ 1 <= td_cols t
  /\ Forall (fun c => 0 <= cd_row c /\ 0 <= cd_col c
                      /\ 1 <= cd_row_span c /\ 1 <= cd_col_span c)
       (td_cells t).

(** A page of a PDF that the pipeline can process: positive size, and
    every detected table that has data has a cell. *)
Definition page_ok (p : PdfPage) : Prop :=
  (0 < pp_width p)%Q /\ (0 < pp_height p)%Q
  /\ Forall (fun d => dt_data d = [] \/ 1 <= longest_row (dt_data d))
       (pp_tables p).

(** A page of width 0. *)
Definition flat_page : PdfPage :=
  {| pp_width := 0; pp_height := 792; pp_chars := []; pp_tables := [] |}.

(** ** Pagination of a DOCX *)

(** The index of the page whose span contains the top edge of a
    block. *)
Definition page_index (page_h : Q) (b : BlockDict) : Z :=
  Qfloor (bd_y0 b / page_h).

Definition docx_page (page_w page_h : Q) (page_num : Z) : PageData :=
  {| pd_page_number := page_num; pd_width := page_w; pd_height := page_h;
     pd_chars := [] |}.

(** A subset tag as PDF producers write it before [+]: no hyphen, comma
    or plus sign. *)
Definition plain_tag (tag : string) : bool :=
  Py.forallb_str
    (fun c => negb (Ascii.eqb c "-") && negb (Ascii.eqb c ",")
              && negb (Ascii.eqb c "+"))%char tag.

(** * Properties *)

(** ** Facts about the runtime *)

Lemma ltb_spec (x y : Q) : Py.ltb x y = true <-> (x < y)%Q.
Proof.
  unfold Py.ltb. rewrite negb_true_iff. split.
  - intros H. apply Qnot_le_lt. intros Hle.
    apply Qle_bool_iff in Hle. congruence.
  - intros H. destruct (Qle_bool y x) eqn:E; [|reflexivity].
    apply Qle_bool_iff in E. exfalso. exact (Qlt_not_le _ _ H E).
Qed.

Lemma ltb_false (x y : Q) : Py.ltb x y = false <-> (y <= x)%Q.
Proof.
  unfold Py.ltb. rewrite negb_false_iff. apply Qle_bool_iff.
Qed.

Lemma leb_spec (x y : Q) : Py.leb x y = true <-> (x <= y)%Q.
Proof. apply Qle_bool_iff. Qed.

Lemma leb_false (x y : Q) : Py.leb x y = false <-> (y < x)%Q.
Proof.
  unfold Py.leb. split.
  - intros H. apply Qnot_le_lt. intros Hle.
    apply Qle_bool_iff in Hle. congruence.
  - intros H. destruct (Qle_bool x y) eqn:E; [|reflexivity].
    apply Qle_bool_iff in E. exfalso. exact (Qlt_not_le _ _ H E).
Qed.

Lemma sorted_insert_perm {A} (lt : A -> A -> bool) (x : A) (l : list A) :
  Permutation (Py.insert lt x l) (x :: l).
Proof.
  induction l as [|y l IH]; simpl; [reflexivity|].
  destruct (lt y x); [|reflexivity].
  rewrite IH. apply perm_swap.
Qed.

Lemma sorted_perm {A} (lt : A -> A -> bool) (l : list A) :
  Permutation (Py.sorted lt l) l.
Proof.
  induction l as [|x l IH]; simpl; [reflexivity|].
  rewrite sorted_insert_perm. now apply perm_skip.
Qed.

Lemma append_empty_r (s : string) : s +:+ "" = s.
Proof.
  induction s as [|c s IH]; [reflexivity|].
  change (String c (s +:+ "") = String c s). now rewrite IH.
Qed.

Lemma append_assoc (a b c : string) : (a +:+ b) +:+ c = a +:+ (b +:+ c).
Proof.
  induction a as [|x a IH]; [reflexivity|].
  change (String x ((a +:+ b) +:+ c) = String x (a +:+ (b +:+ c))).
  now rewrite IH.
Qed.

Lemma join_empty_cons (x : string) (xs : list string) :
  Py.join "" (x :: xs) = x +:+ Py.join "" xs.
Proof.
  unfold Py.join. destruct xs as [|y ys]; simpl.
  - now rewrite append_empty_r.
  - reflexivity.
Qed.

Lemma join_empty_app (l1 l2 : list string) :
  Py.join "" (l1 ++ l2) = Py.join "" l1 +:+ Py.join "" l2.
Proof.
  induction l1 as [|x l1 IH].
  - reflexivity.
  - rewrite <- app_comm_cons, !join_empty_cons, IH.
    now rewrite append_assoc.
Qed.

(** ** Word builder *)

Lemma merge_chars_total (chars : list Char) :
  chars <> [] -> exists w, _merge_chars chars = Some w
                           /\ w_text w = Py.join "" (map c_text chars).
Proof.
  destruct chars as [|c cs]; [congruence|]. intros _.
  eexists. split; [reflexivity|reflexivity].
Qed.

Lemma merged_from_snoc groups words g w :
  merged_from groups words -> g <> [] -> _merge_chars g = Some w ->
  merged_from (groups ++ [g]) (words ++ [w]).
Proof.
  intros H Hg Hw. apply Forall2_app; [exact H|].
  constructor; [split; assumption|constructor].
Qed.

Lemma words_loop_spec (cs : list Char) :
  forall words current groups,
    current <> [] -> merged_from groups words ->
    exists words' groups',
      words_loop cs words current = Some words'
      /\ merged_from groups' words'
      /\ concat groups' = concat groups ++ current ++ cs.
Proof.
  induction cs as [|c cs IH]; intros words current groups Hne Hm.
  - destruct (merge_chars_total current Hne) as (w & Hw & _).
    exists (words ++ [w]), (groups ++ [current]). split; [|split].
    + simpl. destruct current; [congruence|]. now rewrite Hw.
    + now apply merged_from_snoc.
    + rewrite concat_app. simpl. now rewrite !app_nil_r.
  - simpl. destruct (last current) as [prev|] eqn:Hlast.
    2:{ apply last_None in Hlast. congruence. }
    simpl. destruct (same_line prev c && within_gap prev c).
    + destruct (IH words (current ++ [c]) groups) as (w' & g' & H1 & H2 & H3);
        [now destruct current|exact Hm|].
      exists w', g'. split; [exact H1|split; [exact H2|]].
      rewrite H3. now rewrite <- !app_assoc.
    + destruct (merge_chars_total current Hne) as (w & Hw & _).
      rewrite Hw. simpl.
      destruct (IH (words ++ [w]) [c] (groups ++ [current]))
        as (w' & g' & H1 & H2 & H3);
        [congruence|now apply merged_from_snoc|].
      exists w', g'. split; [exact H1|split; [exact H2|]].
      rewrite H3, concat_app. simpl. now rewrite app_nil_r, <- app_assoc.
Qed.

Lemma merged_from_text groups words :
  merged_from groups words ->
  Py.join "" (map w_text words) = Py.join "" (map c_text (concat groups)).
Proof.
  induction 1 as [|g w gs ws [Hne Hw] _ IH]; [reflexivity|].
  destruct (merge_chars_total g Hne) as (w' & Hw' & Ht).
  assert (w' = w) by congruence. subst w'.
  change (concat (g :: gs)) with (g ++ concat gs).
  rewrite map_cons, join_empty_cons, map_app, join_empty_app, IH, Ht.
  reflexivity.
Qed.

(** C10. For every list of chars [build_words] returns, and its words
    partition the chars: the words are the merges of consecutive
    non-empty runs of the chars sorted by (round(y0,1), x0), the runs
    together are a permutation of the input (no char dropped or
    duplicated), and the words' texts concatenated are the sorted chars'
    texts concatenated. *)
Theorem build_words_partitions (chars : list Char) :
  exists (words : list Word) (groups : list (list Char)),
    build_words chars = Some words
    /\ merged_from groups words
    /\ concat groups = sorted_chars chars
    /\ Permutation (concat groups) chars
    /\ Py.join "" (map w_text words)
       = Py.join "" (map c_text (sorted_chars chars)).
Proof.
  unfold build_words.
  destruct (sorted_chars chars) as [|c0 rest] eqn:Hs.
  - exists [], []. repeat split; try constructor.
    simpl. rewrite <- Hs. unfold sorted_chars. apply sorted_perm.
  - destruct (words_loop_spec rest [] [c0] []) as (ws & gs & H1 & H2 & H3);
      [congruence|constructor|].
    simpl in H3. exists ws, gs. split; [exact H1|].
    split; [exact H2|]. split; [exact H3|]. split.
    + rewrite H3, <- Hs. unfold sorted_chars. apply sorted_perm.
    + rewrite (merged_from_text _ _ H2), H3. reflexivity.
Qed.

(** ** Table de-duplication *)

Lemma overlaps_loop_spec thr b tables bbs :
  map td_bbox tables = map Some bbs ->
  overlaps_loop thr b tables = Some (existsb (overlaps_table thr b) bbs).
Proof.
  revert bbs. induction tables as [|t ts IH]; intros [|T bbs] H;
    simpl in H; try discriminate; [reflexivity|].
  injection H as Ht Hts. simpl. rewrite Ht. simpl.
  unfold overlaps_table at 1.
  destruct (Py.ltb thr (inter_area b T / block_area b)); [reflexivity|].
  now apply IH.
Qed.

Lemma dedup_loop_spec thr tables bbs :
  map td_bbox tables = map Some bbs ->
  forall blocks clean,
    dedup_loop thr blocks tables clean
    = Some (clean ++ List.filter (fun b => negb (existsb (overlaps_table thr b)
                                              bbs)) blocks).
Proof.
  intros H bl. induction bl as [|b rest IH]; intros clean; simpl.
  - now rewrite app_nil_r.
  - rewrite (overlaps_loop_spec _ _ _ _ H). simpl. rewrite IH.
    destruct (existsb (overlaps_table thr b) bbs); simpl; [reflexivity|].
    now rewrite <- app_assoc.
Qed.

Lemma max_l (a b : Q) : (b <= a)%Q -> Py.max a b = a.
Proof.
  intros H. unfold Py.max. destruct (Py.ltb a b) eqn:E; [|reflexivity].
  apply ltb_spec in E. exfalso. exact (Qlt_not_le _ _ E H).
Qed.

Lemma max_cases (a b : Q) :
  (Py.max a b = a /\ (b <= a)%Q) \/ (Py.max a b = b /\ (a < b)%Q).
Proof.
  unfold Py.max. destruct (Py.ltb a b) eqn:E.
  - right. split; [reflexivity|now apply ltb_spec].
  - left. split; [reflexivity|now apply ltb_false].
Qed.

Lemma min_cases (a b : Q) :
  (Py.min a b = a /\ (a <= b)%Q) \/ (Py.min a b = b /\ (b < a)%Q).
Proof.
  unfold Py.min. destruct (Py.ltb b a) eqn:E.
  - right. split; [reflexivity|now apply ltb_spec].
  - left. split; [reflexivity|now apply ltb_false].
Qed.

Lemma inter_area_within (b : BlockDict) (T : BBox) :
  within_table b T -> (inter_area b T == true_area b)%Q.
Proof.
  intros (H1 & H2 & H3 & H4 & H5 & H6). unfold inter_area, true_area.
  destruct (max_cases (bd_x0 b) (bx0 T)) as [[-> _]|[-> Ha]];
    [|exfalso; lra].
  destruct (max_cases (bd_y0 b) (by0 T)) as [[-> _]|[-> Hb]];
    [|exfalso; lra].
  destruct (min_cases (bd_x1 b) (bx1 T)) as [[-> _]|[-> Hc]];
    [|exfalso; lra].
  destruct (min_cases (bd_y1 b) (by1 T)) as [[-> _]|[-> Hd]];
    [|exfalso; lra].
  destruct (max_cases 0 (bd_x1 b - bd_x0 b)) as [[-> Hx]|[-> Hx]];
    destruct (max_cases 0 (bd_y1 b - bd_y0 b)) as [[-> Hy]|[-> Hy]];
    try reflexivity.
  - assert (bd_x1 b - bd_x0 b == 0)%Q as -> by lra. ring.
  - assert (bd_x1 b - bd_x0 b == 0)%Q as -> by lra. ring.
  - assert (bd_y1 b - bd_y0 b == 0)%Q as -> by lra. ring.
Qed.

Lemma within_overlaps (b : BlockDict) (T : BBox) :
  within_table b T -> (1 # 200 < true_area b)%Q ->
  overlaps_table (5 # 10) b T = true.
Proof.
  intros Hin Ha. unfold overlaps_table. apply ltb_spec.
  pose proof (inter_area_within b T Hin) as Hi.
  assert (0 < block_area b)%Q as Hpos.
  { unfold block_area. fold (true_area b).
    destruct (max_cases (true_area b) (1 # 100)) as [[-> _]|[-> _]]; lra. }
  apply Qlt_shift_div_l; [exact Hpos|].
  rewrite Hi. unfold block_area. fold (true_area b).
  destruct (max_cases (true_area b) (1 # 100)) as [[-> _]|[-> _]]; lra.
Qed.

(** C5, as stated, fails: a block of positive area lying within a table,
    whose intersection over its own area is 1, is kept. *)
Lemma dedup_keeps_tiny_block :
  within_table tiny_block big_table_bbox
  /\ (0 < true_area tiny_block)%Q
  /\ (1 # 2 < inter_area tiny_block big_table_bbox
              / true_area tiny_block)%Q
  /\ deduplicate_blocks_from_tables [tiny_block] [big_table]
       default_overlap_threshold = Some [tiny_block].
Proof.
  split; [|split; [|split]].
  - unfold within_table. simpl. repeat split; vm_compute; discriminate.
  - vm_compute. reflexivity.
  - vm_compute. reflexivity.
  - vm_compute. reflexivity.
Qed.

(** C5, amended.  When every table carries a bbox, the step returns
    exactly the blocks for which no table has intersection area divided
    by [max(block area, 0.01)] above 0.5, in their order; in particular
    a block of area above 0.005 lying entirely within a table bbox is
    absent from the result. *)
Theorem dedup_removes_overlapping (blocks : list BlockDict)
  (tables_ : list TableDict) (bbs : list BBox) :
  map td_bbox tables_ = map Some bbs ->
  exists clean,
    deduplicate_blocks_from_tables blocks tables_ default_overlap_threshold
    = Some clean
    /\ clean = List.filter (fun b => negb (existsb (overlaps_table (5 # 10) b)
                                        bbs)) blocks
    /\ forall b T, In T bbs -> within_table b T ->
                   (1 # 200 < true_area b)%Q -> ~ In b clean.
Proof.
  intros H. eexists. split; [|split; [reflexivity|]].
  - unfold deduplicate_blocks_from_tables, default_overlap_threshold.
    destruct tables_ as [|t ts].
    + destruct bbs; [|discriminate]. simpl.
      f_equal. induction blocks as [|b bl IH]; [reflexivity|].
      simpl. now rewrite <- IH.
    + now rewrite (dedup_loop_spec _ _ _ H).
  - intros b T HT Hin Ha Hb. apply filter_In in Hb as [_ Hb].
    apply negb_true_iff in Hb.
    assert (existsb (overlaps_table (5 # 10) b) bbs = true); [|congruence].
    apply existsb_exists. exists T. split; [exact HT|].
    now apply within_overlaps.
Qed.

Lemma dedup_removes_overlapping_witness :
  exists clean,
    deduplicate_blocks_from_tables [tiny_block] [big_table]
      default_overlap_threshold = Some clean
    /\ clean = List.filter (fun b => negb (existsb (overlaps_table (5 # 10) b)
                                        [big_table_bbox])) [tiny_block]
    /\ forall b T, In T [big_table_bbox] -> within_table b T ->
                   (1 # 200 < true_area b)%Q -> ~ In b clean.
Proof.
  apply (dedup_removes_overlapping [tiny_block] [big_table]
           [big_table_bbox]).
  reflexivity.
Defined.

(** ** Page ranges *)

Lemma in_range (a b p : Z) : In p (range a b) <-> a <= p < b.
Proof.
  unfold range. rewrite in_map_iff. split.
  - intros (i & <- & Hi). apply in_seq in Hi. lia.
  - intros H. exists (Z.to_nat (p - a)). split; [lia|].
    apply in_seq. lia.
Qed.

Lemma elem_of_add_in_range (total : Z) (ps : list Z) :
  forall (result : gset Z) (p : Z),
    p ∈ add_in_range total ps result
    <-> p ∈ result \/ (In p ps /\ 1 <= p <= total).
Proof.
  unfold add_in_range.
  induction ps as [|q ps IH]; intros result p; simpl.
  - tauto.
  - rewrite IH.
    destruct ((1 <=? q) && (q <=? total)) eqn:E.
    + apply andb_true_iff in E as [E1 E2].
      apply Z.leb_le in E1, E2. rewrite elem_of_union, elem_of_singleton.
      split; [intros [[->|H]|H]|intros [H|[[->|H] H']]]; tauto || eauto.
    + split; [tauto|]. intros [H|[[->|H] H']]; try tauto.
      exfalso. apply andb_false_iff in E as [E|E];
        apply Z.leb_gt in E; lia.
Qed.

Lemma elem_of_parse_part (total : Z) (result : gset Z) (part : string)
  (p : Z) :
  p ∈ parse_part total result part
  <-> p ∈ result \/ part_selects total part p.
Proof.
  unfold parse_part, part_selects.
  destruct (Py.contains "-" (Py.strip part)).
  - destruct (Py.split_first "-" (Py.strip part)) as [[sa sb]|].
    + destruct (py_int sa) as [a|] eqn:Ea, (py_int sb) as [b|] eqn:Eb.
      * rewrite elem_of_add_in_range, in_range. split.
        -- intros [H|[H1 H2]]; [tauto|]. right. split; [exact H2|].
           exists sa, sb, a, b. repeat split; auto; lia.
        -- intros [H|[H1 (sa' & sb' & a' & b' & E & E1 & E2 & H2)]];
             [tauto|].
           injection E as <- <-. right. split; [|exact H1].
           assert (a' = a) by congruence. assert (b' = b) by congruence.
           lia.
      * split; [tauto|].
        intros [H|[_ (sa' & sb' & a' & b' & E & E1 & E2 & _)]]; [exact H|].
        injection E as <- <-. congruence.
      * split; [tauto|].
        intros [H|[_ (sa' & sb' & a' & b' & E & E1 & E2 & _)]]; [exact H|].
        injection E as <- <-. congruence.
      * split; [tauto|].
        intros [H|[_ (sa' & sb' & a' & b' & E & E1 & E2 & _)]]; [exact H|].
        injection E as <- <-. congruence.
    + split; [tauto|].
      intros [H|[_ (sa' & sb' & a' & b' & E & _)]]; [exact H|discriminate].
  - destruct (py_int (Py.strip part)) as [q|].
    + rewrite elem_of_add_in_range. simpl. split.
      * intros [H|[[->|[]] H]]; [tauto|]. right. split; [exact H|reflexivity].
      * intros [H|[H E]]; [tauto|]. injection E as ->. right. tauto.
    + split; [tauto|]. intros [H|[_ E]]; [exact H|discriminate].
Qed.

Lemma elem_of_parse_parts (total : Z) (parts : list string) :
  forall (result : gset Z) (p : Z),
    p ∈ fold_left (parse_part total) parts result
    <-> p ∈ result \/ exists part, In part parts
                                   /\ part_selects total part p.
Proof.
  induction parts as [|part parts IH]; intros result p; simpl.
  - split; [tauto|]. intros [H|(part & [] & _)]. exact H.
  - rewrite IH, elem_of_parse_part. split.
    + intros [[H|H]|(q & H1 & H2)]; eauto.
    + intros [H|(q & [->|H1] & H2)]; eauto.
Qed.

(** C9. ["1,3-5,10"] on a 12-page document selects exactly the pages
    1, 3, 4, 5 and 10; and whenever no part of the range string denotes a
    page of the document, every page from 1 to [total] is selected. *)
Theorem parse_page_range_spec :
  _parse_page_range "1,3-5,10" 12 = {[ 1; 3; 4; 5; 10 ]}
  /\ forall (page_range : string) (total : Z),
       (forall part p, In part (Py.split_char "," page_range) ->
                       ~ part_selects total part p) ->
       forall p, p ∈ _parse_page_range page_range total <-> 1 <= p <= total.
Proof.
  split; [vm_compute; reflexivity|].
  intros page_range total Hnone p. unfold _parse_page_range.
  destruct (decide (fold_left (parse_part total)
                      (Py.split_char "," page_range) ∅ = ∅)) as [E|E].
  - rewrite elem_of_list_to_set, list_elem_of_In, in_range. lia.
  - exfalso. apply E. apply set_eq. intros q.
    rewrite elem_of_parse_parts. split; [|set_solver].
    intros [H|(part & H1 & H2)]; [exact H|].
    exfalso. exact (Hnone part q H1 H2).
Qed.

Lemma parse_page_range_spec_witness : 2 ∈ _parse_page_range "abc" 3.
Proof.
  apply (proj2 parse_page_range_spec "abc" 3); [|lia].
  intros part p [<-|[]] [_ H]. vm_compute in H. discriminate.
Defined.

(** ** Block matcher *)

Section FuzzyPass.
Variable ratio : string -> string -> Q.

Lemma truthy_false (s : string) : Py.truthy s = false <-> s = "".
Proof. destruct s; simpl; split; congruence. Qed.

Lemma best_loop_spec (block : BlockDict) (tags_ : list Tag) :
  forall s0 b0 s b,
    best_loop ratio (bd_text block) tags_ s0 b0 = (s, b) ->
    (s0 <= s)%Q
    /\ (forall t, In t tags_ -> has_text t -> (score ratio block t <= s)%Q)
    /\ ((s = s0 /\ b = b0)
        \/ exists t, b = Some t /\ In t tags_ /\ has_text t
                     /\ s = score ratio block t /\ (s0 < s)%Q).
Proof.
  induction tags_ as [|tag rest IH]; intros s0 b0 s b H; simpl in H.
  - injection H as <- <-. split; [apply Qle_refl|].
    split; [intros t []|]. now left.
  - destruct (Py.truthy (default "" (tag_text tag))) eqn:Ht; simpl in H.
    + fold (score ratio block tag) in H.
      destruct (Py.ltb s0 (score ratio block tag)) eqn:Hlt.
      * apply ltb_spec in Hlt.
        destruct (IH _ _ _ _ H) as (H1 & H2 & H3).
        split; [lra|]. split.
        -- intros t [<-|Hin] Hx; [exact H1|now apply H2].
        -- right. destruct H3 as [[-> ->]|(t & -> & Hin & Hx & -> & Hs)].
           ++ exists tag. repeat split; auto; [now left|].
              unfold has_text. intros E. rewrite E in Ht. discriminate.
           ++ exists t. repeat split; auto; [now right|lra].
      * apply ltb_false in Hlt.
        destruct (IH _ _ _ _ H) as (H1 & H2 & H3).
        split; [exact H1|]. split.
        -- intros t [<-|Hin] Hx; [lra|now apply H2].
        -- destruct H3 as [H3|(t & -> & Hin & Hx & -> & Hs)];
             [now left|].
           right. exists t. repeat split; auto. now right.
    + destruct (IH _ _ _ _ H) as (H1 & H2 & H3).
      split; [exact H1|]. split.
      * intros t [<-|Hin] Hx; [|now apply H2].
        apply truthy_false in Ht. contradiction.
      * destruct H3 as [H3|(t & -> & Hin & Hx & -> & Hs)];
          [now left|].
        right. exists t. repeat split; auto. now right.
Qed.

Lemma find_best_tag_Some (block : BlockDict) (tags_ : list Tag) (t : Tag) :
  _find_best_tag ratio block tags_ = Some t ->
  In t tags_ /\ bd_text block <> "" /\ has_text t
  /\ (4 # 10 < score ratio block t)%Q
  /\ forall t', In t' tags_ -> has_text t' ->
                (score ratio block t' <= score ratio block t)%Q.
Proof.
  unfold _find_best_tag.
  destruct (Py.truthy (bd_text block)) eqn:Htxt; simpl; [|discriminate].
  destruct (best_loop ratio (bd_text block) tags_ 0%Q None) as [s b] eqn:E.
  destruct (Py.ltb (4 # 10) s) eqn:Hs; [|discriminate].
  intros ->. apply ltb_spec in Hs.
  destruct (best_loop_spec _ _ _ _ _ _ E) as (_ & H2 & H3).
  destruct H3 as [[_ H3]|(t' & H3 & Hin & Hx & -> & _)]; [discriminate|].
  injection H3 as <-. repeat split; auto.
  intros E'. rewrite E' in Htxt. discriminate.
Qed.

Lemma find_best_tag_None (block : BlockDict) (tags_ : list Tag) :
  _find_best_tag ratio block tags_ = None ->
  bd_text block = ""
  \/ forall t, In t tags_ -> has_text t -> (score ratio block t <= 4 # 10)%Q.
Proof.
  unfold _find_best_tag.
  destruct (Py.truthy (bd_text block)) eqn:Htxt; simpl.
  2:{ intros _. left. now apply truthy_false. }
  destruct (best_loop ratio (bd_text block) tags_ 0%Q None) as [s b] eqn:E.
  destruct (best_loop_spec _ _ _ _ _ _ E) as (_ & H2 & H3).
  destruct (Py.ltb (4 # 10) s) eqn:Hs.
  - intros ->. apply ltb_spec in Hs.
    destruct H3 as [[-> _]|(t' & H3 & _)]; [|discriminate].
    exfalso. revert Hs. apply Qle_not_lt. discriminate.
  - intros _. right. apply ltb_false in Hs. intros t Hin Hx.
    specialize (H2 t Hin Hx). lra.
Qed.

Lemma list_remove_perm (t : Tag) (l : list Tag) :
  In t l -> Permutation (t :: list_remove t l) l.
Proof.
  induction l as [|y l IH]; intros Hin; [destruct Hin|].
  simpl. destruct (decide (y = t)) as [->|Hne]; [reflexivity|].
  destruct Hin as [->|Hin]; [congruence|].
  rewrite perm_swap. apply perm_skip. now apply IH.
Qed.

Lemma fuzzy_pass_trace (matched : list Z) (blocks_ : list (Z * BlockDict)) :
  forall unmatched_tags,
    let r := fuzzy_pass ratio matched blocks_ unmatched_tags in
    let winners := fuzzy_winners ratio matched blocks_ unmatched_tags in
    fst r = zip_with (fuzzy_result matched) blocks_ winners
    /\ Permutation (omap id winners ++ snd r) unmatched_tags.
Proof.
  induction blocks_ as [|[i block] rest IH]; intros tags_; simpl.
  - split; reflexivity.
  - destruct (existsb (Z.eqb i) matched) eqn:Em.
    + destruct (IH tags_) as [H1 H2].
      destruct (fuzzy_pass ratio matched rest tags_) as [r1 r2].
      simpl in *. rewrite ?Em. split; [now rewrite H1|exact H2].
    + destruct (_find_best_tag ratio block tags_) as [t|] eqn:Eb.
      * destruct (IH (list_remove t tags_)) as [H1 H2].
        destruct (fuzzy_pass ratio matched rest (list_remove t tags_))
          as [r1 r2].
        simpl in *. rewrite ?Em. split; [now rewrite H1|].
        rewrite H2. apply list_remove_perm.
        now apply find_best_tag_Some in Eb.
      * destruct (IH tags_) as [H1 H2].
        destruct (fuzzy_pass ratio matched rest tags_) as [r1 r2].
        simpl in *. rewrite ?Em. split; [now rewrite H1|exact H2].
Qed.
End FuzzyPass.

Section MatchBlocks.
Variable ratio : string -> string -> Q.

Lemma set_defaults_apply_tag (i j : Z) (b : BlockDict) (t : Tag) :
  set_defaults i (_apply_tag b t j) = _apply_tag b t j.
Proof. reflexivity. Qed.

Lemma set_defaults_idem (i : Z) (b : BlockDict) :
  set_defaults i (set_defaults i b) = set_defaults i b.
Proof. reflexivity. Qed.

Lemma dict_set_get_In (k : Z) (t : Tag) (m : list (Z * Tag)) (i : Z)
  (x : Tag) :
  Py.dict_get i (Py.dict_set k t m) = Some x ->
  x = t \/ Py.dict_get i m = Some x.
Proof.
  induction m as [|[k' v] m IH]; simpl.
  - destruct (i =? k); [|discriminate]. intros [= <-]. now left.
  - destruct (k =? k') eqn:E; simpl.
    + destruct (i =? k) eqn:E2.
      * intros [= <-]. now left.
      * apply Z.eqb_eq in E. subst k'. rewrite E2. now right.
    + destruct (i =? k'); [now right|exact IH].
Qed.

Lemma index_map_In (tags_ : list Tag) (i : Z) (x : Tag) :
  Py.dict_get i (index_map_of tags_) = Some x -> In x tags_.
Proof.
  unfold index_map_of.
  assert (forall l m,
            (forall j y, Py.dict_get j m = Some y -> In y tags_) ->
            incl l tags_ ->
            Py.dict_get i (fold_left (fun m tag =>
               match tag_block_index tag with
               | Some idx => Py.dict_set idx tag m
               | None => m
               end) l m) = Some x -> In x tags_) as H.
  { induction l as [|t l IH]; intros m Hm Hl; simpl.
    - apply Hm.
    - apply IH; [|intros y Hy; apply Hl; now right].
      intros j y. destruct (tag_block_index t) as [idx|]; [|apply Hm].
      intros Hy. apply dict_set_get_In in Hy as [->|Hy].
      + apply Hl. now left.
      + exact (Hm _ _ Hy). }
  apply (H tags_ []); [intros j y; discriminate|apply incl_refl].
Qed.

Lemma index_pass_spec (im : list (Z * Tag)) (bl : list (Z * BlockDict)) :
  let r := index_pass im bl in
  Forall2 (fun ib ib' =>
             fst ib' = fst ib
             /\ match Py.dict_get (fst ib) im with
                | Some t => snd ib' = _apply_tag (snd ib) t (fst ib)
                | None => snd ib' = snd ib
                end) bl (fst r)
  /\ forall i, existsb (Z.eqb i) (snd r) = true
               <-> Py.dict_get i im <> None /\ In i (map fst bl).
Proof.
  induction bl as [|[i b] bl IH]; simpl.
  - split; [constructor|]. intros i. split; [discriminate|tauto].
  - destruct IH as [IH1 IH2].
    destruct (index_pass im bl) as [rest matched]. simpl in *.
    destruct (Py.dict_get i im) as [t|] eqn:E; simpl.
    + split.
      * constructor; [|exact IH1]. simpl. rewrite E. now split.
      * intros j. rewrite orb_true_iff, IH2, Z.eqb_eq. split.
        -- intros [->|[H1 H2]]; [split; [congruence|now left]|].
           split; [exact H1|now right].
        -- intros [H1 [->|H2]]; [now left|now right].
    + split.
      * constructor; [|exact IH1]. simpl. rewrite E. now split.
      * intros j. rewrite IH2. split; [intros [H1 H2]; auto|].
        intros [H1 [->|H2]]; [congruence|now split].
Qed.

Lemma Forall2_with_In {A B} (R : A -> B -> Prop) (l : list A)
  (l' : list B) :
  Forall2 R l l' -> Forall2 (fun a b => In a l /\ R a b) l l'.
Proof.
  induction 1 as [|a b l l' Hab _ IH]; constructor.
  - split; [now left|exact Hab].
  - eapply Forall2_impl; [exact IH|].
    intros x y [Hx Hy]. split; [now right|exact Hy].
Qed.

Lemma list_remove_incl (t : Tag) (l : list Tag) : incl (list_remove t l) l.
Proof.
  induction l as [|y l IH]; simpl; [apply incl_refl|].
  destruct (decide (y = t)).
  - now apply incl_tl, incl_refl.
  - intros x [<-|Hx]; [now left|]. right. now apply IH.
Qed.

Lemma fuzzy_pass_outcome (matched : list Z) (tags0 : list Tag)
  (bl : list (Z * BlockDict)) :
  forall tags_, incl tags_ tags0 ->
    Forall2 (fun ib ib' =>
               fst ib' = fst ib
               /\ if existsb (Z.eqb (fst ib)) matched
                  then snd ib' = snd ib
                  else tagged_or_default tags0 ib (snd ib'))
      bl (fst (fuzzy_pass ratio matched bl tags_)).
Proof.
  induction bl as [|[i b] bl IH]; intros tags_ Hincl; simpl.
  - constructor.
  - destruct (existsb (Z.eqb i) matched) eqn:Em.
    + specialize (IH tags_ Hincl).
      destruct (fuzzy_pass ratio matched bl tags_) as [r1 r2].
      constructor; [|exact IH]. simpl. rewrite Em. now split.
    + destruct (_find_best_tag ratio b tags_) as [t|] eqn:Eb.
      * specialize (IH (list_remove t tags_)
                      (incl_tran (list_remove_incl _ _) Hincl)).
        destruct (fuzzy_pass ratio matched bl (list_remove t tags_))
          as [r1 r2].
        constructor; [|exact IH]. simpl. rewrite Em. split; [reflexivity|].
        left. exists t. split; [|reflexivity]. apply Hincl.
        now apply find_best_tag_Some in Eb.
      * specialize (IH tags_ Hincl).
        destruct (fuzzy_pass ratio matched bl tags_) as [r1 r2].
        constructor; [|exact IH]. simpl. rewrite Em. split; [reflexivity|].
        now right.
Qed.

Lemma filter_incl {A} (f : A -> bool) (l : list A) :
  incl (List.filter f l) l.
Proof. intros x Hx. now apply filter_In in Hx. Qed.

Lemma Forall2_compose {A B C} (R : A -> B -> Prop) (S : B -> C -> Prop)
  (l1 : list A) (l2 : list B) (l3 : list C) :
  Forall2 R l1 l2 -> Forall2 S l2 l3 ->
  Forall2 (fun a c => exists b, R a b /\ S b c) l1 l3.
Proof.
  intros H. revert l3. induction H as [|a b l1 l2 Hab _ IH]; intros l3 H3.
  - inversion H3. constructor.
  - inversion H3 as [|? c ? l3' Hbc H3']; subst.
    constructor; [exists b; now split|now apply IH].
Qed.

Lemma Forall2_map_r {A B C} (P : A -> C -> Prop) (f : B -> C)
  (l : list A) (l' : list B) :
  Forall2 (fun a b => P a (f b)) l l' -> Forall2 P l (map f l').
Proof. induction 1; simpl; constructor; auto. Qed.

Lemma Forall2_same {A} (R : A -> A -> Prop) (l : list A) :
  (forall a, R a a) -> Forall2 R l l.
Proof. intros H. induction l; constructor; auto. Qed.

Lemma match_blocks_outcome (bl : list BlockDict) (tags_ : list Tag) :
  Forall2 (tagged_or_default tags_) (Py.enumerate bl)
    (match_blocks_to_tags ratio bl tags_).
Proof.
  unfold match_blocks_to_tags. destruct tags_ as [|t0 tl].
  - apply Forall2_map_r, Forall2_same. intros [i b]. now right.
  - set (tags_ := t0 :: tl).
    pose proof (index_pass_spec (index_map_of tags_) (Py.enumerate bl))
      as [H1 H2]. simpl in H1, H2.
    destruct (index_pass (index_map_of tags_) (Py.enumerate bl))
      as [blocks1 matched]. simpl in H1, H2.
    set (unmatched_tags :=
           List.filter (fun t => negb (in_matched matched
                                         (tag_block_index t))) tags_).
    pose proof (fuzzy_pass_outcome matched tags_ blocks1 unmatched_tags
                  (filter_incl _ _)) as H3.
    set (S := fun ib ib' : Z * BlockDict =>
                fst ib' = fst ib
                /\ if existsb (Z.eqb (fst ib)) matched
                   then snd ib' = snd ib
                   else snd ib' = snd ib
                        \/ tagged_or_default tags_ ib (snd ib')).
    assert (Forall2 S blocks1
              (match List.filter (fun '(i, _) =>
                        negb (existsb (Z.eqb i) matched)) blocks1,
                     unmatched_tags with
               | _ :: _, _ :: _ =>
                   fst (fuzzy_pass ratio matched blocks1 unmatched_tags)
               | _, _ => blocks1
               end)) as H4.
    { assert (Forall2 S blocks1 blocks1) as Hid.
      { apply Forall2_same. intros a. split; [reflexivity|].
        destruct (existsb _ matched); auto. }
      destruct (List.filter _ blocks1); [exact Hid|].
      destruct unmatched_tags; [exact Hid|].
      eapply Forall2_impl; [exact H3|].
      intros ib ib' [Ha Hb]. split; [exact Ha|].
      destruct (existsb (Z.eqb (fst ib)) matched); auto. }
    apply Forall2_map_r. apply Forall2_with_In in H1.
    eapply Forall2_impl; [exact (Forall2_compose _ _ _ _ _ H1 H4)|].
    intros [i b] [i2 b2] ([i1 b1] & [Hin [Hi Hb]] & [Hi2 Hb2]).
    simpl in *. subst i1 i2. unfold tagged_or_default. simpl.
    destruct (Py.dict_get i (index_map_of tags_)) as [t|] eqn:Eg.
    + assert (existsb (Z.eqb i) matched = true) as Em.
      { apply H2. split; [congruence|].
        apply in_map_iff. now exists (i, b). }
      rewrite Em in Hb2. subst b2 b1. left. exists t.
      split; [|reflexivity]. now apply index_map_In in Eg.
    + subst b1. destruct (existsb (Z.eqb i) matched) eqn:Em.
      * exfalso. apply H2 in Em as [Em _]. congruence.
      * destruct Hb2 as [->|[(t' & Ht' & ->)| ->]].
        -- now right.
        -- left. exists t'. now split.
        -- now right.
Qed.
End MatchBlocks.




(** ** Command line *)




(** ** Reasoning about [Run] *)

Lemma bind_Some {A B} (m : Run A) (f : A -> Run B) (k : nat) (r : B * nat) :
  bind m f k = Some r ->
  exists a k', m k = Some (a, k') /\ f a k' = Some r.
Proof.
  unfold bind. destruct (m k) as [[a k']|]; [|discriminate].
  intros H. now exists a, k'.
Qed.

Lemma lift_Some {A} (o : option A) (k : nat) (a : A) (k' : nat) :
  lift o k = Some (a, k') -> o = Some a /\ k' = k.
Proof.
  unfold lift. destruct o; [|discriminate]. intros [= -> ->]. now split.
Qed.

Lemma ret_Some {A} (x a : A) (k k' : nat) :
  ret x k = Some (a, k') -> a = x /\ k' = k.
Proof. unfold ret. intros [= -> ->]. now split. Qed.

Lemma uuid4_Some (rnd : nat -> N) (k : nat) (s : string) (k' : nat) :
  uuid4 rnd k = Some (s, k') -> s = str_uuid (uuid4_int (rnd k)) /\ k' = S k.
Proof. unfold uuid4. intros [= <- <-]. now split. Qed.

Lemma fold_run_inv {S A} (P : S -> Prop) (f : S -> A -> Run S)
  (l : list A) :
  (forall st x k st' k', P st -> In x l -> f st x k = Some (st', k') ->
                         P st') ->
  forall st k st' k', P st -> fold_run f l st k = Some (st', k') -> P st'.
Proof.
  induction l as [|x l IH]; intros Hstep st k st' k' HP H; simpl in H.
  - apply ret_Some in H as [-> _]. exact HP.
  - apply bind_Some in H as (st1 & k1 & H1 & H).
    apply (IH (fun s y j s' j' HP' Hin =>
                 Hstep s y j s' j' HP' (or_intror Hin)) st1 k1 st' k');
      [|exact H].
    exact (Hstep st x k st1 k1 HP (or_introl eq_refl) H1).
Qed.

(** ** Rounding *)

Lemma round_half_even_near (y : Q) :
  (inject_Z (Py.round_half_even y) - (1 # 2) <= y
   /\ y <= inject_Z (Py.round_half_even y) + (1 # 2))%Q.
Proof.
  unfold Py.round_half_even.
  pose proof (Qfloor_le y) as Hlo. pose proof (Qlt_floor y) as Hhi.
  rewrite inject_Z_plus in Hhi. change (inject_Z 1) with 1%Q in Hhi.
  destruct (Qcompare (y - inject_Z (Qfloor y)) (1 # 2)) eqn:E.
  - apply Qeq_alt in E. destruct (Z.even (Qfloor y));
      rewrite ?inject_Z_plus; change (inject_Z 1) with 1%Q; split; lra.
  - apply Qlt_alt in E. split; lra.
  - apply Qgt_alt in E. rewrite inject_Z_plus.
    change (inject_Z 1) with 1%Q. split; lra.
Qed.

Lemma round_half_even_between (a b : Z) (y : Q) :
  (inject_Z a <= y)%Q -> (y <= inject_Z b)%Q ->
  a <= Py.round_half_even y <= b.
Proof.
  intros Ha Hb. unfold Py.round_half_even.
  pose proof (Qfloor_le y) as Hlo. pose proof (Qlt_floor y) as Hhi.
  assert (a <= Qfloor y) as H1.
  { rewrite <- (Qfloor_Z a). now apply Qfloor_resp_le. }
  assert (Qfloor y <= b) as H2.
  { rewrite <- (Qfloor_Z b). now apply Qfloor_resp_le. }
  assert ((inject_Z (Qfloor y) < y)%Q -> Qfloor y + 1 <= b) as H3.
  { intros Hlt. assert (inject_Z (Qfloor y) < inject_Z b)%Q as H by lra.
    rewrite <- Zlt_Qlt in H. lia. }
  destruct (Qcompare (y - inject_Z (Qfloor y)) (1 # 2)) eqn:E.
  - apply Qeq_alt in E. destruct (Z.even (Qfloor y)); [lia|].
    split; [lia|]. apply H3. lra.
  - lia.
  - apply Qgt_alt in E. split; [lia|]. apply H3. lra.
Qed.

Lemma pow10_pos (n : nat) : (0 < pow10 n)%Q.
Proof.
  unfold pow10. change 0%Q with (inject_Z 0). rewrite <- Zlt_Qlt.
  apply Z.pow_pos_nonneg; lia.
Qed.

(** [round(x, n)] is within half a unit of the [n]-th decimal of [x]. *)
Lemma round_near (x : Q) (n : nat) :
  (Qabs (Py.round x n - x) <= (1 # 2) / pow10 n)%Q.
Proof.
  unfold Py.round. fold (pow10 n). rewrite Qred_correct.
  pose proof (pow10_pos n) as Hs.
  destruct (round_half_even_near (x * pow10 n)) as [H1 H2].
  set (r := inject_Z (Py.round_half_even (x * pow10 n))) in *.
  apply Qabs_Qle_condition. split.
  - apply Qle_shift_div_l in H2; [|exact Hs].
    assert ((r + (1 # 2)) / pow10 n == r / pow10 n + (1 # 2) / pow10 n)%Q
      as E by (field; lra).
    rewrite E in H2. lra.
  - assert (r - (1 # 2) <= x * pow10 n)%Q as H1' by lra.
    apply Qle_shift_div_r in H1'; [|exact Hs].
    assert ((r - (1 # 2)) / pow10 n == r / pow10 n - (1 # 2) / pow10 n)%Q
      as E by (field; lra).
    rewrite E in H1'. lra.
Qed.

(** Rounding keeps a value of the unit interval in the unit interval. *)
Lemma round_unit (x : Q) (n : nat) :
  (0 <= x)%Q -> (x <= 1)%Q -> (0 <= Py.round x n /\ Py.round x n <= 1)%Q.
Proof.
  intros H0 H1. unfold Py.round. fold (pow10 n). rewrite Qred_correct.
  pose proof (pow10_pos n) as Hs.
  destruct (round_half_even_between 0 (10 ^ Z.of_nat n) (x * pow10 n))
    as [Ha Hb].
  - change (inject_Z 0) with 0%Q. apply Qmult_le_0_compat; lra.
  - fold (pow10 n). rewrite <- (Qmult_1_l (pow10 n)) at 2.
    apply Qmult_le_compat_r; lra.
  - set (r := Py.round_half_even (x * pow10 n)) in *.
    split.
    + apply Qle_shift_div_l; [exact Hs|]. rewrite Qmult_0_l.
      change 0%Q with (inject_Z 0). now rewrite <- Zle_Qle.
    + apply Qle_shift_div_r; [exact Hs|]. rewrite Qmult_1_l.
      unfold pow10. now rewrite <- Zle_Qle.
Qed.

(** ** The assembler, step by step *)

Lemma new_Block_Some (b b' : Block) :
  new_Block b = Some b' -> b' = b /\ 1 <= b_page b /\ 0 <= b_reading_order b.
Proof.
  unfold new_Block.
  destruct (1 <=? b_page b) eqn:E1; [|discriminate].
  destruct (0 <=? b_reading_order b) eqn:E2; [|discriminate].
  intros [= <-]. apply Z.leb_le in E1, E2. now repeat split.
Qed.

Lemma new_Page_Some (n : Z) (w h : Q) (rot : Z) (pg : Page) :
  new_Page n w h rot = Some pg ->
  pg_page_number pg = n /\ pg_width pg = w /\ pg_height pg = h
  /\ 1 <= n /\ (0 < w)%Q /\ (0 < h)%Q.
Proof.
  unfold new_Page.
  destruct (1 <=? n) eqn:E1; [|discriminate].
  destruct (Py.ltb 0 w) eqn:E2; [|discriminate].
  destruct (Py.ltb 0 h) eqn:E3; [|discriminate].
  intros [= <-]. apply Z.leb_le in E1. apply ltb_spec in E2, E3.
  now repeat split.
Qed.

Lemma new_TableCell_Some (c c' : TableCell) :
  new_TableCell c = Some c' -> c' = c.
Proof.
  unfold new_TableCell. destruct (_ && _); [|discriminate]. now intros [= <-].
Qed.

Lemma new_cells_Some (w h : Q) (cds : list CellDict) (cells : list TableCell) :
  mapM (fun cell_dict => new_TableCell (table_cell w h cell_dict)) cds
  = Some cells ->
  cells = map (table_cell w h) cds.
Proof.
  intros H. apply mapM_Some in H.
  induction H as [|c c' cds cells Hc _ IH]; [reflexivity|].
  apply new_TableCell_Some in Hc. simpl. now rewrite Hc, IH.
Qed.

Lemma new_Table_Some (t t' : Table) :
  new_Table t = Some t' -> t' = t.
Proof.
  unfold new_Table. destruct (_ && _); [|discriminate]. now intros [= <-].
Qed.

Lemma emit_block_inv (rnd : nat -> N) (pn : Z) (w h : Q) (st : Asm)
  (bd : BlockDict) (k : nat) (st' : Asm) (k' : nat) :
  emit_block rnd pn w h st bd k = Some (st', k') ->
  let id := emitted_id rnd k bd in
  k' = S k /\ 1 <= pn /\ 0 <= default 0 (bd_reading_order bd)
  /\ exists edges,
       chain_edge (prev_block_id st) id (all_edges st) = Some edges
       /\ st' = {| a_pages := a_pages st;
                   all_blocks := all_blocks st ++ [text_block id pn w h bd];
                   all_spans := all_spans st ++ [block_span id w h bd];
                   all_tokens :=
                     all_tokens st ++ map (word_token id w h) (bd_words bd);
                   all_tables := all_tables st;
                   all_edges := edges;
                   prev_block_id := Some id |}.
Proof.
  intros H id. unfold emit_block in H.
  apply bind_Some in H as (fresh & k1 & Hu & H).
  apply uuid4_Some in Hu as [-> ->].
  apply bind_Some in H as (block & k2 & Hb & H).
  apply lift_Some in Hb as [Hb ->].
  apply bind_Some in H as (edges & k3 & He & H).
  apply lift_Some in He as [He ->].
  apply ret_Some in H as [-> ->].
  apply new_Block_Some in Hb as (-> & H1 & H2).
  split; [reflexivity|]. split; [exact H1|]. split; [exact H2|].
  exists edges. split; [exact He|reflexivity].
Qed.

Lemma emit_table_inv (pn : Z) (w h : Q) (st : Asm) (td : TableDict)
  (k : nat) (st' : Asm) (k' : nat) :
  emit_table pn w h st td k = Some (st', k') ->
  let tbl := {| t_id := td_id td; t_page := pn; t_rows := td_rows td;
                t_cols := td_cols td; t_bbox := td_bbox td;
                t_cells := map (table_cell w h) (td_cells td) |} in
  k' = k /\ 1 <= pn
  /\ match td_bbox td with
     | Some bbox =>
         exists edges,
           chain_edge (prev_block_id st) (td_id td) (all_edges st)
           = Some edges
           /\ st' = {| a_pages := a_pages st;
                       all_blocks :=
                         all_blocks st
                         ++ [table_block (td_id td) pn w h bbox
                               (length (all_blocks st))];
                       all_spans := all_spans st;
                       all_tokens := all_tokens st;
                       all_tables := all_tables st ++ [tbl];
                       all_edges := edges;
                       prev_block_id := Some (td_id td) |}
     | None =>
         st' = {| a_pages := a_pages st;
                  all_blocks := all_blocks st;
                  all_spans := all_spans st;
                  all_tokens := all_tokens st;
                  all_tables := all_tables st ++ [tbl];
                  all_edges := all_edges st;
                  prev_block_id := prev_block_id st |}
     end.
Proof.
  intros H tbl. unfold emit_table in H.
  apply bind_Some in H as (cells & k1 & Hc & H).
  apply lift_Some in Hc as [Hc ->]. apply new_cells_Some in Hc. subst cells.
  apply bind_Some in H as (t & k1 & Ht & H).
  apply lift_Some in Ht as [Ht ->].
  assert (1 <= pn) as Hpn.
  { unfold new_Table in Ht. simpl in Ht.
    destruct (1 <=? pn) eqn:E; [now apply Z.leb_le|discriminate]. }
  apply new_Table_Some in Ht. subst t. fold tbl in H.
  destruct (td_bbox td) as [bbox|].
  - apply bind_Some in H as (block & k2 & Hb & H).
    apply lift_Some in Hb as [Hb ->].
    apply bind_Some in H as (edges & k3 & He & H).
    apply lift_Some in He as [He ->].
    apply ret_Some in H as [-> ->].
    apply new_Block_Some in Hb as (-> & _ & _).
    split; [reflexivity|]. split; [exact Hpn|].
    exists edges. split; [exact He|reflexivity].
  - apply ret_Some in H as [-> ->]. now repeat split.
Qed.

Lemma assemble_page_inv (rnd : nat -> N)
  (merged_blocks : list (Z * list BlockDict))
  (tables_by_page : list (Z * list TableDict)) (st : Asm) (pd : PageData)
  (k : nat) (st' : Asm) (k' : nat) :
  assemble_page rnd merged_blocks tables_by_page st pd k = Some (st', k') ->
  exists page st1 k1,
    pg_page_number page = pd_page_number pd
    /\ pg_width page = pd_width pd /\ pg_height page = pd_height pd
    /\ 1 <= pd_page_number pd /\ (0 < pd_width pd)%Q /\ (0 < pd_height pd)%Q
    /\ fold_run (emit_block rnd (pd_page_number pd) (pd_width pd)
                   (pd_height pd))
         (page_blocks merged_blocks pd) (with_page st page) k
       = Some (st1, k1)
    /\ fold_run (emit_table (pd_page_number pd) (pd_width pd) (pd_height pd))
         (page_tables tables_by_page pd) st1 k1
       = Some (st', k').
Proof.
  intros H. unfold assemble_page in H.
  apply bind_Some in H as (page & k1 & Hp & H).
  apply lift_Some in Hp as [Hp ->].
  apply new_Page_Some in Hp as (H1 & H2 & H3 & H4 & H5 & H6).
  apply bind_Some in H as (st1 & k1 & Hb & H).
  exists page, st1, k1. repeat split; assumption.
Qed.

(** An invariant of the accumulators: [Between] holds between two pages,
    [Within pd] while page [pd] is being assembled. *)
Section AsmInvariant.
Variable rnd : nat -> N.
Variable merged_blocks : list (Z * list BlockDict).
Variable tables_by_page : list (Z * list TableDict).
Variable Between : Asm -> Prop.
Variable Within : PageData -> Asm -> Prop.

Hypothesis Hpage : forall st pd page,
  Between st ->
  pg_page_number page = pd_page_number pd ->
  pg_width page = pd_width pd -> pg_height page = pd_height pd ->
  1 <= pd_page_number pd -> (0 < pd_width pd)%Q -> (0 < pd_height pd)%Q ->
  Within pd (with_page st page).

Hypothesis Hblock : forall st pd bd k st' k',
  Within pd st -> In bd (page_blocks merged_blocks pd) ->
  emit_block rnd (pd_page_number pd) (pd_width pd) (pd_height pd) st bd k
  = Some (st', k') ->
  Within pd st'.

Hypothesis Htable : forall st pd td k st' k',
  Within pd st -> In td (page_tables tables_by_page pd) ->
  emit_table (pd_page_number pd) (pd_width pd) (pd_height pd) st td k
  = Some (st', k') ->
  Within pd st'.

Hypothesis Hdone : forall st pd, Within pd st -> Between st.

Lemma assemble_pages_inv (pages_data : list PageData) :
  forall st k st' k',
    Between st ->
    fold_run (assemble_page rnd merged_blocks tables_by_page) pages_data st k
    = Some (st', k') ->
    Between st'.
Proof using Hpage Hblock Htable Hdone.
  apply fold_run_inv. intros st pd k st' k' HP _ H.
  apply assemble_page_inv in H
    as (page & st1 & k1 & H1 & H2 & H3 & H4 & H5 & H6 & Hb & Ht).
  apply (Hdone _ pd).
  revert Ht. apply fold_run_inv.
  - intros s td j s' j' Hs Hin Hstep. exact (Htable _ _ _ _ _ _ Hs Hin Hstep).
  - revert Hb. apply fold_run_inv.
    + intros s bd j s' j' Hs Hin Hstep.
      exact (Hblock _ _ _ _ _ _ Hs Hin Hstep).
    + now apply (Hpage st pd page).
Qed.
End AsmInvariant.

Lemma assemble_document_inv (rnd : nat -> N) (doc_id : string)
  (pages_data : list PageData) (merged_blocks : list (Z * list BlockDict))
  (tables_by_page : list (Z * list TableDict))
  (styles_ : gmap string StyleDict) (source_type : SourceType) (k : nat)
  (doc : LayoutDocument) (k' : nat) :
  assemble_document rnd doc_id pages_data merged_blocks tables_by_page
    styles_ source_type k = Some (doc, k') ->
  exists st,
    fold_run (assemble_page rnd merged_blocks tables_by_page) pages_data
      Asm_init k = Some (st, k')
    /\ document doc = {| document_id := doc_id; schema_version := "3.0";
                         source := source_type;
                         page_count := Some (Z.of_nat (length (a_pages st))) |}
    /\ pages doc = a_pages st /\ blocks doc = all_blocks st
    /\ default [] (spans doc) = all_spans st
    /\ default [] (tokens doc) = all_tokens st
    /\ default [] (tables doc) = all_tables st
    /\ default [] (reading_graph doc) = all_edges st
    /\ default ∅ (styles doc) = style_of_dict <$> styles_.
Proof.
  intros H. unfold assemble_document in H.
  apply bind_Some in H as (st & k1 & Hf & H).
  apply ret_Some in H as [-> ->].
  exists st. split; [exact Hf|]. simpl.
  assert (forall A (l : list A), default [] (or_None l) = l) as Hor
    by (intros A [|x l]; reflexivity).
  rewrite !Hor. repeat split.
  destruct (decide (style_of_dict <$> styles_ = ∅)) as [->|]; reflexivity.
Qed.

(** ** Reading graph *)

Lemma chain_snoc (ids : list string) (x : string) :
  chain (ids ++ [x])
  = chain ids ++ match last ids with
                 | Some p => [next_edge p x]
                 | None => []
                 end.
Proof.
  induction ids as [|a ids IH]; [reflexivity|].
  destruct ids as [|b ids]; [reflexivity|].
  change (chain ((a :: b :: ids) ++ [x]))
    with (next_edge a b :: chain ((b :: ids) ++ [x])).
  rewrite IH. reflexivity.
Qed.

Lemma chain_length (ids : list string) :
  length (chain ids) = (length ids - 1)%nat.
Proof.
  induction ids as [|a ids IH]; [reflexivity|].
  destruct ids as [|b ids]; [reflexivity|].
  change (chain (a :: b :: ids)) with (next_edge a b :: chain (b :: ids)).
  simpl length in *. lia.
Qed.

Lemma chain_next (ids : list string) :
  Forall (fun e => relation e = rel_next) (chain ids).
Proof.
  induction ids as [|a ids IH]; [constructor|].
  destruct ids as [|b ids]; [constructor|].
  change (chain (a :: b :: ids)) with (next_edge a b :: chain (b :: ids)).
  constructor; [reflexivity|exact IH].
Qed.

Lemma chain_lookup (ids : list string) (k : nat) (a b : string) :
  ids !! k = Some a -> ids !! S k = Some b ->
  chain ids !! k = Some (next_edge a b).
Proof.
  revert k. induction ids as [|x ids IH]; intros k Ha Hb; [discriminate|].
  destruct ids as [|y ids]; [discriminate|].
  change (chain (x :: y :: ids)) with (next_edge x y :: chain (y :: ids)).
  destruct k as [|k].
  - simpl in Ha, Hb. now injection Ha as ->; injection Hb as ->.
  - apply (IH k); assumption.
Qed.

Lemma chained_emit (st : Asm) (b : Block) (edges : list Edge) :
  chained st -> b_id b <> "" ->
  chain_edge (prev_block_id st) (b_id b) (all_edges st) = Some edges ->
  edges = chain (map b_id (all_blocks st ++ [b]))
  /\ Some (b_id b) = last (map b_id (all_blocks st ++ [b]))
  /\ Forall (fun b => b_id b <> "") (all_blocks st ++ [b]).
Proof.
  intros (He & Hp & Hne) Hb H. split; [|split].
  - rewrite map_app. change (map b_id [b]) with [b_id b].
    rewrite chain_snoc, <- Hp, <- He.
    unfold chain_edge in H. destruct (prev_block_id st) as [p|] eqn:Ep.
    + assert (p <> "") as Hpne.
      { symmetry in Hp. apply last_Some in Hp as [l' Hp].
        assert (In p (map b_id (all_blocks st))) as Hin
          by (rewrite Hp; apply in_or_app; right; now left).
        apply in_map_iff in Hin as (b0 & <- & Hin).
        rewrite Forall_forall in Hne.
        apply Hne. now apply list_elem_of_In. }
      destruct p as [|c p]; [congruence|]. simpl in H.
      now injection H as <-.
    + injection H as <-. now rewrite app_nil_r.
  - rewrite map_app. simpl. now rewrite last_snoc.
  - apply Forall_app. split; [exact Hne|]. now constructor.
Qed.

Lemma append_nonempty_r (a b : string) : b <> "" -> a +:+ b <> "".
Proof.
  destruct a as [|c a]; [trivial|]. intros _.
  change (String c (a +:+ b) <> ""). discriminate.
Qed.

Lemma str_uuid_nonempty (u : N) : str_uuid u <> "".
Proof.
  unfold str_uuid. apply append_nonempty_r.
  change ("-" +:+ ?x) with (String "-" x). discriminate.
Qed.

Lemma dict_get_In {V} (k : Z) (d : list (Z * V)) (v : V) :
  Py.dict_get k d = Some v -> In (k, v) d.
Proof.
  induction d as [|[k' v'] d IH]; simpl; [discriminate|].
  destruct (k =? k') eqn:E.
  - intros [= ->]. apply Z.eqb_eq in E. subst. now left.
  - intros H. right. now apply IH.
Qed.

Lemma page_blocks_In merged_blocks pd bd :
  In bd (page_blocks merged_blocks pd) ->
  exists bds, In (pd_page_number pd - 1, bds) merged_blocks /\ In bd bds.
Proof.
  unfold page_blocks. intros H.
  apply (Permutation_in _ (sorted_perm _ _)) in H.
  destruct (Py.dict_get _ merged_blocks) as [bds|] eqn:E; [|destruct H].
  exists bds. split; [now apply dict_get_In|exact H].
Qed.

Lemma page_tables_In tables_by_page pd td :
  In td (page_tables tables_by_page pd) ->
  exists tds, In (pd_page_number pd - 1, tds) tables_by_page /\ In td tds.
Proof.
  unfold page_tables. intros H.
  destruct (Py.dict_get _ tables_by_page) as [tds|] eqn:E; [|destruct H].
  exists tds. split; [now apply dict_get_In|exact H].
Qed.

Lemma emitted_id_nonempty rnd k bd :
  bd_id bd <> Some "" -> emitted_id rnd k bd <> "".
Proof.
  unfold emitted_id. destruct (bd_id bd) as [i|]; simpl.
  - congruence.
  - intros _. apply str_uuid_nonempty.
Qed.

Lemma assemble_chained (rnd : nat -> N)
  (merged_blocks : list (Z * list BlockDict))
  (tables_by_page : list (Z * list TableDict)) (pages_data : list PageData)
  (k : nat) (st : Asm) (k' : nat) :
  ids_nonempty merged_blocks tables_by_page ->
  fold_run (assemble_page rnd merged_blocks tables_by_page) pages_data
    Asm_init k = Some (st, k') ->
  chained st.
Proof.
  intros [Hb Ht].
  apply (assemble_pages_inv rnd merged_blocks tables_by_page chained
           (fun _ => chained)).
  - intros st0 pd page H _ _ _ _ _ _. exact H.
  - intros st0 pd bd j st' j' H Hin Hstep.
    apply emit_block_inv in Hstep as (_ & _ & _ & edges & He & ->).
    apply page_blocks_In in Hin as (bds & H1 & H2).
    pose proof (emitted_id_nonempty rnd j bd (Hb _ _ _ H1 H2)) as Hne.
    destruct (chained_emit st0
                (text_block (emitted_id rnd j bd) (pd_page_number pd)
                   (pd_width pd) (pd_height pd) bd) edges H Hne He)
      as (E1 & E2 & E3).
    repeat split; simpl; auto.
  - intros st0 pd td j st' j' H Hin Hstep.
    apply emit_table_inv in Hstep as (_ & _ & Hstep).
    apply page_tables_In in Hin as (tds & H1 & H2).
    pose proof (Ht _ _ _ H1 H2) as Hne.
    destruct (td_bbox td) as [bbox|].
    + destruct Hstep as (edges & He & ->).
      destruct (chained_emit st0
                  (table_block (td_id td) (pd_page_number pd) (pd_width pd)
                     (pd_height pd) bbox (length (all_blocks st0)))
                  edges H Hne He) as (E1 & E2 & E3).
      repeat split; simpl; auto.
    + subst st'. exact H.
  - trivial.
  - repeat split; constructor.
Qed.

Lemma sample_ids_nonempty : ids_nonempty sample_merged sample_tables.
Proof.
  split.
  - intros i bds bd [[= <- <-]|[[= <- <-]|[]]] [<-|[]]; discriminate.
  - intros i tds td [[= <- <-]|[[= <- <-]|[]]]; [intros []|].
    intros [<-|[]]. discriminate.
Qed.

(** When block and table ids are non-empty, the assembler leaves the
    [next] chain through the blocks it emitted. *)
Lemma assemble_next_chain (rnd : nat -> N) (doc_id : string)
  (pages_data : list PageData) (merged_blocks : list (Z * list BlockDict))
  (tables_by_page : list (Z * list TableDict))
  (styles_ : gmap string StyleDict) (source_type : SourceType) (k : nat)
  (doc : LayoutDocument) (k' : nat) :
  ids_nonempty merged_blocks tables_by_page ->
  assemble_document rnd doc_id pages_data merged_blocks tables_by_page
    styles_ source_type k = Some (doc, k') ->
  next_chain_graph doc.
Proof.
  intros Hids H.
  apply assemble_document_inv in H
    as (st & Hf & _ & _ & Hb & _ & _ & _ & He & _).
  apply (assemble_chained _ _ _ _ _ _ _ Hids) in Hf as (Hc & _ & _).
  assert (edges_of doc = chain (map b_id (blocks doc))) as E.
  { unfold edges_of. now rewrite He, Hb. }
  unfold next_chain_graph.
  split; [exact E|]. rewrite E. split; [apply chain_next|].
  split; [now rewrite chain_length, length_map|].
  intros n a b Ha Hb'. apply chain_lookup.
  - now rewrite list_lookup_fmap, Ha.
  - now rewrite list_lookup_fmap, Hb'.
Qed.

(** ** Referential integrity *)

Lemma chain_edge_inv (prev : option string) (target : string)
  (edges edges' : list Edge) :
  chain_edge prev target edges = Some edges' ->
  edges' = edges
  \/ exists p, prev = Some p /\ edges' = edges ++ [next_edge p target].
Proof.
  unfold chain_edge. destruct prev as [p|]; [|intros [= <-]; now left].
  destruct (Py.truthy p); [|intros [= <-]; now left].
  simpl. intros [= <-]. right. now exists p.
Qed.

Lemma refs_resolve_emit (keys : gset string) (st : Asm) (b : Block)
  (new_spans : list Span) (new_tokens : list Token) (edges : list Edge) :
  refs_resolve keys st ->
  (forall sid, b_style_id b = Some sid -> sid ∈ keys) ->
  Forall (fun s => (forall sid, sp_style_id s = Some sid -> sid ∈ keys)
                   /\ sp_block_id s = b_id b) new_spans ->
  Forall (fun t => tk_block_id t = b_id b) new_tokens ->
  chain_edge (prev_block_id st) (b_id b) (all_edges st) = Some edges ->
  refs_resolve keys
    {| a_pages := a_pages st;
       all_blocks := all_blocks st ++ [b];
       all_spans := all_spans st ++ new_spans;
       all_tokens := all_tokens st ++ new_tokens;
       all_tables := all_tables st;
       all_edges := edges;
       prev_block_id := Some (b_id b) |}.
Proof.
  intros (H1 & H2 & H3 & H4 & H5) Hb Hs Ht He. unfold refs_resolve. simpl.
  rewrite map_app. simpl.
  assert (forall x, In x (map b_id (all_blocks st)) ->
                    In x (map b_id (all_blocks st) ++ [b_id b])) as Hmono
    by (intros x Hx; apply in_or_app; now left).
  assert (In (b_id b) (map b_id (all_blocks st) ++ [b_id b])) as Hnew
    by (apply in_or_app; right; now left).
  split; [|split; [|split; [|split]]].
  - apply Forall_app. split; [exact H1|]. now constructor.
  - apply Forall_app. split.
    + eapply Forall_impl; [exact H2|]. intros s [Ha Hb']. auto.
    + eapply Forall_impl; [exact Hs|]. intros s [Ha ->]. auto.
  - apply Forall_app. split.
    + eapply Forall_impl; [exact H3|]. auto.
    + eapply Forall_impl; [exact Ht|]. intros t ->. exact Hnew.
  - assert (Forall (fun e => In (from_id e) (map b_id (all_blocks st)
                                              ++ [b_id b])
                             /\ In (to e) (map b_id (all_blocks st)
                                           ++ [b_id b])) (all_edges st))
      as H4'.
    { eapply Forall_impl; [exact H4|]. intros e [Ha Hb']. auto. }
    apply chain_edge_inv in He as [->|(p & Hp & ->)]; [exact H4'|].
    apply Forall_app. split; [exact H4'|]. constructor; [|constructor].
    simpl. split; [apply Hmono, H5, Hp|exact Hnew].
  - intros p [= <-]. exact Hnew.
Qed.

Lemma assemble_refs_resolve (rnd : nat -> N) (keys : gset string)
  (merged_blocks : list (Z * list BlockDict))
  (tables_by_page : list (Z * list TableDict)) (pages_data : list PageData)
  (k : nat) (st : Asm) (k' : nat) :
  (forall i bds bd sid, In (i, bds) merged_blocks -> In bd bds ->
                        bd_style_id bd = Some sid -> sid ∈ keys) ->
  fold_run (assemble_page rnd merged_blocks tables_by_page) pages_data
    Asm_init k = Some (st, k') ->
  refs_resolve keys st.
Proof.
  intros Hsty.
  apply (assemble_pages_inv rnd merged_blocks tables_by_page
           (refs_resolve keys) (fun _ => refs_resolve keys)).
  - intros st0 pd page H _ _ _ _ _ _. exact H.
  - intros st0 pd bd j st' j' H Hin Hstep.
    apply emit_block_inv in Hstep as (_ & _ & _ & edges & He & ->).
    apply page_blocks_In in Hin as (bds & Hi1 & Hi2).
    apply (refs_resolve_emit keys st0
             (text_block (emitted_id rnd j bd) (pd_page_number pd)
                (pd_width pd) (pd_height pd) bd)
             [block_span (emitted_id rnd j bd) (pd_width pd) (pd_height pd)
                bd]
             (map (word_token (emitted_id rnd j bd) (pd_width pd)
                     (pd_height pd)) (bd_words bd)) edges H).
    + simpl. intros sid. apply (Hsty _ _ _ _ Hi1 Hi2).
    + constructor; [|constructor]. simpl. split; [|reflexivity].
      intros sid. apply (Hsty _ _ _ _ Hi1 Hi2).
    + apply Forall_forall. intros t Ht. apply list_elem_of_In in Ht.
      apply in_map_iff in Ht as (w & <- & _). reflexivity.
    + exact He.
  - intros st0 pd td j st' j' H Hin Hstep.
    apply emit_table_inv in Hstep as (_ & _ & Hstep).
    destruct (td_bbox td) as [bbox|].
    + destruct Hstep as (edges & He & ->).
      pose proof (refs_resolve_emit keys st0
             (table_block (td_id td) (pd_page_number pd) (pd_width pd)
                (pd_height pd) bbox (length (all_blocks st0)))
             [] [] edges H) as Hr.
      rewrite !app_nil_r in Hr.
      destruct Hr as (R1 & R2 & R3 & R4 & R5);
        [discriminate|constructor|constructor|exact He|].
      repeat split; assumption.
    + subst st'. exact H.
  - trivial.
  - repeat split; try constructor. discriminate.
Qed.

Lemma styles_loop_keeps (sha : string -> string) (bl : list BlockDict) :
  forall (m : gmap string StyleDict) (sid : string),
    sid ∈ dom m -> sid ∈ dom (styles_loop sha bl m).
Proof.
  induction bl as [|b bl IH]; intros m sid H; simpl; [exact H|].
  apply IH. destruct (m !! _hash_style sha (style_of_block b));
    [exact H|].
  rewrite dom_insert. apply elem_of_union. now right.
Qed.

Lemma styles_loop_covers (sha : string -> string) (bl : list BlockDict) :
  forall (m : gmap string StyleDict) (b : BlockDict),
    In b bl ->
    _hash_style sha (style_of_block b) ∈ dom (styles_loop sha bl m).
Proof.
  induction bl as [|x bl IH]; intros m b Hin; [destruct Hin|].
  destruct Hin as [->|Hin]; simpl.
  - apply styles_loop_keeps.
    destruct (m !! _hash_style sha (style_of_block b)) eqn:E.
    + apply elem_of_dom. now rewrite E.
    + rewrite dom_insert. apply elem_of_union. left.
      now apply elem_of_singleton.
  - now apply IH.
Qed.

Lemma on_pages_In {A B} (f : A -> B) (d : list (Z * A)) (i : Z) (y : B) :
  In (i, y) (on_pages f d) -> exists x, In (i, x) d /\ y = f x.
Proof.
  unfold on_pages. intros H. apply in_map_iff in H as ([j x] & [= <- <-] & H).
  now exists x.
Qed.

Lemma in_dict_values {A} (d : list (Z * list A)) (i : Z) (l : list A)
  (x : A) :
  In (i, l) d -> In x l -> In x (concat (dict_values d)).
Proof.
  intros H1 H2. apply in_concat. exists l. split; [|exact H2].
  unfold dict_values. apply in_map_iff. now exists (i, l).
Qed.

(** C3. In every document assembled after style normalisation, every
    style_id on a block or span is a key of the styles map, both ends of
    every reading-graph edge are ids of blocks of the document, and every
    span's and token's block_id is the id of a block of the document. *)
Theorem references_resolve (rnd : nat -> N) (sha : string -> string)
  (doc_id : string) (pages_data : list PageData)
  (merged_blocks : list (Z * list BlockDict))
  (tables_by_page : list (Z * list TableDict)) (source_type : SourceType)
  (k : nat) (doc : LayoutDocument) (k' : nat) :
  normalize_and_assemble rnd sha doc_id pages_data merged_blocks
    tables_by_page source_type k = Some (doc, k') ->
  referential_integrity doc.
Proof.
  unfold normalize_and_assemble. intros H.
  apply assemble_document_inv in H
    as (st & Hf & _ & _ & Hb & Hs & Ht & _ & He & Hst).
  apply (assemble_refs_resolve rnd (style_keys doc)) in Hf.
  - destruct Hf as (R1 & R2 & R3 & R4 & _).
    rewrite Forall_forall in R1. rewrite Forall_forall in R2.
    rewrite Forall_forall in R3. rewrite Forall_forall in R4.
    unfold referential_integrity, edges_of. rewrite Hb, Hs, Ht, He.
    repeat split.
    + intros b sid Hin. apply R1. now apply list_elem_of_In.
    + intros s sid Hin. apply R2. now apply list_elem_of_In.
    + apply R4. now apply list_elem_of_In.
    + apply R4. now apply list_elem_of_In.
    + intros s Hin. apply R2. now apply list_elem_of_In.
    + intros t Hin. apply R3. now apply list_elem_of_In.
  - intros i bds' bd' sid Hin Hbd Hsid.
    apply on_pages_In in Hin as (bds & Hin & ->).
    simpl in Hbd. apply in_map_iff in Hbd as (bd & <- & Hbd).
    simpl in Hsid. injection Hsid as <-.
    unfold style_keys. rewrite Hst. simpl. rewrite dom_fmap.
    apply styles_loop_covers. exact (in_dict_values _ _ _ _ Hin Hbd).
Qed.

Lemma references_resolve_witness :
  exists doc k',
    sample_normalized = Some (doc, k')
    /\ length (blocks doc) = 3%nat
    /\ referential_integrity doc.
Proof.
  destruct sample_normalized as [[doc k']|] eqn:E;
    [|vm_compute in E; discriminate].
  exists doc, k'. split; [reflexivity|]. split.
  - vm_compute in E. injection E as <- _. reflexivity.
  - exact (references_resolve sample_rnd sample_digest "doc" sample_pages
             sample_merged sample_tables src_pdf 0%nat doc k' E).
Defined.

(** ** Normalised bounding boxes *)

Section NormAll.
Variable R : Q -> Q -> BBox -> option BBox -> Prop.

Lemma on_page_more pgs pgs' n bbox norm :
  on_page R pgs n bbox norm -> on_page R (pgs ++ pgs') n bbox norm.
Proof.
  intros (pg & H1 & H2). exists pg. split; [|exact H2].
  apply in_or_app. now left.
Qed.

Lemma on_block_page_more pgs pgs' bls bls' id bbox norm :
  on_block_page R pgs bls id bbox norm ->
  on_block_page R (pgs ++ pgs') (bls ++ bls') id bbox norm.
Proof.
  intros (b & H1 & H2 & H3). exists b.
  split; [apply in_or_app; now left|]. split; [exact H2|].
  now apply on_page_more.
Qed.

Lemma norm_all_more pgs bls sps tks tbs pgs' bls' :
  norm_all R pgs bls sps tks tbs ->
  Forall (fun b => on_page R (pgs ++ pgs') (b_page b) (b_bbox b)
                     (b_bbox_norm b)) bls' ->
  norm_all R (pgs ++ pgs') (bls ++ bls') sps tks tbs.
Proof.
  intros (H1 & H2 & H3 & H4) Hnew. split; [|split; [|split]].
  - apply Forall_app. split; [|exact Hnew].
    eapply Forall_impl; [exact H1|]. intros b. apply on_page_more.
  - eapply Forall_impl; [exact H2|]. intros s. apply on_block_page_more.
  - eapply Forall_impl; [exact H3|]. intros t. apply on_block_page_more.
  - eapply Forall_impl; [exact H4|]. intros t Ht.
    eapply Forall_impl; [exact Ht|]. intros c. apply on_page_more.
Qed.

Hypothesis HR : forall w h bbox,
  (0 < w)%Q -> (0 < h)%Q -> R w h bbox (Some (_normalize_bbox bbox w h)).

Lemma norm_within_on_page pd st bbox :
  norm_within R pd st ->
  on_page R (a_pages st) (pd_page_number pd) bbox
    (Some (_normalize_bbox bbox (pd_width pd) (pd_height pd))).
Proof using HR.
  intros (_ & Hw & Hh & pg & H1 & H2 & H3 & H4).
  exists pg. split; [exact H1|]. split; [exact H2|].
  rewrite H3, H4. now apply HR.
Qed.

Lemma assemble_norm (rnd : nat -> N)
  (merged_blocks : list (Z * list BlockDict))
  (tables_by_page : list (Z * list TableDict)) (pages_data : list PageData)
  (k : nat) (st : Asm) (k' : nat) :
  fold_run (assemble_page rnd merged_blocks tables_by_page) pages_data
    Asm_init k = Some (st, k') ->
  asm_norm R st.
Proof using HR.
  apply (assemble_pages_inv rnd merged_blocks tables_by_page (asm_norm R)
           (norm_within R)).
  - intros st0 pd page H E1 E2 E3 _ Hw Hh. split; [|split; [|split]].
    + unfold asm_norm, with_page. simpl.
      rewrite <- (app_nil_r (all_blocks st0)).
      apply norm_all_more; [exact H|constructor].
    + exact Hw.
    + exact Hh.
    + exists page. simpl. split; [apply in_or_app; right; now left|].
      now repeat split.
  - intros st0 pd bd j st' j' H Hin Hstep.
    apply emit_block_inv in Hstep as (_ & _ & _ & edges & _ & ->).
    assert (forall bbox,
              on_page R (a_pages st0) (pd_page_number pd) bbox
                (Some (_normalize_bbox bbox (pd_width pd) (pd_height pd))))
      as Hon by (intros bbox; now apply norm_within_on_page).
    destruct H as ((H1 & H2 & H3 & H4) & Hw & Hh & Hpg).
    set (id := emitted_id rnd j bd).
    assert (forall bbox, on_block_page R (a_pages st0)
              (all_blocks st0
               ++ [text_block id (pd_page_number pd) (pd_width pd)
                     (pd_height pd) bd]) id bbox
              (Some (_normalize_bbox bbox (pd_width pd) (pd_height pd))))
      as Hnew.
    { intros bbox. eexists. split; [apply in_or_app; right; now left|].
      split; [reflexivity|]. simpl. apply Hon. }
    split; [|now repeat split]. unfold asm_norm. simpl.
    split; [|split; [|split]].
    + apply Forall_app. split; [exact H1|]. constructor; [|constructor].
      simpl. apply Hon.
    + apply Forall_app. split.
      * eapply Forall_impl; [exact H2|]. intros s Hs.
        rewrite <- (app_nil_r (a_pages st0)).
        now apply on_block_page_more.
      * constructor; [|constructor]. simpl. apply Hnew.
    + apply Forall_app. split.
      * eapply Forall_impl; [exact H3|]. intros t Ht.
        rewrite <- (app_nil_r (a_pages st0)).
        now apply on_block_page_more.
      * apply Forall_forall. intros t Ht. apply list_elem_of_In in Ht.
        apply in_map_iff in Ht as (w & <- & _). simpl. apply Hnew.
    + exact H4.
  - intros st0 pd td j st' j' H Hin Hstep.
    apply emit_table_inv in Hstep as (_ & _ & Hstep).
    assert (forall bbox,
              on_page R (a_pages st0) (pd_page_number pd) bbox
                (Some (_normalize_bbox bbox (pd_width pd) (pd_height pd))))
      as Hon by (intros bbox; now apply norm_within_on_page).
    destruct H as ((H1 & H2 & H3 & H4) & Hw & Hh & Hpg).
    assert (Forall (fun c => on_page R (a_pages st0) (pd_page_number pd)
                               (tc_bbox c) (tc_bbox_norm c))
              (map (table_cell (pd_width pd) (pd_height pd)) (td_cells td)))
      as Hcells.
    { apply Forall_forall. intros c Hc. apply list_elem_of_In in Hc.
      apply in_map_iff in Hc as (cd & <- & _). simpl. apply Hon. }
    destruct (td_bbox td) as [bbox|].
    + destruct Hstep as (edges & _ & ->).
      split; [|now repeat split]. unfold asm_norm. simpl.
      split; [|split; [|split]].
      * apply Forall_app. split; [exact H1|]. constructor; [|constructor].
        simpl. apply Hon.
      * eapply Forall_impl; [exact H2|]. intros s Hs.
        rewrite <- (app_nil_r (a_pages st0)).
        now apply on_block_page_more.
      * eapply Forall_impl; [exact H3|]. intros t Ht.
        rewrite <- (app_nil_r (a_pages st0)).
        now apply on_block_page_more.
      * apply Forall_app. split; [exact H4|]. now constructor.
    + subst st'. split; [|now repeat split]. unfold asm_norm. simpl.
      split; [exact H1|]. split; [exact H2|]. split; [exact H3|].
      apply Forall_app. split; [exact H4|]. now constructor.
  - intros st0 pd H. apply H.
  - repeat split; constructor.
Qed.
End NormAll.

Lemma half_micro : ((1 # 2) / pow10 6 == 1 # 2000000)%Q.
Proof. reflexivity. Qed.

Lemma normalize_component (x w : Q) :
  (0 < w)%Q ->
  near (1 # 2000000) (Py.round (x / w) 6) (x / w)
  /\ ((0 <= x /\ x <= w)%Q -> unit_interval (Py.round (x / w) 6)).
Proof.
  intros Hw. split.
  - unfold near. rewrite <- half_micro. apply round_near.
  - intros [H0 H1]. apply round_unit.
    + apply Qle_shift_div_l; [exact Hw|]. lra.
    + apply Qle_shift_div_r; [exact Hw|]. lra.
Qed.

Lemma normalize_rounded (w h : Q) (bbox : BBox) :
  (0 < w)%Q -> (0 < h)%Q ->
  norm_rounded w h bbox (Some (_normalize_bbox bbox w h)).
Proof.
  intros Hw Hh. unfold _normalize_bbox.
  assert (Py.leb w 0 = false) as -> by now apply leb_false.
  assert (Py.leb h 0 = false) as -> by now apply leb_false.
  simpl. eexists. split; [reflexivity|]. simpl.
  destruct (normalize_component (bx0 bbox) w Hw) as [A1 A2].
  destruct (normalize_component (by0 bbox) h Hh) as [B1 B2].
  destruct (normalize_component (bx1 bbox) w Hw) as [C1 C2].
  destruct (normalize_component (by1 bbox) h Hh) as [D1 D2].
  split; [exact A1|]. split; [exact B1|]. split; [exact C1|].
  split; [exact D1|]. split; [exact A2|]. split; [exact B2|].
  split; [exact C2|exact D2].
Qed.




(** ** Reading order *)

Lemma fold_emit_block_blocks rnd pn w h (l : list BlockDict) :
  forall st k st' k',
    fold_run (emit_block rnd pn w h) l st k = Some (st', k') ->
    all_blocks st' = all_blocks st ++ text_blocks_from rnd k pn w h l
    /\ a_pages st' = a_pages st.
Proof.
  induction l as [|bd l IH]; intros st k st' k' H; simpl in H.
  - apply ret_Some in H as [-> _]. simpl. now rewrite app_nil_r.
  - apply bind_Some in H as (st1 & k1 & H1 & H).
    apply emit_block_inv in H1 as (-> & _ & _ & edges & _ & ->).
    apply IH in H as [H ->]. rewrite H. simpl. now rewrite <- app_assoc.
Qed.

Lemma fold_emit_table_blocks pn w h (l : list TableDict) :
  forall st k st' k',
    fold_run (emit_table pn w h) l st k = Some (st', k') ->
    all_blocks st'
    = all_blocks st ++ table_blocks_from (length (all_blocks st)) pn w h l
    /\ a_pages st' = a_pages st.
Proof.
  induction l as [|td l IH]; intros st k st' k' H; simpl in H.
  - apply ret_Some in H as [-> _]. simpl. now rewrite app_nil_r.
  - apply bind_Some in H as (st1 & k1 & H1 & H).
    apply emit_table_inv in H1 as (-> & _ & H1). simpl.
    destruct (td_bbox td) as [bbox|].
    + destruct H1 as (edges & _ & ->). apply IH in H as [H ->].
      rewrite H. simpl. rewrite length_app, <- app_assoc. simpl.
      now rewrite Nat.add_1_r.
    + subst st1. now apply IH in H.
Qed.

Lemma assemble_pages_blocks rnd merged_blocks tables_by_page
  (pages_data : list PageData) :
  forall st k st' k',
    fold_run (assemble_page rnd merged_blocks tables_by_page) pages_data
      st k = Some (st', k') ->
    exists segs,
      segments_ok rnd merged_blocks tables_by_page (length (all_blocks st))
        pages_data segs
      /\ all_blocks st' = all_blocks st ++ concat (map seg_blocks segs)
      /\ map pg_page_number (a_pages st')
         = map pg_page_number (a_pages st) ++ map pd_page_number pages_data.
Proof.
  induction pages_data as [|pd pds IH]; intros st k st' k' H; simpl in H.
  - apply ret_Some in H as [-> _]. exists []. simpl.
    now rewrite !app_nil_r.
  - apply bind_Some in H as (st1 & k1 & H1 & H).
    apply assemble_page_inv in H1
      as (page & st2 & k2 & E1 & _ & _ & _ & _ & _ & Hb & Ht).
    apply fold_emit_block_blocks in Hb as [Hb Hp2].
    apply fold_emit_table_blocks in Ht as [Ht Hp1].
    simpl in Hb, Hp2. rewrite Hb in Ht.
    apply IH in H as (segs & Hs & Hbl & Hpg).
    set (txt := text_blocks_from rnd k (pd_page_number pd) (pd_width pd)
                  (pd_height pd) (page_blocks merged_blocks pd)) in *.
    set (tbl := table_blocks_from (length (all_blocks st ++ txt))
                  (pd_page_number pd) (pd_width pd) (pd_height pd)
                  (page_tables tables_by_page pd)) in *.
    exists ((txt, tbl) :: segs). split; [|split].
    + simpl. split.
      * split; [now exists k|]. simpl. subst tbl.
        now rewrite length_app.
      * unfold seg_blocks at 1. simpl. rewrite Ht in Hs.
        rewrite !length_app in Hs. rewrite length_app.
        now rewrite Nat.add_assoc.
    + rewrite Hbl, Ht. simpl. unfold seg_blocks at 2. simpl.
      now rewrite <- !app_assoc.
    + rewrite Hpg, Hp1, Hp2. simpl. rewrite map_app. simpl.
      rewrite E1. now rewrite <- app_assoc.
Qed.

Lemma sorted_id {A} (lt : A -> A -> bool) (l : list A) :
  StronglySorted (fun a b => lt b a = false) l -> Py.sorted lt l = l.
Proof.
  induction 1 as [|x l Hs IH Hx]; [reflexivity|].
  simpl. rewrite IH. destruct l as [|y l]; [reflexivity|].
  simpl. apply Forall_cons_1 in Hx as [Hy _]. now rewrite Hy.
Qed.

Lemma counted_sorted {A} (key : A -> Z) (l : list A) (s : nat) :
  counted_from s (map key l) ->
  StronglySorted (fun a b => Py.lt_keyZ key b a = false) l.
Proof.
  unfold counted_from. rewrite length_map.
  revert s. induction l as [|x l IH]; intros s H; [constructor|].
  simpl in H. injection H as Hx Hl. constructor; [exact (IH _ Hl)|].
  apply Forall_forall. intros y Hy. apply list_elem_of_In in Hy.
  unfold Py.lt_keyZ. apply Z.ltb_ge.
  assert (In (key y) (map key l)) as Hin by now apply in_map.
  rewrite Hl in Hin. apply in_map_iff in Hin as (i & <- & Hi).
  apply in_seq in Hi. lia.
Qed.

Lemma guess_not_table (b : BlockDict) :
  _safe_block_type (_guess_block_type b) <> table.
Proof.
  unfold _guess_block_type.
  repeat match goal with
         | |- context [if ?c then _ else _] => destruct c
         end; discriminate.
Qed.

Lemma enumerate_map_keys {A B} (f : Z -> A -> B) (key : B -> Z)
  (l : list A) :
  (forall i x, key (f i x) = i) ->
  counted_from 0 (map key (enumerate_map f l)).
Proof.
  intros Hf. unfold counted_from, enumerate_map, Py.enumerate.
  rewrite !length_map.
  assert (forall s, map key (map (fun '(i, x) => f i x)
                               (combine (map Z.of_nat (seq s (length l))) l))
                    = map Z.of_nat (seq s (length l))) as H.
  { induction l as [|x l IH]; intros s; [reflexivity|].
    simpl. now rewrite Hf, IH. }
  rewrite H. f_equal. f_equal.
  rewrite length_combine, length_map, length_seq. lia.
Qed.

Lemma heuristic_page_classified (sha : string -> string)
  (bl : list BlockDict) :
  heuristic_page (map (styled sha) (enumerate_map classify_heuristic bl)).
Proof.
  split.
  - rewrite map_map.
    rewrite (map_ext _ reading_order_key) by reflexivity.
    now apply enumerate_map_keys.
  - apply Forall_forall. intros b Hb. apply list_elem_of_In in Hb.
    apply in_map_iff in Hb as (b' & <- & Hb).
    unfold enumerate_map in Hb.
    apply in_map_iff in Hb as ([i x] & <- & _). simpl.
    apply guess_not_table.
Qed.

Lemma text_blocks_from_props rnd k pn w h (l : list BlockDict) :
  let txt := text_blocks_from rnd k pn w h l in
  length txt = length l
  /\ map b_reading_order txt = map reading_order_key l
  /\ Forall (fun b => b_page b = pn) txt
  /\ (Forall (fun b => _safe_block_type
                         (default "paragraph" (bd_block_type b)) <> table)
        l ->
      Forall (fun b => b_type b <> table) txt).
Proof.
  revert k. induction l as [|bd l IH]; intros k; simpl.
  - repeat split; constructor.
  - destruct (IH (S k)) as (H1 & H2 & H3 & H4).
    split; [now rewrite H1|]. split; [now rewrite H2|].
    split; [now constructor|].
    intros H. apply Forall_cons_1 in H as [Hb Hl].
    constructor; [exact Hb|now apply H4].
Qed.

Lemma table_blocks_from_props n pn w h (l : list TableDict) :
  let tbl := table_blocks_from n pn w h l in
  map b_reading_order tbl = map Z.of_nat (seq n (length tbl))
  /\ Forall (fun b => b_page b = pn) tbl
  /\ Forall (fun b => b_type b = table) tbl.
Proof.
  revert n. induction l as [|td l IH]; intros n; simpl.
  - repeat split; constructor.
  - destruct (td_bbox td) as [bbox|]; [|apply IH].
    destruct (IH (S n)) as (H1 & H2 & H3). simpl.
    split; [now rewrite H1|]. split; now constructor.
Qed.

Lemma page_segment_on_page rnd merged_blocks tables_by_page n pd seg :
  page_segment_ok rnd merged_blocks tables_by_page n pd seg ->
  Forall (fun b => b_page b = pd_page_number pd) (seg_blocks seg).
Proof.
  intros [[k Ht] Hb]. unfold seg_blocks. apply Forall_app. split.
  - rewrite Ht. apply text_blocks_from_props.
  - rewrite Hb. apply table_blocks_from_props.
Qed.

Lemma segments_on_pages rnd merged_blocks tables_by_page
  (pages_data : list PageData) :
  forall n segs,
    segments_ok rnd merged_blocks tables_by_page n pages_data segs ->
    Forall (fun b => In (b_page b) (map pd_page_number pages_data))
      (concat (map seg_blocks segs)).
Proof.
  induction pages_data as [|pd pds IH]; intros n [|seg segs] H;
    simpl in H; try contradiction; [constructor|].
  destruct H as [H1 H2]. simpl. apply Forall_app. split.
  - eapply Forall_impl; [exact (page_segment_on_page _ _ _ _ _ _ H1)|].
    intros b Hb. now left.
  - eapply Forall_impl; [exact (IH _ _ H2)|]. intros b Hb. now right.
Qed.

(** With distinct page numbers, the blocks of a page form one segment
    of the block list. *)
Lemma segments_page rnd merged_blocks tables_by_page
  (pages_data : list PageData) :
  forall n segs pd,
    NoDup (map pd_page_number pages_data) ->
    segments_ok rnd merged_blocks tables_by_page n pages_data segs ->
    In pd pages_data ->
    exists pre seg post,
      concat (map seg_blocks segs) = pre ++ seg_blocks seg ++ post
      /\ page_segment_ok rnd merged_blocks tables_by_page (n + length pre)
           pd seg
      /\ Forall (fun b => b_page b <> pd_page_number pd) pre
      /\ Forall (fun b => b_page b <> pd_page_number pd) post.
Proof.
  induction pages_data as [|pd0 pds IH]; intros n segs pd Hnd H Hin;
    [destruct Hin|].
  destruct segs as [|seg segs]; simpl in H; [contradiction|].
  destruct H as [H1 H2]. apply NoDup_cons in Hnd as [Hnotin Hnd].
  destruct Hin as [->|Hin].
  - exists [], seg, (concat (map seg_blocks segs)). simpl.
    split; [reflexivity|]. split; [now rewrite Nat.add_0_r|].
    split; [constructor|].
    eapply Forall_impl; [exact (segments_on_pages _ _ _ _ _ _ H2)|].
    intros b Hb E. apply Hnotin. apply list_elem_of_In. now rewrite <- E.
  - destruct (IH _ _ _ Hnd H2 Hin) as (pre & s & post & E & Hs & Hpre & Hpost).
    exists (seg_blocks seg ++ pre), s, post. simpl.
    split; [now rewrite E, <- app_assoc|].
    split; [now rewrite length_app, Nat.add_assoc|].
    split; [|exact Hpost]. apply Forall_app. split; [|exact Hpre].
    eapply Forall_impl; [exact (page_segment_on_page _ _ _ _ _ _ H1)|].
    intros b Hb E'. apply Hnotin. apply list_elem_of_In.
    rewrite <- Hb, E'. now apply in_map.
Qed.

Lemma filter_all {A} (f : A -> bool) (l : list A) :
  Forall (fun x => f x = true) l -> List.filter f l = l.
Proof.
  induction 1 as [|x l Hx _ IH]; simpl; [reflexivity|].
  now rewrite Hx, IH.
Qed.

Lemma filter_none {A} (f : A -> bool) (l : list A) :
  Forall (fun x => f x = false) l -> List.filter f l = [].
Proof.
  induction 1 as [|x l Hx _ IH]; simpl; [reflexivity|]. now rewrite Hx.
Qed.

Lemma page_blocks_heuristic merged_blocks pd :
  (forall i bds, In (i, bds) merged_blocks -> heuristic_page bds) ->
  heuristic_page (page_blocks merged_blocks pd).
Proof.
  intros H. unfold page_blocks.
  destruct (Py.dict_get _ merged_blocks) as [bds|] eqn:E; simpl.
  - apply dict_get_In in E. pose proof (H _ _ E) as [H1 H2].
    rewrite (sorted_id _ _ (counted_sorted _ _ _ H1)). now split.
  - split; [reflexivity|constructor].
Qed.

Lemma assemble_reading_order (rnd : nat -> N) (doc_id : string)
  (pages_data : list PageData) (merged_blocks : list (Z * list BlockDict))
  (tables_by_page : list (Z * list TableDict))
  (styles_ : gmap string StyleDict) (source_type : SourceType) (k : nat)
  (doc : LayoutDocument) (k' : nat) :
  NoDup (map pd_page_number pages_data) ->
  (forall i bds, In (i, bds) merged_blocks -> heuristic_page bds) ->
  assemble_document rnd doc_id pages_data merged_blocks tables_by_page
    styles_ source_type k = Some (doc, k') ->
  forall pg, In pg (pages doc) -> page_reading_order doc (pg_page_number pg).
Proof.
  intros Hnd Hh H pg Hpg.
  apply assemble_document_inv in H as (st & Hf & _ & Hp & Hb & _).
  apply assemble_pages_blocks in Hf as (segs & Hs & Hbl & Hnum).
  simpl in Hs, Hbl, Hnum.
  assert (exists pd, In pd pages_data
                     /\ pd_page_number pd = pg_page_number pg)
    as (pd & Hpd & Epd).
  { assert (In (pg_page_number pg) (map pd_page_number pages_data)) as Hin.
    { rewrite <- Hnum, <- Hp. now apply in_map. }
    apply in_map_iff in Hin as (pd & E & Hin). now exists pd. }
  destruct (segments_page _ _ _ _ _ _ _ Hnd Hs Hpd)
    as (pre & [txt tbl] & post & E & [[j Ht] Htb] & Hpre & Hpost).
  simpl in Ht, Htb. change (seg_blocks (txt, tbl)) with (txt ++ tbl) in E.
  pose proof (page_blocks_heuristic merged_blocks pd Hh) as [Hc Hty].
  destruct (text_blocks_from_props rnd j (pd_page_number pd) (pd_width pd)
              (pd_height pd) (page_blocks merged_blocks pd))
    as (T1 & T2 & T3 & T4).
  rewrite <- Ht in T1, T2, T3, T4.
  destruct (table_blocks_from_props (length pre + length txt)
              (pd_page_number pd) (pd_width pd) (pd_height pd)
              (page_tables tables_by_page pd)) as (B1 & B2 & B3).
  rewrite <- Htb in B1, B2, B3.
  assert (counted_from 0 (map b_reading_order txt)) as Hct.
  { unfold counted_from. rewrite length_map, T2, T1.
    unfold counted_from in Hc. now rewrite length_map in Hc. }
  exists pre, txt, tbl, post. rewrite Hb, Hbl, E, <- Epd.
  split; [now rewrite <- app_assoc|]. split; [|split; [|split; [|split]]].
  - unfold blocks_on. rewrite Hb, Hbl, E, !List.filter_app.
    rewrite (filter_none _ pre), (filter_none _ post),
      (filter_all _ txt), (filter_all _ tbl).
    + now rewrite app_nil_r.
    + eapply Forall_impl; [exact B2|]. intros b ->. apply Z.eqb_refl.
    + eapply Forall_impl; [exact T3|]. intros b ->. apply Z.eqb_refl.
    + eapply Forall_impl; [exact Hpost|]. intros b Hne.
      now apply Z.eqb_neq.
    + eapply Forall_impl; [exact Hpre|]. intros b Hne.
      now apply Z.eqb_neq.
  - now apply T4.
  - exact B3.
  - exact Hct.
  - intros ->. simpl in B1. unfold counted_from in *.
    rewrite length_map, length_app, seq_app, !map_app.
    rewrite length_map in Hct. simpl. now rewrite <- Hct, <- B1.
Qed.

Lemma NoDup_map_filter {A B} (f : A -> B) (p : A -> bool) (l : list A) :
  NoDup (map f l) -> NoDup (map f (List.filter p l)).
Proof.
  induction l as [|x l IH]; simpl; intros H; [constructor|].
  apply NoDup_cons in H as [Hx Hl]. destruct (p x); simpl; [|now apply IH].
  apply NoDup_cons. split; [|now apply IH].
  intros Hin. apply Hx. apply list_elem_of_In in Hin.
  apply list_elem_of_In. apply in_map_iff in Hin as (y & E & Hy).
  apply filter_In in Hy as [Hy _]. rewrite <- E. now apply in_map.
Qed.

Lemma extract_page_numbers (pdf : list PdfPage) :
  map pd_page_number (extract_chars_from_pdf pdf)
  = map (fun i => Z.of_nat i + 1) (seq 0 (length pdf)).
Proof.
  unfold extract_chars_from_pdf, Py.enumerate.
  generalize 0%nat as s.
  induction pdf as [|p pdf IH]; intros s; [reflexivity|].
  simpl. now rewrite IH.
Qed.

Lemma extract_pages_NoDup (pdf : list PdfPage) :
  NoDup (map pd_page_number (extract_chars_from_pdf pdf)).
Proof.
  rewrite extract_page_numbers. apply NoDup_ListNoDup.
  apply Finite.Injective_map_NoDup; [|apply seq_NoDup].
  intros a b H. lia.
Qed.

(** C1, as stated, fails with the tagger disabled: the reading orders
    are 0 on page 1 and 0, 2 on page 2, so page 2 does not carry {0, 1},
    and the order does not grow from the first block to the second. *)
Lemma reading_order_restarts_and_skips :
  exists doc k',
    two_page_run = Some (doc, k')
    /\ map (fun b => (b_page b, b_type b, b_reading_order b)) (blocks doc)
       = [(1, paragraph, 0); (2, paragraph, 0); (2, table, 2)]
    /\ ~ reading_order_per_page doc
    /\ ~ reading_order_across doc.
Proof.
  destruct two_page_run as [[doc k']|] eqn:E;
    [|vm_compute in E; discriminate].
  vm_compute in E. injection E as <- <-.
  eexists _, _. split; [reflexivity|]. split; [|split].
  - vm_compute. reflexivity.
  - intros H.
    specialize (H _ (or_intror (or_introl eq_refl)) 1). simpl in H.
    destruct H as [_ H]. destruct H as [H|[H|[]]]; [lia|discriminate..].
  - intros H. specialize (H 0%nat _ _ eq_refl eq_refl). simpl in H.
    discriminate.
Qed.

(** C1, amended.  For every PDF processed with the tagger disabled and
    every page of the assembled document: the page's blocks are one
    segment of the block list, its text blocks come first and carry the
    reading orders 0, 1, ..., k-1 in emission order (the numbering
    restarts on every page), its synthetic table blocks follow, and when
    no block precedes the page's blocks in the document the table blocks
    continue the numbering, so that the page carries exactly 0..n-1. *)
Theorem reading_order_per_page_text (rnd : nat -> N)
  (sha : string -> string) (ratio : string -> string -> Q)
  (tagger : list (Z * list BlockDict) -> option (list (Z * list Tag)))
  (pdf : list PdfPage) (page_range : option string) (k : nat)
  (doc : LayoutDocument) (k' : nat) :
  process_pdf rnd sha ratio tagger pdf false page_range k = Some (doc, k') ->
  forall pg, In pg (pages doc) -> page_reading_order doc (pg_page_number pg).
Proof.
  unfold process_pdf. intros H.
  apply bind_Some in H as (doc_id & k1 & _ & H). cbv zeta in H.
  apply bind_Some in H as (results & k2 & _ & H).
  destruct (collect_geometry results) as [merged0 tables0].
  unfold classify, normalize_and_assemble in H. cbv zeta in H.
  revert H. apply assemble_reading_order.
  - destruct page_range as [r|]; [|apply extract_pages_NoDup].
    destruct (Py.truthy r); [|apply extract_pages_NoDup].
    apply NoDup_map_filter, extract_pages_NoDup.
  - intros i bds Hin.
    apply on_pages_In in Hin as (bds1 & Hin & ->).
    apply on_pages_In in Hin as (bds0 & _ & ->).
    apply heuristic_page_classified.
Qed.

Lemma reading_order_per_page_text_witness :
  exists doc k',
    process_pdf sample_rnd sample_digest matcher_ratio (fun _ => None)
      two_page_pdf false None 0%nat = Some (doc, k')
    /\ length (pages doc) = 2%nat
    /\ page_reading_order doc 2.
Proof.
  destruct (process_pdf sample_rnd sample_digest matcher_ratio
              (fun _ => None) two_page_pdf false None 0%nat)
    as [[doc k']|] eqn:E; [|vm_compute in E; discriminate].
  exists doc, k'. split; [reflexivity|].
  assert (length (pages doc) = 2%nat
          /\ exists pg, In pg (pages doc) /\ pg_page_number pg = 2)
    as [Hlen (pg & Hpg & <-)].
  { pose proof E as E'. vm_compute in E'. injection E' as <- _.
    split; [reflexivity|]. eexists. split; [right; left; reflexivity|].
    reflexivity. }
  split; [exact Hlen|].
  exact (reading_order_per_page_text sample_rnd sample_digest matcher_ratio
           (fun _ => None) two_page_pdf None 0%nat doc k' E pg Hpg).
Defined.

(** ** Determinism up to identifiers *)

Lemma run_rel_ret {A B} (R : A -> B -> Prop) (a : A) (b : B) :
  R a b -> run_rel R (ret a) (ret b).
Proof. intros H k1 k2. exact H. Qed.

Lemma run_rel_bind {A B A' B'} (R : A -> B -> Prop) (S : A' -> B' -> Prop)
  (m1 : Run A) (m2 : Run B) (f1 : A -> Run A') (f2 : B -> Run B') :
  run_rel R m1 m2 ->
  (forall a b, R a b -> run_rel S (f1 a) (f2 b)) ->
  run_rel S (bind m1 f1) (bind m2 f2).
Proof.
  intros Hm Hf k1 k2. unfold bind. specialize (Hm k1 k2).
  destruct (m1 k1) as [[a j1]|], (m2 k2) as [[b j2]|]; simpl in Hm;
    try contradiction; [|exact I].
  apply Hf, Hm.
Qed.

Lemma run_rel_lift {A B} (R : A -> B -> Prop) (o1 : option A)
  (o2 : option B) :
  option_Forall2 R o1 o2 -> run_rel R (lift o1) (lift o2).
Proof. intros [a b H|] k1 k2; simpl; [exact H|exact I]. Qed.

Lemma run_rel_uuid4 (rnd1 rnd2 : nat -> N) :
  run_rel (fun a b => a <> "" /\ b <> "") (uuid4 rnd1) (uuid4 rnd2).
Proof. intros k1 k2. simpl. split; apply str_uuid_nonempty. Qed.

Lemma run_rel_for_each {A B A' B'} (P : A -> B -> Prop)
  (R : A' -> B' -> Prop) (f1 : A -> Run A') (f2 : B -> Run B')
  (l1 : list A) (l2 : list B) :
  Forall2 P l1 l2 ->
  (forall x y, P x y -> run_rel R (f1 x) (f2 y)) ->
  run_rel (Forall2 R) (for_each f1 l1) (for_each f2 l2).
Proof.
  intros Hl Hf. induction Hl as [|x y l1 l2 Hxy _ IH]; simpl.
  - apply run_rel_ret. constructor.
  - apply (run_rel_bind R); [now apply Hf|]. intros a b Hab.
    apply (run_rel_bind (Forall2 R)); [exact IH|]. intros la lb Hlab.
    apply run_rel_ret. now constructor.
Qed.

Lemma run_rel_fold {S1 S2 A B} (P : A -> B -> Prop) (R : S1 -> S2 -> Prop)
  (f1 : S1 -> A -> Run S1) (f2 : S2 -> B -> Run S2)
  (l1 : list A) (l2 : list B) :
  Forall2 P l1 l2 ->
  (forall s1 s2 x y, R s1 s2 -> P x y -> run_rel R (f1 s1 x) (f2 s2 y)) ->
  forall s1 s2, R s1 s2 -> run_rel R (fold_run f1 l1 s1) (fold_run f2 l2 s2).
Proof.
  intros Hl Hf. induction Hl as [|x y l1 l2 Hxy _ IH]; intros s1 s2 Hs;
    simpl.
  - now apply run_rel_ret.
  - apply (run_rel_bind R); [now apply Hf|]. exact IH.
Qed.

Lemma truthy_true (s : string) : s <> "" -> Py.truthy s = true.
Proof. destruct s; [congruence|reflexivity]. Qed.

Lemma chain_edge_rel (st1 st2 : Asm) (id1 id2 : string) :
  same_asm st1 st2 ->
  exists e1 e2,
    chain_edge (prev_block_id st1) id1 (all_edges st1) = Some e1
    /\ chain_edge (prev_block_id st2) id2 (all_edges st2) = Some e2
    /\ map erase_edge e1 = map erase_edge e2.
Proof.
  intros (_ & _ & _ & _ & _ & He & Hp). unfold prev_truthy in Hp.
  unfold chain_edge.
  destruct (prev_block_id st1) as [p1|], (prev_block_id st2) as [p2|];
    try destruct (Py.truthy p1); try destruct (Py.truthy p2);
    try discriminate; simpl; eexists _, _;
    (split; [reflexivity|split; [reflexivity|]]);
    rewrite ?map_app, ?He; reflexivity.
Qed.

Lemma same_asm_length (st1 st2 : Asm) :
  same_asm st1 st2 -> length (all_blocks st1) = length (all_blocks st2).
Proof.
  intros (_ & H & _).
  now rewrite <- (length_map erase_block), H, length_map.
Qed.

Lemma emit_block_rel (rnd1 rnd2 : nat -> N) (pn : Z) (w h : Q)
  (st1 st2 : Asm) (bd1 bd2 : BlockDict) :
  same_asm st1 st2 -> same_bd bd1 bd2 ->
  run_rel same_asm (emit_block rnd1 pn w h st1 bd1)
    (emit_block rnd2 pn w h st2 bd2).
Proof.
  intros Hs (i1 & i2 & N1 & N2 & E1 & ->) k1 k2.
  destruct (chain_edge_rel st1 st2 i1 i2 Hs) as (e1 & e2 & H1 & H2 & He).
  destruct Hs as (Hp & Hb & Hsp & Htk & Htb & _ & _).
  unfold emit_block, bind, uuid4, lift, ret, new_Block.
  cbn [bd_id with_id default b_page b_reading_order text_block
       bd_reading_order].
  rewrite E1. cbn [default]. unfold id.
  destruct ((1 <=? pn) && (0 <=? _));
    [|exact I].
  rewrite H1, H2.
  unfold outcome_rel, same_asm, prev_truthy.
  cbn [a_pages all_blocks all_spans all_tokens all_tables all_edges
       prev_block_id].
  rewrite !map_app, Hb, Hsp, Htk, Htb, !map_map.
  rewrite (truthy_true _ N1), (truthy_true _ N2).
  repeat split; try assumption; reflexivity.
Qed.

Lemma emit_table_rel (pn : Z) (w h : Q) (st1 st2 : Asm)
  (td1 td2 : TableDict) :
  same_asm st1 st2 -> same_td td1 td2 ->
  run_rel same_asm (emit_table pn w h st1 td1) (emit_table pn w h st2 td2).
Proof.
  intros Hs (i2 & N1 & N2 & ->) k1 k2.
  destruct (chain_edge_rel st1 st2 (td_id td1) i2 Hs)
    as (e1 & e2 & H1 & H2 & He).
  pose proof (same_asm_length _ _ Hs) as Hlen.
  destruct Hs as (Hp & Hb & Hsp & Htk & Htb & Hed & Hpt).
  unfold emit_table, bind, lift, ret, new_Table, new_Block.
  cbn [td_id td_bbox td_cells td_rows td_cols with_td_id t_page t_rows
       t_cols b_page b_reading_order table_block].
  destruct (mapM _ (td_cells td1)) as [cells|]; [|exact I].
  destruct ((1 <=? pn) && (1 <=? td_rows td1) && (1 <=? td_cols td1));
    [|exact I].
  destruct (td_bbox td1) as [bbox|].
  - rewrite Hlen.
    destruct ((1 <=? pn) && (0 <=? Z.of_nat (length (all_blocks st2))));
      [|exact I].
    rewrite H1, H2.
    unfold outcome_rel, same_asm, prev_truthy.
    cbn [a_pages all_blocks all_spans all_tokens all_tables all_edges
         prev_block_id].
    rewrite !map_app, Hb, Htb.
    rewrite (truthy_true _ N1), (truthy_true _ N2).
    repeat split; try assumption; reflexivity.
  - unfold outcome_rel, same_asm, prev_truthy.
    cbn [a_pages all_blocks all_spans all_tokens all_tables all_edges
         prev_block_id].
    rewrite !map_app, Htb.
    repeat split; try assumption; reflexivity.
Qed.

Lemma dict_get_rel {A} (R : A -> A -> Prop) (d1 d2 : list (Z * list A))
  (k : Z) :
  same_dict R d1 d2 ->
  Forall2 R (default [] (Py.dict_get k d1)) (default [] (Py.dict_get k d2)).
Proof.
  induction 1 as [|[k1 l1] [k2 l2] d1 d2 [Hk Hl] _ IH]; simpl.
  - constructor.
  - simpl in Hk, Hl. subst k2. destruct (k =? k1); [exact Hl|exact IH].
Qed.

Lemma insert_rel {A} (R : A -> A -> Prop) (lt : A -> A -> bool) :
  (forall a1 a2 b1 b2, R a1 a2 -> R b1 b2 -> lt a1 b1 = lt a2 b2) ->
  forall x1 x2 l1 l2, R x1 x2 -> Forall2 R l1 l2 ->
    Forall2 R (Py.insert lt x1 l1) (Py.insert lt x2 l2).
Proof.
  intros Hlt x1 x2 l1 l2 Hx Hl.
  induction Hl as [|y1 y2 l1 l2 Hy Hl IH]; simpl.
  - constructor; [exact Hx|constructor].
  - rewrite (Hlt _ _ _ _ Hy Hx). destruct (lt y2 x2).
    + constructor; [exact Hy|exact IH].
    + constructor; [exact Hx|]. constructor; [exact Hy|exact Hl].
Qed.

Lemma sorted_rel {A} (R : A -> A -> Prop) (lt : A -> A -> bool) :
  (forall a1 a2 b1 b2, R a1 a2 -> R b1 b2 -> lt a1 b1 = lt a2 b2) ->
  forall l1 l2, Forall2 R l1 l2 ->
    Forall2 R (Py.sorted lt l1) (Py.sorted lt l2).
Proof.
  intros Hlt l1 l2 Hl. induction Hl as [|x1 x2 l1 l2 Hx _ IH]; simpl.
  - constructor.
  - now apply insert_rel.
Qed.

Lemma same_bd_key (a1 a2 b1 b2 : BlockDict) :
  same_bd a1 a2 -> same_bd b1 b2 ->
  Py.lt_keyZ reading_order_key a1 b1 = Py.lt_keyZ reading_order_key a2 b2.
Proof.
  intros (? & ? & _ & _ & _ & ->) (? & ? & _ & _ & _ & ->). reflexivity.
Qed.

Lemma assemble_page_rel (rnd1 rnd2 : nat -> N)
  (m1 m2 : list (Z * list BlockDict)) (t1 t2 : list (Z * list TableDict))
  (st1 st2 : Asm) (pd : PageData) :
  same_dict same_bd m1 m2 -> same_dict same_td t1 t2 ->
  same_asm st1 st2 ->
  run_rel same_asm (assemble_page rnd1 m1 t1 st1 pd)
    (assemble_page rnd2 m2 t2 st2 pd).
Proof.
  intros Hm Ht Hs. unfold assemble_page.
  apply (run_rel_bind eq).
  { apply run_rel_lift. destruct (new_Page _ _ _ _); now constructor. }
  intros page ? <-.
  apply (run_rel_bind same_asm).
  - apply (run_rel_fold same_bd).
    + apply sorted_rel; [exact same_bd_key|]. now apply dict_get_rel.
    + intros s1 s2 x y Hs' Hxy. now apply emit_block_rel.
    + destruct Hs as (Hp & Hb & Hsp & Htk & Htb & Hed & Hpt).
      unfold same_asm, prev_truthy. simpl. rewrite Hp.
      repeat split; assumption.
  - intros s1 s2 Hs'. apply (run_rel_fold same_td).
    + now apply dict_get_rel.
    + intros a b x y Hab Hxy. now apply emit_table_rel.
    + exact Hs'.
Qed.

Lemma or_None_map {A B} (f : A -> B) (l : list A) :
  map f <$> or_None l = or_None (map f l).
Proof. destruct l; reflexivity. Qed.

Lemma assemble_document_rel (rnd1 rnd2 : nat -> N) (id1 id2 : string)
  (pages_data : list PageData) (m1 m2 : list (Z * list BlockDict))
  (t1 t2 : list (Z * list TableDict)) (styles_ : gmap string StyleDict)
  (source_type : SourceType) :
  same_dict same_bd m1 m2 -> same_dict same_td t1 t2 ->
  run_rel (fun d1 d2 => erase_ids d1 = erase_ids d2)
    (assemble_document rnd1 id1 pages_data m1 t1 styles_ source_type)
    (assemble_document rnd2 id2 pages_data m2 t2 styles_ source_type).
Proof.
  intros Hm Ht. unfold assemble_document.
  apply (run_rel_bind same_asm).
  - apply (run_rel_fold eq).
    + apply Forall2_same. reflexivity.
    + intros s1 s2 x ? Hs <-. now apply assemble_page_rel.
    + repeat split.
  - intros s1 s2 (Hp & Hb & Hsp & Htk & Htb & Hed & _).
    apply run_rel_ret. unfold erase_ids. simpl.
    rewrite !or_None_map, Hp, Hb, Hsp, Htk, Htb, Hed. reflexivity.
Qed.

Lemma merge_lines_rel (rnd1 rnd2 : nat -> N) (lines : list Line) :
  run_rel same_bd (_merge_lines rnd1 lines) (_merge_lines rnd2 lines).
Proof.
  destruct lines as [|ln lns]; intros k1 k2; [exact I|].
  simpl. eexists _, _. split; [apply str_uuid_nonempty|].
  split; [apply (str_uuid_nonempty (uuid4_int (rnd2 k2)))|].
  split; reflexivity.
Qed.

Lemma build_blocks_rel (rnd1 rnd2 : nat -> N) (lines : list Line) :
  run_rel (Forall2 same_bd) (build_blocks rnd1 lines)
    (build_blocks rnd2 lines).
Proof.
  unfold build_blocks. destruct (Py.sorted _ lines) as [|l0 rest].
  - apply run_rel_ret. constructor.
  - apply (run_rel_bind eq).
    + apply run_rel_lift. destruct (blocks_loop _ _ _); now constructor.
    + intros groups ? <-. apply (run_rel_for_each eq).
      * apply Forall2_same. reflexivity.
      * intros x ? <-. apply merge_lines_rel.
Qed.

Lemma Forall2_concat {A B} (R : A -> B -> Prop) (l1 : list (list A))
  (l2 : list (list B)) :
  Forall2 (Forall2 R) l1 l2 -> Forall2 R (concat l1) (concat l2).
Proof.
  induction 1 as [|x y l1 l2 Hxy _ IH]; simpl; [constructor|].
  now apply Forall2_app.
Qed.

Lemma table_of_detected_rel (rnd1 rnd2 : nat -> N) (page_number : Z)
  (tbl : Detected) :
  run_rel (Forall2 same_td) (table_of_detected rnd1 page_number tbl)
    (table_of_detected rnd2 page_number tbl).
Proof.
  unfold table_of_detected. destruct (dt_data tbl) as [|row rows].
  - apply run_rel_ret. constructor.
  - intros k1 k2. simpl. constructor; [|constructor].
    eexists. split; [apply str_uuid_nonempty|].
    split; [apply (str_uuid_nonempty (uuid4_int (rnd2 k2)))|reflexivity].
Qed.

Lemma extract_tables_rel (rnd1 rnd2 : nat -> N) (detected : list Detected)
  (page_number : Z) :
  run_rel (Forall2 same_td) (extract_tables rnd1 detected page_number)
    (extract_tables rnd2 detected page_number).
Proof.
  unfold extract_tables.
  apply (run_rel_bind (Forall2 (Forall2 same_td))).
  - apply (run_rel_for_each eq).
    + apply Forall2_same. reflexivity.
    + intros x ? <-. apply table_of_detected_rel.
  - intros a b Hab. apply run_rel_ret. now apply Forall2_concat.
Qed.

Lemma overlaps_loop_rel (thr : Q) (b1 b2 : BlockDict)
  (t1 t2 : list TableDict) :
  same_bd b1 b2 -> Forall2 same_td t1 t2 ->
  overlaps_loop thr b1 t1 = overlaps_loop thr b2 t2.
Proof.
  intros (i1 & i2 & _ & _ & _ & ->).
  induction 1 as [|x y t1 t2 (j & _ & _ & ->) _ IH]; [reflexivity|].
  simpl. destruct (td_bbox x) as [T|]; [|reflexivity]. simpl.
  change (inter_area (with_id b1 (Some i2)) T) with (inter_area b1 T).
  change (block_area (with_id b1 (Some i2))) with (block_area b1).
  now rewrite IH.
Qed.

Lemma dedup_loop_rel (thr : Q) (t1 t2 : list TableDict)
  (l1 l2 : list BlockDict) :
  Forall2 same_td t1 t2 -> Forall2 same_bd l1 l2 ->
  forall c1 c2, Forall2 same_bd c1 c2 ->
    option_Forall2 (Forall2 same_bd) (dedup_loop thr l1 t1 c1)
      (dedup_loop thr l2 t2 c2).
Proof.
  intros Ht. induction 1 as [|x y l1 l2 Hxy _ IH]; intros c1 c2 Hc; simpl.
  - now constructor.
  - rewrite (overlaps_loop_rel thr x y t1 t2 Hxy Ht).
    destruct (overlaps_loop thr y t2) as [[|]|]; simpl.
    + now apply IH.
    + apply IH. apply Forall2_app; [exact Hc|]. now constructor.
    + constructor.
Qed.

Lemma deduplicate_rel (thr : Q) (t1 t2 : list TableDict)
  (l1 l2 : list BlockDict) :
  Forall2 same_td t1 t2 -> Forall2 same_bd l1 l2 ->
  option_Forall2 (Forall2 same_bd)
    (deduplicate_blocks_from_tables l1 t1 thr)
    (deduplicate_blocks_from_tables l2 t2 thr).
Proof.
  intros Ht Hl. unfold deduplicate_blocks_from_tables.
  destruct Ht as [|x y t1 t2 Hxy Ht]; [now constructor|].
  apply dedup_loop_rel; [now constructor|exact Hl|constructor].
Qed.

Lemma build_page_geometry_rel (rnd1 rnd2 : nat -> N) (pdf : list PdfPage)
  (page : PageData) :
  run_rel same_geometry (_build_page_geometry rnd1 pdf page)
    (_build_page_geometry rnd2 pdf page).
Proof.
  unfold _build_page_geometry.
  apply (run_rel_bind eq).
  { apply run_rel_lift. destruct (build_words _); now constructor. }
  intros words ? <-. apply (run_rel_bind eq).
  { apply run_rel_lift. destruct (build_lines _); now constructor. }
  intros lines ? <-. apply (run_rel_bind (Forall2 same_bd)).
  { apply build_blocks_rel. }
  intros b1 b2 Hb. apply (run_rel_bind (Forall2 same_td)).
  { apply extract_tables_rel. }
  intros t1 t2 Ht. apply (run_rel_bind (Forall2 same_bd)).
  { apply run_rel_lift. now apply deduplicate_rel. }
  intros c1 c2 Hc. apply run_rel_ret. now repeat split.
Qed.

Lemma dict_set_rel {A} (R : A -> A -> Prop) (k : Z) (v1 v2 : list A)
  (d1 d2 : list (Z * list A)) :
  Forall2 R v1 v2 -> same_dict R d1 d2 ->
  same_dict R (Py.dict_set k v1 d1) (Py.dict_set k v2 d2).
Proof.
  intros Hv. induction 1 as [|[k1 l1] [k2 l2] d1 d2 [Hk Hl] Hd IH]; simpl.
  - constructor; [now split|constructor].
  - simpl in Hk, Hl. subst k2. destruct (k =? k1).
    + constructor; [now split|exact Hd].
    + constructor; [now split|exact IH].
Qed.

Lemma collect_geometry_rel
  (r1 r2 : list (Z * list BlockDict * list TableDict)) :
  Forall2 same_geometry r1 r2 ->
  same_dict same_bd (fst (collect_geometry r1)) (fst (collect_geometry r2))
  /\ same_dict same_td (snd (collect_geometry r1))
       (snd (collect_geometry r2)).
Proof.
  unfold collect_geometry.
  assert (forall a1 a2,
            same_dict same_bd (fst a1) (fst a2)
            /\ same_dict same_td (snd a1) (snd a2) ->
            Forall2 same_geometry r1 r2 ->
            let step :=
              fun '(merged_blocks, tables_by_page)
                  '(page_idx, blocks, tbls) =>
                (Py.dict_set page_idx blocks merged_blocks,
                 Py.dict_set page_idx tbls tables_by_page) in
            same_dict same_bd (fst (fold_left step r1 a1))
              (fst (fold_left step r2 a2))
            /\ same_dict same_td (snd (fold_left step r1 a1))
                 (snd (fold_left step r2 a2))) as H.
  { intros a1 a2 Ha Hr. revert a1 a2 Ha.
    induction Hr as [|[[i1 b1] t1] [[i2 b2] t2] r1 r2 (Hi & Hb & Ht) _ IH];
      intros [m1 d1] [m2 d2] [Hm Hd]; simpl; [now split|].
    simpl in Hi, Hb, Ht, Hm, Hd. subst i2. apply IH. simpl.
    split; now apply dict_set_rel. }
  intros Hr. apply (H ([], []) ([], [])); [|exact Hr].
  split; constructor.
Qed.

Lemma same_bd_step (f : BlockDict -> BlockDict) (b1 b2 : BlockDict) :
  id_blind f -> same_bd b1 b2 -> same_bd (f b1) (f b2).
Proof.
  intros Hf (i1 & i2 & N1 & N2 & E & ->).
  exists i1, i2. destruct (Hf b1 (Some i2)) as [H1 H2].
  split; [exact N1|]. split; [exact N2|]. split; [now rewrite H2|exact H1].
Qed.

Lemma classify_heuristic_blind (i : Z) : id_blind (classify_heuristic i).
Proof. intros b x. split; reflexivity. Qed.

Lemma styled_blind (sha : string -> string) : id_blind (styled sha).
Proof. intros b x. split; reflexivity. Qed.

Lemma enumerate_map_rel (f : Z -> BlockDict -> BlockDict)
  (l1 l2 : list BlockDict) :
  (forall i, id_blind (f i)) -> Forall2 same_bd l1 l2 ->
  Forall2 same_bd (enumerate_map f l1) (enumerate_map f l2).
Proof.
  intros Hf Hl. unfold enumerate_map, Py.enumerate.
  rewrite <- (Forall2_length _ _ _ Hl). generalize (length l1) as n.
  generalize 0%nat as s.
  induction Hl as [|x y l1 l2 Hxy _ IH]; intros s n.
  - destruct (seq s n); constructor.
  - destruct n as [|n]; simpl; [constructor|].
    constructor; [now apply same_bd_step|apply IH].
Qed.

Lemma on_pages_rel (f g : list BlockDict -> list BlockDict)
  (m1 m2 : list (Z * list BlockDict)) :
  (forall l1 l2, Forall2 same_bd l1 l2 -> Forall2 same_bd (f l1) (g l2)) ->
  same_dict same_bd m1 m2 ->
  same_dict same_bd (on_pages f m1) (on_pages g m2).
Proof.
  intros Hf. unfold on_pages.
  induction 1 as [|[k1 l1] [k2 l2] m1 m2 [Hk Hl] _ IH]; simpl;
    constructor; [|exact IH].
  simpl in *. split; [exact Hk|now apply Hf].
Qed.

Lemma map_rel (f : BlockDict -> BlockDict) (l1 l2 : list BlockDict) :
  id_blind f -> Forall2 same_bd l1 l2 -> Forall2 same_bd (map f l1) (map f l2).
Proof.
  intros Hf. induction 1; simpl; constructor; auto.
  now apply same_bd_step.
Qed.

Lemma styles_loop_rel (sha : string -> string) (l1 l2 : list BlockDict) :
  Forall2 same_bd l1 l2 ->
  forall m, styles_loop sha l1 m = styles_loop sha l2 m.
Proof.
  induction 1 as [|x y l1 l2 (i1 & i2 & _ & _ & _ & ->) _ IH]; intros m;
    [reflexivity|].
  simpl. change (style_of_block (with_id x (Some i2)))
    with (style_of_block x). apply IH.
Qed.

Lemma dict_values_rel (m1 m2 : list (Z * list BlockDict)) :
  same_dict same_bd m1 m2 ->
  Forall2 same_bd (concat (dict_values m1)) (concat (dict_values m2)).
Proof.
  intros H. apply Forall2_concat. unfold dict_values.
  induction H as [|e1 e2 m1 m2 [_ Hl] _ IH]; simpl; constructor; auto.
Qed.

Lemma normalize_and_assemble_rel (rnd1 rnd2 : nat -> N)
  (sha : string -> string) (id1 id2 : string) (pages_data : list PageData)
  (m1 m2 : list (Z * list BlockDict)) (t1 t2 : list (Z * list TableDict))
  (source_type : SourceType) :
  same_dict same_bd m1 m2 -> same_dict same_td t1 t2 ->
  run_rel (fun d1 d2 => erase_ids d1 = erase_ids d2)
    (normalize_and_assemble rnd1 sha id1 pages_data m1 t1 source_type)
    (normalize_and_assemble rnd2 sha id2 pages_data m2 t2 source_type).
Proof.
  intros Hm Ht. unfold normalize_and_assemble, normalize_styles. simpl.
  rewrite (styles_loop_rel sha _ _ (dict_values_rel _ _ Hm)).
  apply assemble_document_rel; [|exact Ht].
  apply on_pages_rel; [|exact Hm].
  intros l1 l2 Hl. apply map_rel; [apply styled_blind|exact Hl].
Qed.

Lemma process_pdf_rel (rnd1 rnd2 : nat -> N) (sha : string -> string)
  (ratio : string -> string -> Q)
  (tagger1 tagger2 : list (Z * list BlockDict)
                     -> option (list (Z * list Tag)))
  (pdf : list PdfPage) (page_range : option string) :
  run_rel (fun d1 d2 => erase_ids d1 = erase_ids d2)
    (process_pdf rnd1 sha ratio tagger1 pdf false page_range)
    (process_pdf rnd2 sha ratio tagger2 pdf false page_range).
Proof.
  unfold process_pdf.
  apply (run_rel_bind (fun a b => a <> "" /\ b <> ""));
    [apply run_rel_uuid4|].
  intros id1 id2 _. cbv zeta.
  apply (run_rel_bind (Forall2 same_geometry)).
  - apply (run_rel_for_each eq).
    + apply Forall2_same. reflexivity.
    + intros x ? <-. apply build_page_geometry_rel.
  - intros r1 r2 Hr. apply collect_geometry_rel in Hr as [Hm Ht].
    destruct (collect_geometry r1) as [m1 t1].
    destruct (collect_geometry r2) as [m2 t2]. simpl in Hm, Ht.
    apply normalize_and_assemble_rel; [|exact Ht].
    unfold classify. apply on_pages_rel; [|exact Hm].
    intros l1 l2 Hl. apply enumerate_map_rel; [|exact Hl].
    apply classify_heuristic_blind.
Qed.




(** ** The identifiers of the PDF pipeline *)

Lemma Forall2_diag_In {A} (R : A -> A -> Prop) (l : list A) (x : A) :
  Forall2 R l l -> In x l -> R x x.
Proof.
  induction l as [|y l IH]; intros H []; inversion H; subst; auto.
Qed.

Lemma same_dict_ids (m : list (Z * list BlockDict))
  (t : list (Z * list TableDict)) :
  same_dict same_bd m m -> same_dict same_td t t -> ids_nonempty m t.
Proof.
  intros Hm Ht. split.
  - intros i bds bd Hin Hbd.
    destruct (Forall2_diag_In _ _ _ Hm Hin) as [_ H]. simpl in H.
    destruct (Forall2_diag_In _ _ _ H Hbd) as (i1 & _ & N1 & _ & E & _).
    rewrite E. congruence.
  - intros i tds td Hin Htd.
    destruct (Forall2_diag_In _ _ _ Ht Hin) as [_ H]. simpl in H.
    now destruct (Forall2_diag_In _ _ _ H Htd) as (_ & N1 & _).
Qed.

(** With the tagger disabled, the assembler is handed blocks and tables
    that all carry an identifier drawn from [uuid4]. *)
Lemma process_pdf_ids (rnd : nat -> N) (sha : string -> string)
  (ratio : string -> string -> Q)
  (tagger : list (Z * list BlockDict) -> option (list (Z * list Tag)))
  (pdf : list PdfPage) (page_range : option string) (k : nat)
  (doc : LayoutDocument) (k' : nat) :
  process_pdf rnd sha ratio tagger pdf false page_range k = Some (doc, k') ->
  exists doc_id pages_data merged_blocks tables_by_page styles_ k1,
    ids_nonempty merged_blocks tables_by_page
    /\ assemble_document rnd doc_id pages_data merged_blocks tables_by_page
         styles_ src_pdf k1 = Some (doc, k').
Proof.
  unfold process_pdf. intros H.
  apply bind_Some in H as (doc_id & k1 & _ & H). cbv zeta in H.
  apply bind_Some in H as (results & k2 & Hr & H).
  assert (Forall2 same_geometry results results) as Hg.
  { match type of Hr with
    | for_each _ ?l _ = _ =>
        assert (run_rel (Forall2 same_geometry)
                  (for_each (_build_page_geometry rnd pdf) l)
                  (for_each (_build_page_geometry rnd pdf) l)) as Hrel
    end.
    { apply (run_rel_for_each eq).
      - apply Forall2_same. reflexivity.
      - intros x ? <-. apply build_page_geometry_rel. }
    specialize (Hrel k1 k1). unfold outcome_rel in Hrel.
    now rewrite Hr in Hrel. }
  apply collect_geometry_rel in Hg as [Hm Ht].
  destruct (collect_geometry results) as [m t]. simpl in Hm, Ht.
  unfold normalize_and_assemble in H. cbv zeta in H.
  eexists _, _, _, _, _, _. split; [|exact H].
  apply same_dict_ids; [|exact Ht].
  apply on_pages_rel.
  { intros l1 l2 Hl. unfold normalize_styles. simpl.
    apply map_rel; [apply styled_blind|exact Hl]. }
  unfold classify. apply on_pages_rel; [|exact Hm].
  intros l1 l2 Hl. apply enumerate_map_rel; [|exact Hl].
  apply classify_heuristic_blind.
Qed.



(** * Further properties *)

(** ** Bounding boxes *)

Lemma min_of_spec {A} (f : A -> Q) (cs : list A) :
  forall c,
    (forall x, In x (c :: cs) -> (Py.min_of f c cs <= f x)%Q)
    /\ exists x, In x (c :: cs) /\ Py.min_of f c cs = f x.
Proof.
  unfold Py.min_of.
  assert (forall m : Q,
            (fold_left (fun m x => Py.min m (f x)) cs m <= m)%Q
            /\ (forall x, In x cs ->
                  (fold_left (fun m x => Py.min m (f x)) cs m <= f x)%Q)
            /\ (fold_left (fun m x => Py.min m (f x)) cs m = m
                \/ exists x, In x cs
                     /\ fold_left (fun m x => Py.min m (f x)) cs m = f x))
    as H.
  { induction cs as [|y cs IH]; intros m; simpl.
    - split; [lra|]. split; [intros x []|now left].
    - destruct (IH (Py.min m (f y))) as (H1 & H2 & H3).
      destruct (min_cases m (f y)) as [[E Hle]|[E Hlt]]; rewrite E in *.
      + split; [exact H1|]. split.
        * intros x [<-|Hx]; [lra|now apply H2].
        * destruct H3 as [H3|(x & Hx & H3)]; [now left|].
          right. exists x. split; [now right|exact H3].
      + split; [lra|]. split.
        * intros x [<-|Hx]; [exact H1|now apply H2].
        * right. destruct H3 as [H3|(x & Hx & H3)].
          -- exists y. split; [now left|exact H3].
          -- exists x. split; [now right|exact H3]. }
  intros c. destruct (H (f c)) as (H1 & H2 & H3). split.
  - intros x [<-|Hx]; [exact H1|now apply H2].
  - destruct H3 as [H3|(x & Hx & H3)].
    + exists c. split; [now left|exact H3].
    + exists x. split; [now right|exact H3].
Qed.

Lemma max_of_spec {A} (f : A -> Q) (cs : list A) :
  forall c,
    (forall x, In x (c :: cs) -> (f x <= Py.max_of f c cs)%Q)
    /\ exists x, In x (c :: cs) /\ Py.max_of f c cs = f x.
Proof.
  unfold Py.max_of.
  assert (forall m : Q,
            (m <= fold_left (fun m x => Py.max m (f x)) cs m)%Q
            /\ (forall x, In x cs ->
                  (f x <= fold_left (fun m x => Py.max m (f x)) cs m)%Q)
            /\ (fold_left (fun m x => Py.max m (f x)) cs m = m
                \/ exists x, In x cs
                     /\ fold_left (fun m x => Py.max m (f x)) cs m = f x))
    as H.
  { induction cs as [|y cs IH]; intros m; simpl.
    - split; [lra|]. split; [intros x []|now left].
    - destruct (IH (Py.max m (f y))) as (H1 & H2 & H3).
      destruct (max_cases m (f y)) as [[E Hle]|[E Hlt]]; rewrite E in *.
      + split; [exact H1|]. split.
        * intros x [<-|Hx]; [lra|now apply H2].
        * destruct H3 as [H3|(x & Hx & H3)]; [now left|].
          right. exists x. split; [now right|exact H3].
      + split; [lra|]. split.
        * intros x [<-|Hx]; [exact H1|now apply H2].
        * right. destruct H3 as [H3|(x & Hx & H3)].
          -- exists y. split; [now left|exact H3].
          -- exists x. split; [now right|exact H3]. }
  intros c. destruct (H (f c)) as (H1 & H2 & H3). split.
  - intros x [<-|Hx]; [exact H1|now apply H2].
  - destruct H3 as [H3|(x & Hx & H3)].
    + exists c. split; [now left|exact H3].
    + exists x. split; [now right|exact H3].
Qed.

(** The box with edges [min x0], [min y0], [max x1], [max y1] over a
    non-empty sequence is its bounding box. *)
Lemma min_max_bounding {A} (box : A -> BBox) (c : A) (cs : list A) :
  bounding_box
    {| bx0 := Py.min_of (fun a => bx0 (box a)) c cs;
       by0 := Py.min_of (fun a => by0 (box a)) c cs;
       bx1 := Py.max_of (fun a => bx1 (box a)) c cs;
       by1 := Py.max_of (fun a => by1 (box a)) c cs |}
    (map box (c :: cs)).
Proof.
  destruct (min_of_spec (fun a => bx0 (box a)) cs c) as [A1 (a1 & I1 & E1)].
  destruct (min_of_spec (fun a => by0 (box a)) cs c) as [A2 (a2 & I2 & E2)].
  destruct (max_of_spec (fun a => bx1 (box a)) cs c) as [A3 (a3 & I3 & E3)].
  destruct (max_of_spec (fun a => by1 (box a)) cs c) as [A4 (a4 & I4 & E4)].
  split; [|split; [|split; [|split]]].
  - apply Forall_forall. intros b Hb.
    apply list_elem_of_In, in_map_iff in Hb as (a & <- & Ha).
    unfold encloses. cbn [bx0 by0 bx1 by1]. auto.
  - exists (box a1). split; [now apply in_map|exact E1].
  - exists (box a2). split; [now apply in_map|exact E2].
  - exists (box a3). split; [now apply in_map|exact E3].
  - exists (box a4). split; [now apply in_map|exact E4].
Qed.

Lemma merge_chars_bbox (g : list Char) (w : Word) :
  _merge_chars g = Some w -> bounding_box (word_bbox w) (map char_bbox g).
Proof.
  destruct g as [|c cs]; [discriminate|]. intros [= <-].
  exact (min_max_bounding char_bbox c cs).
Qed.

Lemma merge_words_bbox (g : list Word) (ln : Line) :
  _merge_words g = Some ln -> bounding_box (line_bbox ln) (map word_bbox g).
Proof.
  destruct g as [|c cs]; [discriminate|]. intros [= <-].
  exact (min_max_bounding word_bbox c cs).
Qed.

Lemma encloses_trans (a b c : BBox) :
  encloses a b -> encloses b c -> encloses a c.
Proof. unfold encloses. intros (?&?&?&?) (?&?&?&?). repeat split; lra. Qed.

Lemma build_words_groups (chars : list Char) (words : list Word) :
  build_words chars = Some words ->
  exists groups, merged_from groups words
                 /\ concat groups = sorted_chars chars.
Proof.
  unfold build_words. destruct (sorted_chars chars) as [|c0 rest].
  - intros [= <-]. exists []. split; constructor.
  - destruct (words_loop_spec rest [] [c0] []) as (ws & gs & H1 & H2 & H3);
      [congruence|constructor|].
    rewrite H1. intros [= <-]. exists gs. now split.
Qed.

Lemma Forall2_In_l {A B} (R : A -> B -> Prop) (l : list A) (l' : list B)
  (x : A) :
  Forall2 R l l' -> In x l -> exists y, In y l' /\ R x y.
Proof.
  induction 1 as [|a b l l' Hab _ IH]; intros []; subst.
  - exists b. split; [now left|exact Hab].
  - destruct IH as (y & Hy & HR); [assumption|].
    exists y. split; [now right|exact HR].
Qed.

Lemma Forall2_In_r {A B} (R : A -> B -> Prop) (l : list A) (l' : list B)
  (y : B) :
  Forall2 R l l' -> In y l' -> exists x, In x l /\ R x y.
Proof.
  induction 1 as [|a b l l' Hab _ IH]; intros []; subst.
  - exists a. split; [now left|exact Hab].
  - destruct IH as (x & Hx & HR); [assumption|].
    exists x. split; [now right|exact HR].
Qed.

Lemma bounding_encloses (outer : BBox) (inner : list BBox) (b : BBox) :
  bounding_box outer inner -> In b inner -> encloses outer b.
Proof.
  intros [H _] Hb. rewrite Forall_forall in H. apply H.
  now apply list_elem_of_In.
Qed.

(** X1. Every word [build_words] returns carries the bounding box of the
    chars merged into it, all of them chars of the input, and every
    input char lies within the box of one of the words. *)
Theorem build_words_bounding (chars : list Char) (words : list Word) :
  build_words chars = Some words ->
  (forall w, In w words ->
     exists g, incl g chars
               /\ bounding_box (word_bbox w) (map char_bbox g))
  /\ (forall c, In c chars ->
        exists w, In w words /\ encloses (word_bbox w) (char_bbox c)).
Proof.
  intros H. apply build_words_groups in H as (groups & Hm & Hc).
  assert (Permutation (concat groups) chars) as Hp.
  { rewrite Hc. apply sorted_perm. }
  split.
  - intros w Hw.
    destruct (Forall2_In_r _ _ _ w Hm Hw) as (g & Hg & _ & Hgw).
    exists g. split; [|now apply merge_chars_bbox].
    intros c Hcg. apply (Permutation_in _ Hp).
    apply in_concat. now exists g.
  - intros c Hcin. apply (Permutation_in _ (Permutation_sym Hp)) in Hcin.
    apply in_concat in Hcin as (g & Hg & Hcg).
    destruct (Forall2_In_l _ _ _ g Hm Hg) as (w & Hw & _ & Hgw).
    exists w. split; [exact Hw|].
    apply (bounding_encloses _ _ _ (merge_chars_bbox _ _ Hgw)).
    now apply in_map.
Qed.

Lemma build_words_bounding_witness :
  exists w, In w [sample_word_H]
            /\ encloses (word_bbox w) (char_bbox glyph_H).
Proof.
  apply (proj2 (build_words_bounding [glyph_H] [sample_word_H] eq_refl)).
  now left.
Defined.

(** ** Lines *)

Lemma insert_ascending {A} (key : A -> Q) (x : A) (l : list A) :
  ascending key l -> ascending key (Py.insert (Py.lt_key1 key) x l).
Proof.
  unfold ascending. induction l as [|y l IH]; intros H; simpl.
  - constructor; constructor.
  - apply StronglySorted_inv in H as [Hl Hy].
    unfold Py.lt_key1 at 1. destruct (Py.ltb (key y) (key x)) eqn:E.
    + apply ltb_spec in E. constructor; [now apply IH|].
      apply (Permutation_Forall (Permutation_sym
                                   (sorted_insert_perm _ x l))).
      constructor; [lra|exact Hy].
    + apply ltb_false in E. constructor.
      * constructor; assumption.
      * constructor; [exact E|].
        eapply List.Forall_impl; [|exact Hy]. intros z Hz. simpl in Hz. lra.
Qed.

Lemma sorted_ascending {A} (key : A -> Q) (l : list A) :
  ascending key (Py.sorted (Py.lt_key1 key) l).
Proof.
  induction l as [|x l IH]; simpl; [constructor|].
  now apply insert_ascending.
Qed.

Lemma sorted_nonempty {A} (lt : A -> A -> bool) (l : list A) :
  l <> [] -> Py.sorted lt l <> [].
Proof.
  intros Hl E. apply Hl. apply Permutation_nil.
  rewrite <- E. apply sorted_perm.
Qed.

Lemma lines_loop_spec (ws : list Word) :
  forall lines current,
    current <> [] -> Forall (fun g => g <> []) lines ->
    exists lines',
      lines_loop ws lines current = Some lines'
      /\ Forall (fun g => g <> []) lines'
      /\ concat lines' = concat lines ++ current ++ ws.
Proof.
  induction ws as [|w ws IH]; intros lines current Hne Hl.
  - exists (lines ++ [current]). split; [|split].
    + simpl. now destruct current.
    + apply Forall_app. split; [exact Hl|]. now constructor.
    + rewrite concat_app. simpl. now rewrite !app_nil_r.
  - simpl. destruct current as [|ref rest]; [congruence|]. simpl.
    destruct (in_band ref w).
    + destruct (IH lines ((ref :: rest) ++ [w])) as (l' & H1 & H2 & H3);
        [discriminate|exact Hl|].
      exists l'. split; [exact H1|]. split; [exact H2|].
      rewrite H3. now rewrite <- !app_assoc.
    + destruct (IH (lines ++ [ref :: rest]) [w]) as (l' & H1 & H2 & H3);
        [discriminate| |].
      { apply Forall_app. split; [exact Hl|]. now constructor. }
      exists l'. split; [exact H1|]. split; [exact H2|].
      rewrite H3, concat_app. simpl. now rewrite app_nil_r, <- !app_assoc.
Qed.

Lemma merge_words_Some (g : list Word) :
  g <> [] ->
  exists ln, _merge_words g = Some ln
             /\ ln_words ln = g
             /\ ln_text ln = Py.join " " (map w_text g).
Proof.
  destruct g as [|w ws]; [congruence|]. intros _.
  eexists. split; [reflexivity|]. split; reflexivity.
Qed.

Lemma merge_sorted_groups (groups : list (list Word)) :
  Forall (fun g => g <> []) groups ->
  exists lines,
    mapM (fun line_words =>
            _merge_words (Py.sorted (Py.lt_key1 w_x0) line_words)) groups
    = Some lines
    /\ Forall2 (fun g ln =>
                  _merge_words (Py.sorted (Py.lt_key1 w_x0) g) = Some ln
                  /\ ln_words ln = Py.sorted (Py.lt_key1 w_x0) g) groups lines.
Proof.
  induction 1 as [|g gs Hg _ (lines & IH1 & IH2)].
  - exists []. split; [reflexivity|constructor].
  - destruct (merge_words_Some (Py.sorted (Py.lt_key1 w_x0) g))
      as (ln & H1 & H2 & _); [now apply sorted_nonempty|].
    exists (ln :: lines). split.
    + apply mapM_Some. constructor; [exact H1|].
      now apply mapM_Some.
    + constructor; [now split|exact IH2].
Qed.

Lemma concat_perm {A} (l1 l2 : list (list A)) :
  Forall2 (fun a b => Permutation b a) l1 l2 ->
  Permutation (concat l2) (concat l1).
Proof.
  induction 1 as [|a b l1 l2 Hab _ IH]; simpl; [constructor|].
  now apply Permutation_app.
Qed.

Lemma build_lines_spec (words : list Word) :
  exists lines,
    build_lines words = Some lines
    /\ Permutation (concat (map ln_words lines)) words
    /\ Forall line_ok lines.
Proof.
  unfold build_lines.
  pose proof (sorted_perm (Py.lt_key2 w_y0 w_x0) words) as Hp.
  destruct (Py.sorted (Py.lt_key2 w_y0 w_x0) words) as [|w0 rest].
  - exists []. split; [reflexivity|]. split; [exact Hp|constructor].
  - destruct (lines_loop_spec rest [] [w0]) as (groups & H1 & H2 & H3);
      [discriminate|constructor|].
    destruct (merge_sorted_groups groups H2) as (lines & H4 & H5).
    exists lines. rewrite H1. simpl. split; [exact H4|]. split.
    + rewrite <- Hp. simpl in H3. rewrite <- H3.
      apply concat_perm. apply Forall2_fmap_r.
      eapply Forall2_impl; [exact H5|].
      intros g ln [_ E]. simpl. rewrite E. apply sorted_perm.
    + clear H4 H1 H3. induction H5 as [|g ln gs lns [E1 E2] _ IH].
      * constructor.
      * apply Forall_inv in H2 as Hg. apply Forall_inv_tail in H2.
        constructor; [|now apply IH].
        destruct (merge_words_Some (Py.sorted (Py.lt_key1 w_x0) g))
          as (ln' & E3 & _ & E4); [now apply sorted_nonempty|].
        assert (ln' = ln) by congruence. subst ln'.
        unfold line_ok. rewrite E2. split; [now apply sorted_nonempty|].
        split; [apply sorted_ascending|]. split; [exact E4|].
        now apply merge_words_bbox.
Qed.

(** X2. [build_lines] returns on every input; the words of its lines
    taken together are the input words, none dropped or duplicated, and
    every line is well formed. *)
Theorem build_lines_partitions (words : list Word) :
  exists lines,
    build_lines words = Some lines
    /\ Permutation (concat (map ln_words lines)) words
    /\ Forall line_ok lines.
Proof.
  apply build_lines_spec.
Qed.

(** ** Blocks *)

Lemma blocks_loop_spec (lns : list Line) :
  forall blocks_ current,
    current <> [] -> Forall (fun g => g <> []) blocks_ ->
    exists blocks',
      blocks_loop lns blocks_ current = Some blocks'
      /\ Forall (fun g => g <> []) blocks'
      /\ concat blocks' = concat blocks_ ++ current ++ lns.
Proof.
  induction lns as [|ln lns IH]; intros blocks_ current Hne Hl.
  - exists (blocks_ ++ [current]). split; [|split].
    + simpl. now destruct current.
    + apply Forall_app. split; [exact Hl|]. now constructor.
    + rewrite concat_app. simpl. now rewrite !app_nil_r.
  - simpl. destruct (last current) as [prev|] eqn:Hlast.
    2:{ apply last_None in Hlast. congruence. }
    simpl. destruct (continues_block prev ln).
    + destruct (IH blocks_ (current ++ [ln])) as (l' & H1 & H2 & H3);
        [now destruct current|exact Hl|].
      exists l'. split; [exact H1|]. split; [exact H2|].
      rewrite H3. now rewrite <- !app_assoc.
    + destruct (IH (blocks_ ++ [current]) [ln]) as (l' & H1 & H2 & H3);
        [discriminate| |].
      { apply Forall_app. split; [exact Hl|]. now constructor. }
      exists l'. split; [exact H1|]. split; [exact H2|].
      rewrite H3, concat_app. simpl. now rewrite app_nil_r, <- !app_assoc.
Qed.

Lemma merge_lines_Some (rnd : nat -> N) (g : list Line) (k : nat) :
  g <> [] ->
  exists b, _merge_lines rnd g k = Some (b, S k)
            /\ bd_id b = Some (str_uuid (uuid4_int (rnd k)))
            /\ bd_lines b = g /\ block_built b.
Proof.
  destruct g as [|ln lns]; [congruence|]. intros _.
  eexists. split; [reflexivity|]. split; [reflexivity|].
  split; [reflexivity|]. unfold block_built. cbn [bd_lines bd_text bd_words
    bd_block_type bd_role bd_reading_order bd_style_id].
  split; [discriminate|]. split; [reflexivity|]. split; [reflexivity|].
  split; [|repeat split].
  exact (min_max_bounding line_bbox ln lns).
Qed.

Lemma for_each_merge_lines (rnd : nat -> N) (groups : list (list Line)) :
  Forall (fun g => g <> []) groups ->
  forall k,
    exists blocks_,
      for_each (_merge_lines rnd) groups k
      = Some (blocks_, (k + length groups)%nat)
      /\ map bd_lines blocks_ = groups
      /\ Forall block_built blocks_
      /\ map bd_id blocks_ = map Some (drawn rnd k (length groups)).
Proof.
  induction 1 as [|g gs Hg _ IH]; intros k.
  - exists []. simpl. rewrite Nat.add_0_r. repeat split. constructor.
  - destruct (merge_lines_Some rnd g k Hg) as (b & E & Hid & Hl & Hb).
    destruct (IH (S k)) as (bs & E' & Hls & Hbs & Hids).
    exists (b :: bs). split; [|split; [|split]].
    + cbn [for_each]. unfold bind at 1. rewrite E.
      unfold bind at 1. rewrite E'.
      replace (k + length (g :: gs))%nat with (S k + length gs)%nat
        by (simpl; lia).
      reflexivity.
    + simpl. now rewrite Hl, Hls.
    + now constructor.
    + simpl. now rewrite Hid, Hids.
Qed.

Lemma build_blocks_spec (rnd : nat -> N) (lines : list Line)
  (k : nat) :
  exists blocks_,
    build_blocks rnd lines k = Some (blocks_, (k + length blocks_)%nat)
    /\ concat (map bd_lines blocks_) = Py.sorted (Py.lt_key1 ln_y0) lines
    /\ Forall block_built blocks_
    /\ map bd_id blocks_ = map Some (drawn rnd k (length blocks_)).
Proof.
  unfold build_blocks.
  destruct (Py.sorted (Py.lt_key1 ln_y0) lines) as [|l0 rest].
  - exists []. simpl. rewrite Nat.add_0_r. repeat split. constructor.
  - destruct (blocks_loop_spec rest [] [l0]) as (groups & H1 & H2 & H3);
      [discriminate|constructor|].
    destruct (for_each_merge_lines rnd groups H2 k)
      as (bs & E & Hls & Hbs & Hids).
    assert (length groups = length bs) as Hlen.
    { now rewrite <- Hls, length_map. }
    exists bs. split; [|split; [|split]].
    + unfold bind, lift. rewrite H1, E, Hlen. reflexivity.
    + rewrite Hls. exact H3.
    + exact Hbs.
    + now rewrite Hids, Hlen.
Qed.


(** ** Rounding is monotone *)

Lemma round_half_even_mono (x y : Q) :
  (x <= y)%Q -> Py.round_half_even x <= Py.round_half_even y.
Proof.
  intros Hxy. unfold Py.round_half_even.
  pose proof (Qfloor_resp_le _ _ Hxy) as Hf.
  pose proof (Qfloor_le x) as Hx1. pose proof (Qlt_floor x) as Hx2.
  pose proof (Qfloor_le y) as Hy1. pose proof (Qlt_floor y) as Hy2.
  rewrite inject_Z_plus in Hx2, Hy2.
  change (inject_Z 1) with 1%Q in Hx2, Hy2.
  destruct (Z.eq_dec (Qfloor x) (Qfloor y)) as [E|N].
  - rewrite <- E in *.
    destruct (Qcompare (x - inject_Z (Qfloor x)) (1 # 2)) eqn:Cx;
      destruct (Qcompare (y - inject_Z (Qfloor x)) (1 # 2)) eqn:Cy;
      repeat match goal with
             | H : Qcompare _ _ = Eq |- _ => apply Qeq_alt in H
             | H : Qcompare _ _ = Lt |- _ => apply Qlt_alt in H
             | H : Qcompare _ _ = Gt |- _ => apply Qgt_alt in H
             end;
      try destruct (Z.even (Qfloor x)); try lia; exfalso; lra.
  - assert (Qfloor x + 1 <= Qfloor y) by lia.
    destruct (Qcompare (x - inject_Z (Qfloor x)) (1 # 2));
      destruct (Qcompare (y - inject_Z (Qfloor y)) (1 # 2));
      try destruct (Z.even (Qfloor x)); try destruct (Z.even (Qfloor y));
      lia.
Qed.

Lemma round_mono (x y : Q) (n : nat) :
  (x <= y)%Q -> (Py.round x n <= Py.round y n)%Q.
Proof.
  intros H. unfold Py.round. fold (pow10 n). rewrite !Qred_correct.
  pose proof (pow10_pos n) as Hs.
  apply Qmult_le_compat_r; [|apply Qlt_le_weak, Qinv_lt_0_compat, Hs].
  rewrite <- Zle_Qle. apply round_half_even_mono.
  apply Qmult_le_compat_r; [exact H|lra].
Qed.

Lemma round_proper (x y : Q) (n : nat) :
  (x == y)%Q -> Py.round x n = Py.round y n.
Proof.
  intros H. unfold Py.round. apply Qred_complete.
  assert (Py.round_half_even (x * inject_Z (10 ^ Z.of_nat n))
          = Py.round_half_even (y * inject_Z (10 ^ Z.of_nat n))) as E.
  { apply Z.le_antisymm; apply round_half_even_mono; rewrite H; lra. }
  now rewrite E.
Qed.

(** ** The cell grid of a table *)



(** ** Table extraction *)

Lemma In_enumerate {A} (l : list A) (i : Z) (x : A) :
  In (i, x) (Py.enumerate l) -> 0 <= i < Z.of_nat (length l).
Proof.
  unfold Py.enumerate. intros H. apply in_combine_l in H.
  apply in_map_iff in H as (n & <- & Hn). apply in_seq in Hn. lia.
Qed.

Lemma enumerate_snd {A} (l : list A) : map snd (Py.enumerate l) = l.
Proof.
  unfold Py.enumerate.
  assert (forall (ks : list Z), length ks = length l ->
            map snd (combine ks l) = l) as H.
  { induction l as [|x l IH]; intros [|k ks] Hk; simpl in *;
      try reflexivity; try discriminate.
    f_equal. apply IH. lia. }
  apply H. now rewrite length_map, length_seq.
Qed.

Lemma map_enumerate {A B} (f : A -> B) (l : list A) :
  map (fun p => f (snd p)) (Py.enumerate l) = map f l.
Proof. now rewrite <- (map_map snd f), enumerate_snd. Qed.

Lemma fold_max_ge (l : list Z) :
  forall m, m <= fold_left Z.max l m
            /\ forall x, In x l -> x <= fold_left Z.max l m.
Proof.
  induction l as [|y l IH]; intros m; simpl.
  - split; [lia|intros x []].
  - destruct (IH (Z.max m y)) as [H1 H2]. split; [lia|].
    intros x [<-|Hx]; [lia|now apply H2].
Qed.

Lemma table_of_detected_spec (rnd : nat -> N) (pn : Z) (d : Detected)
  (k : nat) :
  match dt_data d with
  | [] => table_of_detected rnd pn d k = Some ([], k)
  | _ => exists t,
           table_of_detected rnd pn d k = Some ([t], S k)
           /\ td_id t = str_uuid (uuid4_int (rnd k))
           /\ td_page t = pn /\ td_bbox t = Some (dt_bbox d)
           /\ td_block_type t = "table"
           /\ td_rows t = Z.of_nat (length (dt_data d))
           /\ td_cols t = longest_row (dt_data d)
           /\ map cd_text (td_cells t)
              = map (fun c => Py.strip (default "" c)) (concat (dt_data d))
           /\ grid_ok t
  end.
Proof.
  unfold table_of_detected. destruct (dt_data d) as [|row rows] eqn:Hd;
    [reflexivity|].
  set (data := row :: rows) in *.
  eexists. split; [reflexivity|]. cbn [td_id td_page td_bbox td_block_type
    td_rows]. repeat (split; [reflexivity|]). split.
  - cbn [td_cells].
    rewrite flat_map_concat_map, !concat_map, map_map.
    rewrite <- (map_enumerate (map (fun c => Py.strip (default "" c))) data).
    f_equal. apply map_ext. intros [r rw]. rewrite map_map. simpl.
    rewrite <- (map_enumerate (fun c => Py.strip (default "" c)) rw).
    apply map_ext. now intros [c tx].
  - unfold grid_ok. cbn [td_rows td_cols td_cells td_bbox]. split.
    + subst data. simpl. lia.
    + apply List.Forall_forall. intros c Hc.
      apply in_flat_map in Hc as ([r rw] & Hr & Hc).
      apply in_map_iff in Hc as ([j tx] & <- & Hj).
      cbn [cd_row cd_col cd_row_span cd_col_span cd_bbox].
      apply In_enumerate in Hj as Hj'. apply In_enumerate in Hr as Hr'.
      assert (In rw data) as Hrw.
      { rewrite <- (enumerate_snd data).
        apply in_map_iff. now exists (r, rw). }
      destruct (fold_max_ge (map (fun row => Z.of_nat (length row)) data) 0)
        as [_ Hmax].
      specialize (Hmax (Z.of_nat (length rw))
                    (in_map (fun row => Z.of_nat (length row)) _ _ Hrw)).
      repeat split; try lia.
Qed.

Lemma extract_tables_spec (rnd : nat -> N) (pn : Z)
  (detected : list Detected) :
  forall k,
    exists tables_,
      extract_tables rnd detected pn k
      = Some (tables_, (k + length tables_)%nat)
      /\ map td_bbox tables_ = map (fun d => Some (dt_bbox d))
                                 (with_data detected)
      /\ map td_id tables_ = drawn rnd k (length tables_)
      /\ Forall (fun t => td_page t = pn /\ td_block_type t = "table"
                          /\ grid_ok t) tables_
      /\ Forall2 (fun d t =>
                    td_rows t = Z.of_nat (length (dt_data d))
                    /\ td_cols t = longest_row (dt_data d)
                    /\ map cd_text (td_cells t)
                       = map (fun c => Py.strip (default "" c))
                           (concat (dt_data d)))
           (with_data detected) tables_.
Proof.
  unfold extract_tables.
  assert (forall k, exists tss,
            for_each (table_of_detected rnd pn) detected k
            = Some (tss, (k + length (concat tss))%nat)
            /\ map td_bbox (concat tss)
               = map (fun d => Some (dt_bbox d)) (with_data detected)
            /\ map td_id (concat tss) = drawn rnd k (length (concat tss))
            /\ Forall (fun t => td_page t = pn /\ td_block_type t = "table"
                                /\ grid_ok t) (concat tss)
            /\ Forall2 (fun d t =>
                          td_rows t = Z.of_nat (length (dt_data d))
                          /\ td_cols t = longest_row (dt_data d)
                          /\ map cd_text (td_cells t)
                             = map (fun c => Py.strip (default "" c))
                                 (concat (dt_data d)))
                 (with_data detected) (concat tss)) as H.
  { induction detected as [|d ds IH]; intros k.
    - exists []. simpl. rewrite Nat.add_0_r. repeat split; constructor.
    - pose proof (table_of_detected_spec rnd pn d k) as Hd.
      unfold with_data. cbn [List.filter for_each].
      destruct (dt_data d) as [|row rows] eqn:Ed.
      + destruct (IH k) as (tss & E & H1 & H2 & H3 & H4).
        exists ([] :: tss). unfold bind at 1. rewrite Hd.
        unfold bind at 1. rewrite E. simpl. auto.
      + destruct Hd as (t & Et & G1 & G2 & G3 & G4 & G5 & Gc & G6 & G7).
        destruct (IH (S k)) as (tss & E & H1 & H2 & H3 & H4).
        exists ([t] :: tss). unfold bind at 1. rewrite Et.
        unfold bind at 1. rewrite E.
        cbn [concat app length map ret]. split; [|split; [|split; [|split]]].
        * replace (k + S (length (concat tss)))%nat
            with (S k + length (concat tss))%nat by lia.
          reflexivity.
        * rewrite G3. f_equal. exact H1.
        * unfold drawn. cbn [seq map]. rewrite G1. f_equal. exact H2.
        * constructor; [|exact H3].
          split; [exact G2|]. split; [exact G4|exact G7].
        * constructor; [|exact H4].
          rewrite Ed. split; [exact G5|]. split; [exact Gc|exact G6]. }
  intros k. destruct (H k) as (tss & E & H1 & H2 & H3 & H4).
  exists (concat tss). unfold bind. rewrite E. now repeat split.
Qed.

(** X5. [extract_tables] never raises; it returns one table per detected
    table that has data, in order, with a fresh identifier each, the
    detected bbox, the given page, as many rows as the data and as many
    columns as its longest row; the cell
    texts are the stripped entries in row-major order, and every cell is
    indexed within the table's grid with the approximate box of its
    position. *)
Theorem extract_tables_shape (rnd : nat -> N) (pn : Z)
  (detected : list Detected) (k : nat) :
  exists tables_,
    extract_tables rnd detected pn k
    = Some (tables_, (k + length tables_)%nat)
    /\ map td_bbox tables_ = map (fun d => Some (dt_bbox d))
                               (with_data detected)
    /\ map td_id tables_ = drawn rnd k (length tables_)
    /\ Forall (fun t => td_page t = pn /\ td_block_type t = "table"
                        /\ grid_ok t) tables_
    /\ Forall2 (fun d t =>
                  td_rows t = Z.of_nat (length (dt_data d))
                  /\ td_cols t = longest_row (dt_data d)
                  /\ map cd_text (td_cells t)
                     = map (fun c => Py.strip (default "" c))
                         (concat (dt_data d)))
         (with_data detected) tables_.
Proof. apply extract_tables_spec. Qed.

(** ** De-duplication keeps a sublist *)

Lemma filter_sublist {A} (f : A -> bool) (l : list A) :
  sublist (List.filter f l) l.
Proof.
  induction l as [|x l IH]; simpl; [constructor|].
  destruct (f x); [now apply sublist_skip|now apply sublist_cons].
Qed.

Lemma filter_idem {A} (f : A -> bool) (l : list A) :
  List.filter f (List.filter f l) = List.filter f l.
Proof.
  induction l as [|x l IH]; simpl; [reflexivity|].
  destruct (f x) eqn:E; simpl; [rewrite E; now f_equal|exact IH].
Qed.

Lemma dedup_filter (blocks_ : list BlockDict) (tables_ : list TableDict)
  (bbs : list BBox) (thr : Q) :
  map td_bbox tables_ = map Some bbs ->
  deduplicate_blocks_from_tables blocks_ tables_ thr
  = Some (List.filter (fun b => negb (existsb (overlaps_table thr b) bbs))
            blocks_).
Proof.
  intros H. unfold deduplicate_blocks_from_tables.
  destruct tables_ as [|t ts].
  - destruct bbs; [|discriminate]. simpl. f_equal.
    induction blocks_ as [|b bl IH]; [reflexivity|].
    simpl. now rewrite <- IH.
  - now rewrite (dedup_loop_spec _ _ _ H).
Qed.

Lemma block_area_pos (b : BlockDict) : (0 < block_area b)%Q.
Proof.
  unfold block_area.
  destruct (max_cases ((bd_x1 b - bd_x0 b) * (bd_y1 b - bd_y0 b))%Q (1 # 100))
    as [[-> H]|[-> H]]; lra.
Qed.

(** X6. When every table carries a bbox, de-duplication returns a
    sublist of the text blocks (nothing is added or reordered); running
    it again on its result removes nothing more; and, for a non-negative
    threshold, a block that shares no area with any table is kept. *)
Theorem dedup_sublist_idempotent (blocks_ : list BlockDict)
  (tables_ : list TableDict) (bbs : list BBox) (thr : Q) :
  map td_bbox tables_ = map Some bbs ->
  exists clean,
    deduplicate_blocks_from_tables blocks_ tables_ thr = Some clean
    /\ sublist clean blocks_
    /\ deduplicate_blocks_from_tables clean tables_ thr = Some clean
    /\ ((0 <= thr)%Q ->
        forall b, In b blocks_ ->
          (forall T, In T bbs -> (inter_area b T == 0)%Q) -> In b clean).
Proof.
  intros H. eexists. split; [exact (dedup_filter _ _ _ _ H)|].
  split; [apply filter_sublist|]. split.
  - rewrite (dedup_filter _ _ _ _ H). now rewrite filter_idem.
  - intros Hthr b Hb Hdis. apply filter_In. split; [exact Hb|].
    apply negb_true_iff. apply not_true_is_false. intros Hex.
    apply existsb_exists in Hex as (T & HT & Ho).
    unfold overlaps_table in Ho. apply ltb_spec in Ho.
    pose proof (block_area_pos b) as Hpos.
    assert (inter_area b T / block_area b == 0)%Q as E.
    { rewrite (Hdis T HT). field. lra. }
    lra.
Qed.

Lemma dedup_sublist_idempotent_witness :
  exists clean,
    deduplicate_blocks_from_tables [tiny_block] [big_table] (5 # 10)
    = Some clean
    /\ sublist clean [tiny_block]
    /\ deduplicate_blocks_from_tables clean [big_table] (5 # 10)
       = Some clean
    /\ ((0 <= 5 # 10)%Q ->
        forall b, In b [tiny_block] ->
          (forall T, In T [big_table_bbox] -> (inter_area b T == 0)%Q) ->
          In b clean).
Proof.
  apply (dedup_sublist_idempotent [tiny_block] [big_table]
           [big_table_bbox] (5 # 10)).
  reflexivity.
Defined.

(** ** The matcher and the blocks *)

Lemma with_classification_content (b : BlockDict) bt r ro rh rf :
  same_content b (with_classification b bt r ro rh rf).
Proof. repeat split. Qed.

Lemma enumerate_lookup {A} (l : list A) (i : nat) (x : A) :
  l !! i = Some x -> Py.enumerate l !! i = Some (Z.of_nat i, x).
Proof.
  unfold Py.enumerate. intros H.
  assert (forall (s : nat) (l : list A) (i : nat),
            l !! i = Some x ->
            combine (map Z.of_nat (seq s (length l))) l !! i
            = Some (Z.of_nat (s + i), x)) as G.
  { clear. intros s l. revert s.
    induction l as [|y l IH]; intros s [|i] Hi; simpl in *;
      try discriminate.
    - injection Hi as ->. now rewrite Nat.add_0_r.
    - rewrite (IH (S s) i Hi). do 3 f_equal. lia. }
  exact (G 0%nat l i H).
Qed.

Lemma dict_get_set_eq {V} (k : Z) (v : V) (d : list (Z * V)) :
  Py.dict_get k (Py.dict_set k v d) = Some v.
Proof.
  induction d as [|[k' v'] d IH]; simpl.
  - now rewrite Z.eqb_refl.
  - destruct (k =? k') eqn:E; simpl; [now rewrite Z.eqb_refl|].
    now rewrite E.
Qed.

Lemma dict_get_set_ne {V} (i k : Z) (v : V) (d : list (Z * V)) :
  i <> k -> Py.dict_get i (Py.dict_set k v d) = Py.dict_get i d.
Proof.
  intros N. induction d as [|[k' v'] d IH]; simpl.
  - apply Z.eqb_neq in N. now rewrite N.
  - destruct (k =? k') eqn:E; simpl.
    + apply Z.eqb_eq in E. subst k'. apply Z.eqb_neq in N. now rewrite N.
    + destruct (i =? k'); [reflexivity|exact IH].
Qed.

(** [index_map] holds, for an index, the last tag that carries it. *)
Lemma index_map_last (pre post : list Tag) (t : Tag) (i : Z) :
  tag_block_index t = Some i ->
  Forall (fun t' => tag_block_index t' <> Some i) post ->
  Py.dict_get i (index_map_of (pre ++ t :: post)) = Some t.
Proof.
  intros Ht Hpost. unfold index_map_of. rewrite fold_left_app. simpl.
  rewrite Ht.
  generalize (fold_left
                (fun m tag => match tag_block_index tag with
                              | Some idx => Py.dict_set idx tag m
                              | None => m
                              end) pre []) as m0.
  intros m0.
  assert (forall m, Py.dict_get i m = Some t ->
            Py.dict_get i
              (fold_left
                 (fun m tag => match tag_block_index tag with
                               | Some idx => Py.dict_set idx tag m
                               | None => m
                               end) post m) = Some t) as H.
  { induction Hpost as [|t' post Ht' _ IH]; intros m Hm; [exact Hm|].
    simpl. apply IH. destruct (tag_block_index t') as [j|]; [|exact Hm].
    rewrite dict_get_set_ne; [exact Hm|congruence]. }
  apply H. apply dict_get_set_eq.
Qed.

Section MatcherFacts.
Variable ratio : string -> string -> Q.

Lemma match_blocks_content (bl : list BlockDict) (tags_ : list Tag) :
  Forall2 (fun b b' => same_content b b' /\ classified b')
    bl (match_blocks_to_tags ratio bl tags_).
Proof.
  rewrite <- (enumerate_snd bl) at 1. apply Forall2_fmap_l.
  eapply Forall2_impl; [apply (match_blocks_outcome ratio)|].
  intros [i b] b' [(t & _ & ->)| ->]; simpl;
    (split; [apply with_classification_content|]);
    unfold classified; simpl; eauto.
Qed.

Lemma match_blocks_index (bl : list BlockDict) (tags_ : list Tag) (i : nat)
  (b : BlockDict) (t : Tag) :
  bl !! i = Some b ->
  Py.dict_get (Z.of_nat i) (index_map_of tags_) = Some t ->
  match_blocks_to_tags ratio bl tags_ !! i
  = Some (_apply_tag b t (Z.of_nat i)).
Proof.
  intros Hb Ht. unfold match_blocks_to_tags.
  destruct tags_ as [|t0 tl]; [discriminate|].
  set (tags_ := t0 :: tl) in *.
  pose proof (index_pass_spec (index_map_of tags_) (Py.enumerate bl))
    as [H1 H2]. simpl in H1, H2.
  destruct (index_pass (index_map_of tags_) (Py.enumerate bl))
    as [blocks1 matched]. simpl in H1, H2.
  apply enumerate_lookup in Hb as He.
  destruct (Forall2_lookup_l _ _ _ _ _ H1 He) as ([j b1] & Hl1 & Hj & Hb1).
  simpl in Hj, Hb1. subst j. rewrite Ht in Hb1. subst b1.
  assert (existsb (Z.eqb (Z.of_nat i)) matched = true) as Hm.
  { apply H2. split; [congruence|].
    apply in_map_iff. exists (Z.of_nat i, b). split; [reflexivity|].
    apply list_elem_of_In. eapply list_elem_of_lookup_2. exact He. }
  set (unmatched_tags :=
         List.filter (fun t => negb (in_matched matched
                                       (tag_block_index t))) tags_).
  assert (forall blocks2,
            blocks2 !! i = Some (Z.of_nat i, _apply_tag b t (Z.of_nat i)) ->
            map (fun '(i, b) => set_defaults i b) blocks2 !! i
            = Some (_apply_tag b t (Z.of_nat i))) as Hfin.
  { intros blocks2 H. change (map ?f blocks2) with (f <$> blocks2).
    rewrite list_lookup_fmap, H. reflexivity. }
  apply Hfin.
  destruct (List.filter _ blocks1) as [|ub ubs]; [exact Hl1|].
  destruct unmatched_tags as [|ut uts] eqn:Eu; [exact Hl1|].
  pose proof (fuzzy_pass_outcome ratio matched tags_ blocks1 (ut :: uts))
    as H3.
  assert (incl (ut :: uts) tags_) as Hincl.
  { rewrite <- Eu. apply filter_incl. }
  specialize (H3 Hincl).
  destruct (Forall2_lookup_l _ _ _ _ _ H3 Hl1) as ([j b2] & Hl2 & Hj & Hb2).
  simpl in Hj, Hb2. subst j. rewrite Hm in Hb2. subst b2. exact Hl2.
Qed.
End MatcherFacts.

(** X7. Matching tags to blocks never drops, adds or reorders blocks and
    never changes a block's id, text, box, font, size, colour, lines,
    words or style: it only classifies, and every block leaves it with a
    block_type, a role and a reading_order. *)
Theorem match_blocks_keeps_content (ratio : string -> string -> Q)
  (bl : list BlockDict) (tags_ : list Tag) :
  Forall2 (fun b b' => same_content b b' /\ classified b')
    bl (match_blocks_to_tags ratio bl tags_).
Proof. apply match_blocks_content. Qed.

(** X8. A tag that carries [block_index] i is applied to block i whatever
    the texts are, and the fuzzy pass does not touch that block; when
    several tags carry the same index, the last one wins. *)
Theorem index_tag_is_authoritative (ratio : string -> string -> Q)
  (bl : list BlockDict) (pre post : list Tag) (t : Tag) (i : nat)
  (b : BlockDict) :
  bl !! i = Some b ->
  tag_block_index t = Some (Z.of_nat i) ->
  Forall (fun t' => tag_block_index t' <> Some (Z.of_nat i)) post ->
  match_blocks_to_tags ratio bl (pre ++ t :: post) !! i
  = Some (_apply_tag b t (Z.of_nat i)).
Proof.
  intros Hb Ht Hpost. apply match_blocks_index; [exact Hb|].
  now apply index_map_last.
Qed.

Lemma index_tag_is_authoritative_witness :
  match_blocks_to_tags matcher_ratio [block_a; block_a]
    ([tag_abcd] ++ tag_at_1 :: [tag_abcd]) !! 1%nat
  = Some (_apply_tag block_a tag_at_1 1).
Proof.
  apply (index_tag_is_authoritative matcher_ratio [block_a; block_a]
           [tag_abcd] [tag_abcd] tag_at_1 1 block_a).
  - reflexivity.
  - reflexivity.
  - constructor; [discriminate|constructor].
Defined.

(** ** The style table *)

Lemma styles_loop_spec (sha : string -> string) (bl : list BlockDict) :
  forall (m : gmap string StyleDict) (k : string) (s : StyleDict),
    styles_loop sha bl m !! k = Some s
    <-> m !! k = Some s
        \/ (m !! k = None
            /\ exists pre b post,
                 bl = pre ++ b :: post
                 /\ _hash_style sha (style_of_block b) = k
                 /\ s = style_of_block b
                 /\ Forall (fun b' => _hash_style sha (style_of_block b') <> k)
                      pre).
Proof.
  induction bl as [|b bl IH]; intros m k s; simpl.
  - split; [now left|]. intros [H|(_ & pre & b & post & H & _)]; [exact H|].
    now destruct pre.
  - set (h := _hash_style sha (style_of_block b)).
    rewrite IH. destruct (m !! h) as [s0|] eqn:Eh.
    + split.
      * intros [H|(Hk & pre & b' & post & -> & H1 & H2 & H3)]; [now left|].
        right. split; [exact Hk|]. exists (b :: pre), b', post.
        split; [reflexivity|]. split; [exact H1|]. split; [exact H2|].
        constructor; [|exact H3]. fold h. congruence.
      * intros [H|(Hk & pre & b' & post & E & H1 & H2 & H3)]; [now left|].
        destruct pre as [|x pre]; simpl in E; injection E as <- ->.
        -- fold h in H1. congruence.
        -- right. split; [exact Hk|]. exists pre, b', post.
           apply Forall_inv_tail in H3. now repeat split.
    + destruct (decide (k = h)) as [->|N].
      * rewrite lookup_insert_eq. split.
        -- intros [[= <-]|[[=] _]]. right. split; [exact Eh|].
           exists [], b, bl. now repeat split.
        -- intros [H|(_ & pre & b' & post & E & H1 & H2 & H3)];
             [congruence|].
           left. f_equal. destruct pre as [|x pre]; simpl in E;
             injection E as <- ->; [now subst s|].
           apply Forall_inv in H3. now fold h in H3.
      * rewrite lookup_insert_ne by congruence. split.
        -- intros [H|(Hk & pre & b' & post & -> & H1 & H2 & H3)]; [now left|].
           right. split; [exact Hk|]. exists (b :: pre), b', post.
           split; [reflexivity|]. split; [exact H1|]. split; [exact H2|].
           constructor; [|exact H3]. fold h. congruence.
        -- intros [H|(Hk & pre & b' & post & E & H1 & H2 & H3)];
             [now left|].
           destruct pre as [|x pre]; simpl in E; injection E as <- ->.
           ++ fold h in H1. congruence.
           ++ right. split; [exact Hk|]. exists pre, b', post.
              apply Forall_inv_tail in H3. now repeat split.
Qed.

Lemma split_first_with {A} (P : A -> Prop) (dec : forall x, {P x} + {~ P x})
  (l : list A) (x : A) :
  In x l -> P x ->
  exists pre y post, l = pre ++ y :: post /\ P y /\ Forall (fun z => ~ P z) pre.
Proof.
  induction l as [|a l IH]; intros [] Hx.
  - subst a. exists [], x, l. now repeat split.
  - destruct (dec a) as [Ha|Ha].
    + exists [], a, l. now repeat split.
    + destruct IH as (pre & y & post & -> & Hy & Hpre); [assumption..|].
      exists (a :: pre), y, post. repeat split; [exact Hy|].
      now constructor.
Qed.

(** X9. The style table [normalize_styles] returns holds, under each
    key, the style of the first block that hashes to that key, and
    nothing else; every block receives as style_id the hash of its own
    style, which is a key of the table, and the style stored there
    hashes to that same key. *)
Theorem style_table_first_wins (sha : string -> string)
  (bl : list BlockDict) :
  let styled_blocks := fst (normalize_styles sha bl) in
  let table := snd (normalize_styles sha bl) in
  (forall k s,
     table !! k = Some s
     <-> exists pre b post,
           bl = pre ++ b :: post
           /\ _hash_style sha (style_of_block b) = k
           /\ s = style_of_block b
           /\ Forall (fun b' => _hash_style sha (style_of_block b') <> k) pre)
  /\ Forall2 (fun b b' =>
                bd_style_id b' = Some (_hash_style sha (style_of_block b))
                /\ exists s, table !! _hash_style sha (style_of_block b)
                             = Some s
                             /\ _hash_style sha s
                                = _hash_style sha (style_of_block b))
       bl styled_blocks.
Proof.
  simpl.
  assert (forall k s,
            styles_loop sha bl ∅ !! k = Some s
            <-> exists pre b post,
                  bl = pre ++ b :: post
                  /\ _hash_style sha (style_of_block b) = k
                  /\ s = style_of_block b
                  /\ Forall (fun b' => _hash_style sha (style_of_block b')
                                       <> k) pre) as H.
  { intros k s. rewrite styles_loop_spec. split.
    - intros [H|[_ H]]; [|exact H]. now rewrite lookup_empty in H.
    - intros H. right. split; [apply lookup_empty|exact H]. }
  split; [exact H|].
  apply Forall2_fmap_r. apply Forall2_same_length_lookup_2; [reflexivity|].
  intros i b b' Hb Hb'. assert (b' = b) by congruence. subst b'.
  split; [reflexivity|].
  apply list_elem_of_lookup_2, list_elem_of_In in Hb.
  destruct (split_first_with
              (fun x => _hash_style sha (style_of_block x)
                        = _hash_style sha (style_of_block b))
              (fun x => decide _) bl b Hb eq_refl)
    as (pre & y & post & E & Hy & Hpre).
  exists (style_of_block y). split; [|exact Hy].
  apply H. exists pre, y, post. now repeat split.
Qed.

(** ** Enum values *)

(** X10. The string-to-enum helpers of the assembler decode what the
    enums encode: they return the member whose value is the string, and
    on any other string they fall back to [paragraph] (type and role)
    or to no value (weight and alignment). *)
Theorem safe_enums_round_trip :
  (forall t, _safe_block_type (BlockType_value t) = t)
  /\ (forall r, _safe_role (RoleType_value r) = r)
  /\ (forall w, _safe_weight (Some (WeightType_value w)) = Some w)
  /\ (forall a, _safe_align (Some (AlignType_value a)) = Some a)
  /\ (forall s, (forall t, s <> BlockType_value t) ->
                _safe_block_type s = paragraph)
  /\ (forall s, (forall r, s <> RoleType_value r) ->
                _safe_role s = r_paragraph)
  /\ (forall s, (forall w, s <> WeightType_value w) ->
                _safe_weight (Some s) = None)
  /\ (forall s, (forall a, s <> AlignType_value a) ->
                _safe_align (Some s) = None)
  /\ _safe_weight None = None /\ _safe_align None = None.
Proof.
  split; [intros []; reflexivity|]. split; [intros []; reflexivity|].
  split; [intros []; reflexivity|]. split; [intros []; reflexivity|].
  split.
  { intros s H. unfold _safe_block_type, all_BlockType. simpl.
    repeat match goal with
           | |- context [String.eqb s ?v] =>
               destruct (String.eqb_spec s v) as [E|_];
               [exfalso;
                first [exact (H heading E) | exact (H paragraph E)
                      | exact (H list_item E) | exact (H table E)
                      | exact (H figure E) | exact (H caption E)
                      | exact (H header E) | exact (H footer E)
                      | exact (H page_number E) | exact (H code_block E)]|]
           end.
    reflexivity. }
  split.
  { intros s H. unfold _safe_role, all_RoleType. simpl.
    repeat match goal with
           | |- context [String.eqb s ?v] =>
               destruct (String.eqb_spec s v) as [E|_];
               [exfalso;
                first [exact (H r_title E) | exact (H r_section_title E)
                      | exact (H r_subsection_title E)
                      | exact (H r_paragraph E) | exact (H r_list_item E)
                      | exact (H r_table E) | exact (H r_figure E)
                      | exact (H r_caption E) | exact (H r_header E)
                      | exact (H r_footer E)]|]
           end.
    reflexivity. }
  split.
  { intros s H. unfold _safe_weight.
    destruct (String.eqb_spec s "normal") as [E|_];
      [exfalso; exact (H w_normal E)|].
    destruct (String.eqb_spec s "bold") as [E|_];
      [exfalso; exact (H w_bold E)|]. reflexivity. }
  split; [|split; reflexivity].
  intros s H. unfold _safe_align.
  destruct (String.eqb_spec s "left") as [E|_];
    [exfalso; exact (H a_left E)|].
  destruct (String.eqb_spec s "center") as [E|_];
    [exfalso; exact (H a_center E)|].
  destruct (String.eqb_spec s "right") as [E|_];
    [exfalso; exact (H a_right E)|].
  destruct (String.eqb_spec s "justify") as [E|_];
    [exfalso; exact (H a_justify E)|]. reflexivity.
Qed.

(** ** Links inside an assembled document *)

Lemma assemble_inv_simple (rnd : nat -> N)
  (merged_blocks : list (Z * list BlockDict))
  (tables_by_page : list (Z * list TableDict)) (P : Asm -> Prop)
  (pages_data : list PageData) :
  (forall st page, P st -> P (with_page st page)) ->
  (forall st pn w h bd k st' k',
     P st -> emit_block rnd pn w h st bd k = Some (st', k') -> P st') ->
  (forall st pn w h td k st' k',
     P st -> emit_table pn w h st td k = Some (st', k') -> P st') ->
  forall st k st' k',
    P st ->
    fold_run (assemble_page rnd merged_blocks tables_by_page) pages_data
      st k = Some (st', k') ->
    P st'.
Proof.
  intros Hpage Hblock Htable.
  apply (assemble_pages_inv rnd merged_blocks tables_by_page P
           (fun _ => P)).
  - intros st pd page H _ _ _ _ _ _. now apply Hpage.
  - intros st pd bd k st' k' H _ E. exact (Hblock _ _ _ _ _ _ _ _ H E).
  - intros st pd td k st' k' H _ E. exact (Htable _ _ _ _ _ _ _ _ H E).
  - auto.
Qed.

Lemma span_links_more bls sps tks b s tks' :
  span_links bls sps tks ->
  sp_id s = "s-" +:+ sp_block_id s ->
  b_id b = sp_block_id s -> b_text b = Some (sp_text s) ->
  b_bbox b = sp_bbox s -> b_bbox_norm b = sp_bbox_norm s ->
  b_style_id b = sp_style_id s ->
  Forall (fun t => tk_span_id t = Some (sp_id s)
                   /\ sp_block_id s = tk_block_id t) tks' ->
  span_links (bls ++ [b]) (sps ++ [s]) (tks ++ tks').
Proof.
  intros [H1 H2] E1 E2 E3 E4 E5 E6 Ht. split.
  - apply Forall_app. split.
    + eapply List.Forall_impl; [|exact H1].
      intros x (Hx & y & Hy & H). split; [exact Hx|].
      exists y. split; [apply in_or_app; now left|exact H].
    + constructor; [|constructor]. split; [exact E1|].
      exists b. split; [apply in_or_app; right; now left|]. now repeat split.
  - apply Forall_app. split.
    + eapply List.Forall_impl; [|exact H2].
      intros x (y & Hy & H). exists y.
      split; [apply in_or_app; now left|exact H].
    + eapply List.Forall_impl; [|exact Ht].
      intros x H. exists s. split; [apply in_or_app; right; now left|exact H].
Qed.

Lemma span_links_block bls sps tks b :
  span_links bls sps tks -> span_links (bls ++ [b]) sps tks.
Proof.
  intros [H1 H2]. split; [|exact H2].
  eapply List.Forall_impl; [|exact H1].
  intros x (Hx & y & Hy & H). split; [exact Hx|].
  exists y. split; [apply in_or_app; now left|exact H].
Qed.

Lemma assemble_span_links (rnd : nat -> N)
  (merged_blocks : list (Z * list BlockDict))
  (tables_by_page : list (Z * list TableDict))
  (pages_data : list PageData) (k : nat) (st : Asm) (k' : nat) :
  fold_run (assemble_page rnd merged_blocks tables_by_page) pages_data
    Asm_init k = Some (st, k') ->
  span_links (all_blocks st) (all_spans st) (all_tokens st).
Proof.
  apply (assemble_inv_simple rnd merged_blocks tables_by_page
           (fun st => span_links (all_blocks st) (all_spans st)
                        (all_tokens st))).
  - intros s page H. exact H.
  - intros s pn w h bd j s' j' H E.
    apply emit_block_inv in E as (_ & _ & _ & edges & _ & ->).
    cbn [all_blocks all_spans all_tokens].
    apply span_links_more; try reflexivity; [exact H|].
    apply List.Forall_forall. intros t Ht.
    apply in_map_iff in Ht as (wd & <- & _). split; reflexivity.
  - intros s pn w h td j s' j' H E.
    apply emit_table_inv in E as (_ & _ & E).
    destruct (td_bbox td) as [bbox|].
    + destruct E as (edges & _ & ->). cbn [all_blocks all_spans all_tokens].
      now apply span_links_block.
    + subst s'. exact H.
  - split; constructor.
Qed.

Lemma assemble_table_links (rnd : nat -> N)
  (merged_blocks : list (Z * list BlockDict))
  (tables_by_page : list (Z * list TableDict))
  (pages_data : list PageData) (k : nat) (st : Asm) (k' : nat) :
  fold_run (assemble_page rnd merged_blocks tables_by_page) pages_data
    Asm_init k = Some (st, k') ->
  table_links (all_blocks st) (all_spans st) (all_tables st).
Proof.
  assert (forall (bls : list Block) (tbs : list Table) b,
            Forall (fun t =>
                      forall bbox, t_bbox t = Some bbox ->
                        exists b, In b bls /\ b_id b = t_id t
                                  /\ b_type b = table
                                  /\ b_role b = Some r_table
                                  /\ b_page b = t_page t /\ b_bbox b = bbox
                                  /\ b_text b = Some "[TABLE]") tbs ->
            Forall (fun t =>
                      forall bbox, t_bbox t = Some bbox ->
                        exists b', In b' (bls ++ [b]) /\ b_id b' = t_id t
                                   /\ b_type b' = table
                                   /\ b_role b' = Some r_table
                                   /\ b_page b' = t_page t
                                   /\ b_bbox b' = bbox
                                   /\ b_text b' = Some "[TABLE]") tbs)
    as Hmore.
  { intros bls tbs b H. eapply List.Forall_impl; [|exact H].
    intros t Ht bbox Hb. destruct (Ht bbox Hb) as (y & Hy & Hr).
    exists y. split; [apply in_or_app; now left|exact Hr]. }
  apply (assemble_inv_simple rnd merged_blocks tables_by_page
           (fun st => table_links (all_blocks st) (all_spans st)
                        (all_tables st))).
  - intros s page H. exact H.
  - intros s pn w h bd j s' j' [H1 H2] E.
    apply emit_block_inv in E as (_ & _ & _ & edges & _ & ->).
    cbn [all_blocks all_spans all_tables]. split.
    + now apply Hmore.
    + rewrite !length_app, H2. simpl. lia.
  - intros s pn w h td j s' j' [H1 H2] E.
    apply emit_table_inv in E as (_ & _ & E).
    destruct (td_bbox td) as [bbox|] eqn:Eb.
    + destruct E as (edges & _ & ->).
      cbn [all_blocks all_spans all_tables]. split.
      * apply Forall_app. split; [now apply Hmore|].
        constructor; [|constructor]. cbn [t_bbox t_id t_page].
        intros bb [= <-]. eexists. split.
        { apply in_or_app. right. now left. }
        now repeat split.
      * rewrite List.filter_app, !length_app, H2.
        cbn [List.filter has_bbox t_bbox length]. lia.
    + subst s'. cbn [all_blocks all_spans all_tables]. split.
      * apply Forall_app. split; [exact H1|].
        constructor; [|constructor]. cbn [t_bbox]. rewrite ?Eb. discriminate.
      * rewrite List.filter_app, length_app, H2.
        cbn [List.filter has_bbox t_bbox length]. rewrite ?Eb.
        cbn [length]. lia.
  - split; [constructor|reflexivity].
Qed.

(** X11. In every assembled document each span belongs to a block of the
    document, is named ["s-" + block id] and repeats that block's text,
    bbox, bbox_norm and style_id; and each token's span_id is the id of
    a span of the document that belongs to the token's own block. *)
Theorem spans_and_tokens_linked (rnd : nat -> N) (doc_id : string)
  (pages_data : list PageData) (merged_blocks : list (Z * list BlockDict))
  (tables_by_page : list (Z * list TableDict))
  (styles_ : gmap string StyleDict) (source_type : SourceType) (k : nat)
  (doc : LayoutDocument) (k' : nat) :
  assemble_document rnd doc_id pages_data merged_blocks tables_by_page
    styles_ source_type k = Some (doc, k') ->
  span_links (blocks doc) (default [] (spans doc))
    (default [] (tokens doc)).
Proof.
  intros H. apply assemble_document_inv in H
    as (st & Hf & _ & _ & Hb & Hs & Ht & _ & _ & _).
  rewrite Hb, Hs, Ht. exact (assemble_span_links _ _ _ _ _ _ _ Hf).
Qed.

Lemma spans_and_tokens_linked_witness :
  exists doc k',
    sample_assembly = Some (doc, k')
    /\ length (default [] (tokens doc)) = 2%nat
    /\ span_links (blocks doc) (default [] (spans doc))
         (default [] (tokens doc)).
Proof.
  destruct sample_assembly as [[doc k']|] eqn:E;
    [|vm_compute in E; discriminate].
  exists doc, k'. split; [reflexivity|]. split.
  - vm_compute in E. injection E as <- _. reflexivity.
  - exact (spans_and_tokens_linked sample_rnd "doc" sample_pages
             sample_merged sample_tables ∅ src_pdf 0%nat doc k' E).
Defined.

(** X12. In every assembled document each table that has a bbox is
    represented by a block with the table's id, page and bbox, of type
    and role [table] and text "[TABLE]"; and the number of blocks is the
    number of spans plus the number of such tables. *)
Theorem tables_have_blocks (rnd : nat -> N) (doc_id : string)
  (pages_data : list PageData) (merged_blocks : list (Z * list BlockDict))
  (tables_by_page : list (Z * list TableDict))
  (styles_ : gmap string StyleDict) (source_type : SourceType) (k : nat)
  (doc : LayoutDocument) (k' : nat) :
  assemble_document rnd doc_id pages_data merged_blocks tables_by_page
    styles_ source_type k = Some (doc, k') ->
  table_links (blocks doc) (default [] (spans doc))
    (default [] (tables doc)).
Proof.
  intros H. apply assemble_document_inv in H
    as (st & Hf & _ & _ & Hb & Hs & _ & Ht & _ & _).
  rewrite Hb, Hs, Ht. exact (assemble_table_links _ _ _ _ _ _ _ Hf).
Qed.

Lemma tables_have_blocks_witness :
  exists doc k',
    sample_assembly = Some (doc, k')
    /\ length (default [] (tables doc)) = 1%nat
    /\ table_links (blocks doc) (default [] (spans doc))
         (default [] (tables doc)).
Proof.
  destruct sample_assembly as [[doc k']|] eqn:E;
    [|vm_compute in E; discriminate].
  exists doc, k'. split; [reflexivity|]. split.
  - vm_compute in E. injection E as <- _. reflexivity.
  - exact (tables_have_blocks sample_rnd "doc" sample_pages
             sample_merged sample_tables ∅ src_pdf 0%nat doc k' E).
Defined.

(** ** The pages of a document *)

Lemma assemble_pages_pages rnd merged_blocks tables_by_page
  (pages_data : list PageData) :
  forall st k st' k',
    fold_run (assemble_page rnd merged_blocks tables_by_page) pages_data
      st k = Some (st', k') ->
    a_pages st' = a_pages st ++ map page_of pages_data.
Proof.
  induction pages_data as [|pd pds IH]; intros st k st' k' H; simpl in H.
  - apply ret_Some in H as [-> _]. simpl. now rewrite app_nil_r.
  - apply bind_Some in H as (st1 & k1 & H1 & H).
    apply IH in H. rewrite H. clear H IH.
    unfold assemble_page in H1.
    apply bind_Some in H1 as (page & k2 & Hp & H1).
    apply lift_Some in Hp as [Hp ->].
    apply bind_Some in H1 as (st2 & k3 & Hb & Ht).
    apply fold_emit_block_blocks in Hb as [_ Hb].
    apply fold_emit_table_blocks in Ht as [_ Ht].
    rewrite Ht, Hb. cbn [a_pages]. rewrite <- app_assoc. do 2 f_equal.
    unfold new_Page in Hp. destruct (_ && _); [|discriminate].
    now injection Hp as <-.
Qed.

Lemma filter_map_comm {A B} (f : A -> B) (p : B -> bool) (l : list A) :
  map f (List.filter (fun x => p (f x)) l) = List.filter p (map f l).
Proof.
  induction l as [|x l IH]; simpl; [reflexivity|].
  destruct (p (f x)); simpl; now rewrite IH.
Qed.

Lemma In_extract (pdf : list PdfPage) (pd : PageData) :
  In pd (extract_chars_from_pdf pdf) ->
  exists p, pdf !! Z.to_nat (pd_page_number pd - 1) = Some p
            /\ pd_width pd = pp_width p /\ pd_height pd = pp_height p
            /\ pd_chars pd = pp_chars p.
Proof.
  unfold extract_chars_from_pdf. intros H.
  apply in_map_iff in H as ([i p] & <- & H).
  apply list_elem_of_In, list_elem_of_lookup_1 in H as [n Hn].
  assert (forall n, Py.enumerate pdf !! n = Some (i, p) ->
                    i = Z.of_nat n /\ pdf !! n = Some p) as G.
  { clear. intros n H.
    destruct (pdf !! n) as [q|] eqn:E.
    - rewrite (enumerate_lookup _ _ _ E) in H. now injection H as <- <-.
    - apply lookup_ge_None in E.
      assert (length (Py.enumerate pdf) = length pdf) as L.
      { unfold Py.enumerate.
        rewrite length_combine, length_map, length_seq. lia. }
      apply lookup_lt_Some in H. lia. }
  destruct (G n Hn) as [-> Hp]. exists p. cbn [pd_page_number pd_width
    pd_height pd_chars].
  replace (Z.to_nat (Z.of_nat n + 1 - 1)) with n by lia. now repeat split.
Qed.

(** X13. When [process_pdf] returns, with or without the tagger, the
    pages of the document are the selected pages of the file in file
    order, under their original page numbers; each has the width and
    height of the page of the file with that number, rotation 0 and unit
    pt; and page_count counts the pages of the document, not those of
    the file. *)
Theorem process_pdf_pages (rnd : nat -> N) (sha : string -> string)
  (ratio : string -> string -> Q)
  (tagger : list (Z * list BlockDict) -> option (list (Z * list Tag)))
  (pdf : list PdfPage) (use_vision : bool) (page_range : option string)
  (k : nat) (doc : LayoutDocument) (k' : nat) :
  process_pdf rnd sha ratio tagger pdf use_vision page_range k
  = Some (doc, k') ->
  let total := Z.of_nat (length pdf) in
  map pg_page_number (pages doc)
  = List.filter (selected page_range total) (range 1 (total + 1))
  /\ Forall (fun pg =>
               exists p, pdf !! Z.to_nat (pg_page_number pg - 1) = Some p
                         /\ pg_width pg = pp_width p
                         /\ pg_height pg = pp_height p
                         /\ pg_rotation pg = 0 /\ pg_unit pg = pt)
       (pages doc)
  /\ page_count (document doc) = Some (Z.of_nat (length (pages doc)))
  /\ source (document doc) = src_pdf.
Proof.
  intros H total. unfold process_pdf in H.
  apply bind_Some in H as (doc_id & k1 & _ & H). cbv zeta in H.
  apply bind_Some in H as (results & k2 & _ & H).
  destruct (collect_geometry results) as [merged0 tables0].
  unfold normalize_and_assemble in H. cbv zeta in H.
  apply assemble_document_inv in H
    as (st & Hf & Hd & Hp & _).
  apply assemble_pages_pages in Hf. simpl in Hf.
  rewrite Hd, Hp, Hf. cbn [page_count source].
  assert (forall l : list PageData,
            map pg_page_number (map page_of l) = map pd_page_number l) as Hn.
  { intros l. rewrite map_map. reflexivity. }
  assert (match page_range with
          | Some r =>
              if Py.truthy r
              then List.filter
                     (fun p => bool_decide
                                 (pd_page_number p
                                  ∈ _parse_page_range r
                                      (Z.of_nat
                                         (length
                                            (extract_chars_from_pdf pdf)))))
                     (extract_chars_from_pdf pdf)
              else extract_chars_from_pdf pdf
          | None => extract_chars_from_pdf pdf
          end
          = List.filter (fun pd => selected page_range total
                                     (pd_page_number pd))
              (extract_chars_from_pdf pdf)) as Esel.
  { assert (length (extract_chars_from_pdf pdf) = length pdf) as L.
    { rewrite <- (length_map pd_page_number), extract_page_numbers.
      now rewrite length_map, length_seq. }
    rewrite L. fold total. unfold selected.
    destruct page_range as [r|]; [destruct (Py.truthy r)|];
      try reflexivity; symmetry; apply filter_all;
      apply List.Forall_forall; reflexivity. }
  rewrite Esel. split; [|split; [|split; reflexivity]].
  - rewrite Hn, (filter_map_comm pd_page_number (selected page_range total)).
    rewrite extract_page_numbers. f_equal. unfold range.
    replace (Z.to_nat (total + 1 - 1)) with (length pdf) by (unfold total; lia).
    apply map_ext. intros i. lia.
  - apply List.Forall_forall. intros pg Hpg.
    apply in_map_iff in Hpg as (pd & <- & Hpd).
    apply filter_In in Hpd as [Hpd _].
    apply In_extract in Hpd as (p & E1 & E2 & E3 & _).
    exists p. now repeat split.
Qed.

Lemma process_pdf_pages_witness :
  exists doc k',
    process_pdf sample_rnd sample_digest matcher_ratio (fun _ => None)
      two_page_pdf false (Some "2") 0%nat = Some (doc, k')
    /\ map pg_page_number (pages doc) = [2]
    /\ page_count (document doc) = Some 1.
Proof.
  destruct (process_pdf sample_rnd sample_digest matcher_ratio
              (fun _ => None) two_page_pdf false (Some "2") 0%nat)
    as [[doc k']|] eqn:E; [|vm_compute in E; discriminate].
  exists doc, k'. split; [reflexivity|].
  destruct (process_pdf_pages sample_rnd sample_digest matcher_ratio
              (fun _ => None) two_page_pdf false (Some "2") 0%nat doc k' E)
    as (H1 & _ & H2 & _).
  split.
  - rewrite H1. vm_compute. reflexivity.
  - rewrite H2. f_equal.
    rewrite <- (length_map pg_page_number), H1. vm_compute. reflexivity.
Defined.

(** ** Page ranges in general *)

Lemma parse_page_range_elem (page_range : string) (total p : Z) :
  p ∈ _parse_page_range page_range total
  <-> 1 <= p <= total
      /\ ((exists part, In part (Py.split_char "," page_range)
                        /\ part_selects total part p)
          \/ forall part q, In part (Py.split_char "," page_range) ->
                            ~ part_selects total part q).
Proof.
  unfold _parse_page_range.
  destruct (decide (fold_left (parse_part total)
                      (Py.split_char "," page_range) ∅ = ∅)) as [E|E].
  - rewrite elem_of_list_to_set, list_elem_of_In, in_range.
    assert (forall part q, In part (Py.split_char "," page_range) ->
                           ~ part_selects total part q) as Hnone.
    { intros part q Hin Hsel.
      assert (q ∈ fold_left (parse_part total)
                    (Py.split_char "," page_range) ∅) as Hq.
      { apply elem_of_parse_parts. right. now exists part. }
      rewrite E in Hq. set_solver. }
    split.
    + intros H. split; [lia|]. now right.
    + intros [H _]. lia.
  - rewrite elem_of_parse_parts. split.
    + intros [H|(part & Hin & Hsel)]; [set_solver|].
      split; [exact (proj1 Hsel)|]. left. now exists part.
    + intros [_ [H|Hnone]]; [now right|].
      exfalso. apply E. apply set_eq. intros q.
      rewrite elem_of_parse_parts. split; [|set_solver].
      intros [H|(part & H1 & H2)]; [exact H|].
      exfalso. exact (Hnone part q H1 H2).
Qed.

(** X14. For every range string and page count, a page is selected
    exactly when it is a page of the document and either some
    comma-separated part denotes it or no part denotes any page of the
    document (then all pages are selected); so no page outside 1..total
    is ever selected, and on a document with at least one page the
    selection is never empty. *)
Theorem parse_page_range_general (page_range : string) (total : Z) :
  (forall p,
     p ∈ _parse_page_range page_range total
     <-> 1 <= p <= total
         /\ ((exists part, In part (Py.split_char "," page_range)
                           /\ part_selects total part p)
             \/ forall part q, In part (Py.split_char "," page_range) ->
                               ~ part_selects total part q))
  /\ (forall p, p ∈ _parse_page_range page_range total -> 1 <= p <= total)
  /\ (1 <= total -> _parse_page_range page_range total <> ∅).
Proof.
  split; [intros p; apply parse_page_range_elem|]. split.
  - intros p H. now apply parse_page_range_elem in H.
  - intros Ht. unfold _parse_page_range.
    destruct (decide (fold_left (parse_part total)
                        (Py.split_char "," page_range) ∅ = ∅)) as [E|E];
      [|exact E].
    intros H. assert (1 ∈ (∅ : gset Z)) as H1; [|set_solver].
    rewrite <- H, elem_of_list_to_set, list_elem_of_In, in_range. lia.
Qed.

(** ** Colours *)

Lemma int_of_float_bounds (x : Q) (n : Z) :
  (0 <= x)%Q -> (x <= inject_Z n)%Q -> 0 <= Py.int_of_float x <= n.
Proof.
  intros H0 Hn. unfold Py.int_of_float.
  assert (0 <= Qnum x) as Hnum.
  { destruct x as [a d]. unfold Qle in H0. simpl in *. lia. }
  rewrite Z.quot_div_nonneg by lia.
  assert (Qnum x / Z.pos (Qden x) = Qfloor x) as -> by now destruct x.
  split.
  - rewrite <- (Qfloor_Z 0). now apply Qfloor_resp_le.
  - rewrite <- (Qfloor_Z n). now apply Qfloor_resp_le.
Qed.

Lemma clamp_unit (v : Q) :
  (0 <= Py.max 0 (Py.min 1 v) /\ Py.max 0 (Py.min 1 v) <= 1)%Q.
Proof.
  destruct (min_cases 1 v) as [[-> ?]|[-> ?]];
    destruct (max_cases 0 1) as [[E ?]|[E ?]];
    destruct (max_cases 0 v) as [[E' ?]|[E' ?]];
    rewrite ?E, ?E'; split; lra.
Qed.

Lemma channel_byte (v : Q) : 0 <= channel v <= 255.
Proof.
  unfold channel. destruct (clamp_unit v) as [H0 H1].
  apply int_of_float_bounds.
  - apply Qmult_le_0_compat; lra.
  - change (inject_Z 255) with (1 * 255)%Q.
    apply Qmult_le_compat_r; lra.
Qed.

Lemma cmyk_byte (c k : Q) :
  (0 <= c)%Q -> (c <= 1)%Q -> (0 <= k)%Q -> (k <= 1)%Q ->
  0 <= Py.int_of_float (255 * (1 - c) * (1 - k))%Q <= 255.
Proof.
  intros Hc0 Hc1 Hk0 Hk1. apply int_of_float_bounds.
  - apply Qmult_le_0_compat; [|lra].
    apply Qmult_le_0_compat; lra.
  - change (inject_Z 255) with 255%Q.
    assert ((1 - c) * (1 - k) <= 1 * (1 - k))%Q as H
      by (apply Qmult_le_compat_r; lra).
    assert (255 * (1 - c) * (1 - k) == 255 * ((1 - c) * (1 - k)))%Q as E
      by ring.
    rewrite E. lra.
Qed.

Lemma format_byte (r : Z) : 0 <= r <= 255 -> two_hex (format_02x r) = true.
Proof.
  intros H.
  assert (forallb (fun n => two_hex (format_02x (Z.of_nat n))) (seq 0 256)
          = true) as Hall by (vm_compute; reflexivity).
  rewrite forallb_forall in Hall.
  specialize (Hall (Z.to_nat r)). rewrite Z2Nat.id in Hall by lia.
  apply Hall. apply in_seq. lia.
Qed.

Lemma forallb_str_app (p : ascii -> bool) (a b : string) :
  Py.forallb_str p (a +:+ b) = Py.forallb_str p a && Py.forallb_str p b.
Proof.
  induction a as [|c a IH]; [reflexivity|].
  change (String c a +:+ b) with (String c (a +:+ b)). simpl.
  now rewrite IH, andb_assoc.
Qed.

Lemma length_app_str (a b : string) :
  String.length (a +:+ b) = (String.length a + String.length b)%nat.
Proof.
  induction a as [|c a IH]; [reflexivity|].
  change (String c a +:+ b) with (String c (a +:+ b)). simpl. now rewrite IH.
Qed.

Lemma hex_color_ok (r g b : Z) :
  0 <= r <= 255 -> 0 <= g <= 255 -> 0 <= b <= 255 ->
  is_hex_color (hex_color r g b) = true.
Proof.
  intros Hr Hg Hb. unfold hex_color.
  pose proof (format_byte r Hr) as Fr. pose proof (format_byte g Hg) as Fg.
  pose proof (format_byte b Hb) as Fb. unfold two_hex in *.
  apply andb_true_iff in Fr as [Lr Cr]. apply andb_true_iff in Fg as [Lg Cg].
  apply andb_true_iff in Fb as [Lb Cb].
  apply Nat.eqb_eq in Lr, Lg, Lb.
  change ("#" +:+ ?x) with (String "#" x). unfold is_hex_color.
  rewrite !length_app_str, !forallb_str_app, Lr, Lg, Lb, Cr, Cg, Cb.
  reflexivity.
Qed.

(** X15. [_extract_color] returns a well-formed colour, [#] and six
    lower-case hexadecimal digits, for every gray and RGB value, whatever
    the components are (they are clamped to [0,1]), and for every CMYK
    value whose components lie in [0,1]; a missing colour or one with
    another number of components gives black.  CMYK components are not
    clamped: (2, 0, 0, 0) gives an ill-formed colour. *)
Theorem extract_color_well_formed :
  (forall r g b, is_hex_color (_extract_color (Some [r; g; b])) = true)
  /\ (forall v, is_hex_color (_extract_color (Some [v])) = true)
  /\ (forall c m y k,
        (0 <= c <= 1)%Q -> (0 <= m <= 1)%Q -> (0 <= y <= 1)%Q ->
        (0 <= k <= 1)%Q ->
        is_hex_color (_extract_color (Some [c; m; y; k])) = true)
  /\ _extract_color None = "#000000"
  /\ (forall l, length l <> 1%nat -> length l <> 3%nat ->
                length l <> 4%nat -> _extract_color (Some l) = "#000000")
  /\ _extract_color (Some [2; 0; 0; 0]%Q) = "#-ffffff".
Proof.
  split; [|split; [|split; [|split; [|split]]]].
  - intros r g b. apply hex_color_ok; apply channel_byte.
  - intros v. apply hex_color_ok; apply channel_byte.
  - intros c m y k [] [] [] []. apply hex_color_ok; now apply cmyk_byte.
  - reflexivity.
  - intros [|a [|b [|c [|d [|e l]]]]] H1 H3 H4; simpl in *;
      try reflexivity; congruence.
  - vm_compute. reflexivity.
Qed.

Lemma extract_color_well_formed_witness :
  is_hex_color (_extract_color (Some [0; 1 # 2; 1; 0]%Q)) = true.
Proof.
  apply (proj1 (proj2 (proj2 extract_color_well_formed)));
    split; vm_compute; discriminate.
Defined.

(** ** Paragraph classification *)

Lemma find_first {A} (p : A -> bool) (l : list A) (x : A) (pre post : list A) :
  l = pre ++ x :: post -> p x = true ->
  Forall (fun y => p y = false) pre -> find p l = Some x.
Proof.
  intros -> Hx Hpre. induction Hpre as [|y pre Hy _ IH]; simpl.
  - now rewrite Hx.
  - now rewrite Hy.
Qed.

(** X16. The DOCX paragraph classifier only produces pairs of block type
    and role that are values of the schema's enums, so that the
    assembler's fall-back never applies to them.  A style name that
    contains "title" always gives a heading with role title; a heading
    style gets its level from the smallest of the digits 1 to 6 that
    occurs in the style name: levels 1 and 2 are section titles, levels
    3 to 6 subsection titles. *)
Theorem classify_paragraph_vocabulary (style_name : string) (font_size : Q)
  (is_bold : bool) (text : string) :
  let r := _classify_paragraph style_name font_size is_bold text in
  In r docx_pairs
  /\ BlockType_value (_safe_block_type (fst r)) = fst r
  /\ RoleType_value (_safe_role (snd r)) = snd r
  /\ (Py.contains "title" style_name = true -> r = ("heading", "title"))
  /\ (Py.contains "heading" style_name = true ->
      Py.contains "title" style_name = false ->
      forall lvl, 1 <= lvl <= 6 ->
        Py.contains (str_int lvl) style_name = true ->
        (forall l, 1 <= l < lvl ->
                   Py.contains (str_int l) style_name = false) ->
        r = ("heading",
             if lvl <=? 2 then "section_title" else "subsection_title")).
Proof.
  intros r.
  assert (In r docx_pairs) as Hin.
  { subst r. unfold _classify_paragraph, docx_pairs.
    repeat match goal with
           | |- context [if ?c then _ else _] => destruct c
           | |- context [match find ?p ?l with _ => _ end] =>
               destruct (find p l)
           end; simpl; tauto. }
  split; [exact Hin|]. split; [|split; [|split]].
  - unfold docx_pairs in Hin. simpl in Hin.
    repeat destruct Hin as [<-|Hin]; try reflexivity. destruct Hin.
  - unfold docx_pairs in Hin. simpl in Hin.
    repeat destruct Hin as [<-|Hin]; try reflexivity. destruct Hin.
  - intros Ht. subst r. unfold _classify_paragraph.
    now rewrite Ht, orb_true_r.
  - intros Hh Ht lvl Hl Hc Hmin. subst r. unfold _classify_paragraph.
    rewrite Hh, Ht. change (true || false) with true. cbv iota.
    assert (find (fun lvl => Py.contains (str_int lvl) style_name)
              (range 1 7) = Some lvl) as ->.
    { apply (find_first _ _ lvl (range 1 lvl) (range (lvl + 1) 7)).
      - assert (lvl = 1 \/ lvl = 2 \/ lvl = 3 \/ lvl = 4 \/ lvl = 5
                \/ lvl = 6) as Hcases by lia.
        destruct Hcases as [->|[->|[->|[->|[->| ->]]]]]; reflexivity.
      - exact Hc.
      - apply List.Forall_forall. intros l Hl'. apply in_range in Hl'.
        now apply Hmin. }
    now destruct (lvl <=? 2).
Qed.

Lemma classify_paragraph_vocabulary_witness :
  _classify_paragraph "heading 3" 11 false "Scope"
  = ("heading", "subsection_title").
Proof.
  apply (proj2 (proj2 (proj2 (proj2
           (classify_paragraph_vocabulary "heading 3" 11 false "Scope"))))
           eq_refl eq_refl 3); [lia|reflexivity|].
  intros l Hl. assert (l = 1 \/ l = 2) as [->| ->] by lia; reflexivity.
Defined.

(** ** Classification without the tagger *)

Lemma assemble_blocks_forall (rnd : nat -> N)
  (merged_blocks : list (Z * list BlockDict))
  (tables_by_page : list (Z * list TableDict)) (P : Block -> Prop)
  (pages_data : list PageData) (k : nat) (st : Asm) (k' : nat) :
  (forall i bds bd id pn w h,
     In (i, bds) merged_blocks -> In bd bds ->
     P (text_block id pn w h bd)) ->
  (forall id pn w h bbox n, P (table_block id pn w h bbox n)) ->
  fold_run (assemble_page rnd merged_blocks tables_by_page) pages_data
    Asm_init k = Some (st, k') ->
  Forall P (all_blocks st).
Proof.
  intros Htext Htable.
  apply (assemble_pages_inv rnd merged_blocks tables_by_page
           (fun s => Forall P (all_blocks s))
           (fun _ s => Forall P (all_blocks s))).
  - intros s pd page H _ _ _ _ _ _. exact H.
  - intros s pd bd j s' j' H Hin E.
    apply emit_block_inv in E as (_ & _ & _ & edges & _ & ->).
    cbn [all_blocks]. apply Forall_app. split; [exact H|].
    constructor; [|constructor].
    apply page_blocks_In in Hin as (bds & H1 & H2).
    exact (Htext _ _ _ _ _ _ _ H1 H2).
  - intros s pd td j s' j' H _ E.
    apply emit_table_inv in E as (_ & _ & E).
    destruct (td_bbox td) as [bbox|].
    + destruct E as (edges & _ & ->). cbn [all_blocks].
      apply Forall_app. split; [exact H|].
      constructor; [apply Htable|constructor].
    + now subst s'.
  - auto.
  - constructor.
Qed.

Lemma guess_block_type_values (b : BlockDict) :
  _guess_block_type b = "heading" \/ _guess_block_type b = "page_number"
  \/ _guess_block_type b = "list_item" \/ _guess_block_type b = "paragraph".
Proof.
  unfold _guess_block_type.
  repeat match goal with
         | |- context [if ?c then _ else _] => destruct c
         end; tauto.
Qed.

Lemma heuristic_pair (i : Z) (b : BlockDict) :
  let c := classify_heuristic i b in
  exists bt r,
    bd_block_type c = Some bt /\ bd_role c = Some r
    /\ In (_safe_block_type bt, _safe_role r) heuristic_pairs.
Proof.
  simpl. eexists _, _. split; [reflexivity|]. split; [reflexivity|].
  unfold _guess_role. cbn [bd_block_type with_classification default].
  destruct (guess_block_type_values b) as [E|[E|[E|E]]]; rewrite E;
    vm_compute; tauto.
Qed.

(** X17. In every document [process_pdf] returns with the tagger
    disabled, a block is either a synthetic table block, of type and
    role [table], or carries one of four pairs of type and role:
    heading and section_title, page_number and footer, list_item and
    list_item, paragraph and paragraph. *)
Theorem heuristic_vocabulary (rnd : nat -> N) (sha : string -> string)
  (ratio : string -> string -> Q)
  (tagger : list (Z * list BlockDict) -> option (list (Z * list Tag)))
  (pdf : list PdfPage) (page_range : option string) (k : nat)
  (doc : LayoutDocument) (k' : nat) :
  process_pdf rnd sha ratio tagger pdf false page_range k = Some (doc, k') ->
  Forall (fun b =>
            (b_type b = table /\ b_role b = Some r_table)
            \/ exists r, b_role b = Some r
                         /\ In (b_type b, r) heuristic_pairs)
    (blocks doc).
Proof.
  unfold process_pdf. intros H.
  apply bind_Some in H as (doc_id & k1 & _ & H). cbv zeta in H.
  apply bind_Some in H as (results & k2 & _ & H).
  destruct (collect_geometry results) as [merged0 tables0].
  unfold classify, normalize_and_assemble in H. cbv zeta in H.
  apply assemble_document_inv in H as (st & Hf & _ & _ & Hb & _).
  rewrite Hb. revert Hf. apply assemble_blocks_forall.
  - intros i bds bd id pn w h Hin Hbd. right.
    apply on_pages_In in Hin as (bds1 & Hin & ->).
    apply on_pages_In in Hin as (bds0 & _ & ->).
    simpl in Hbd. apply in_map_iff in Hbd as (bd1 & <- & Hbd).
    unfold enumerate_map in Hbd.
    apply in_map_iff in Hbd as ([j b0] & <- & _).
    destruct (heuristic_pair j b0) as (bt & r & E1 & E2 & Hp).
    exists (_safe_role r). unfold text_block. cbn [b_role b_type].
    change (bd_block_type (styled sha (classify_heuristic j b0)))
      with (bd_block_type (classify_heuristic j b0)).
    change (bd_role (styled sha (classify_heuristic j b0)))
      with (bd_role (classify_heuristic j b0)).
    rewrite E1, E2. split; [reflexivity|exact Hp].
  - intros id pn w h bbox n. left. split; reflexivity.
Qed.

Lemma heuristic_vocabulary_witness :
  exists doc k',
    process_pdf sample_rnd sample_digest matcher_ratio (fun _ => None)
      two_page_pdf false None 0%nat = Some (doc, k')
    /\ length (blocks doc) = 3%nat
    /\ Forall (fun b =>
                 (b_type b = table /\ b_role b = Some r_table)
                 \/ exists r, b_role b = Some r
                              /\ In (b_type b, r) heuristic_pairs)
         (blocks doc).
Proof.
  destruct (process_pdf sample_rnd sample_digest matcher_ratio
              (fun _ => None) two_page_pdf false None 0%nat)
    as [[doc k']|] eqn:E; [|vm_compute in E; discriminate].
  exists doc, k'. split; [reflexivity|]. split.
  - pose proof E as E'. vm_compute in E'. injection E' as <- _. reflexivity.
  - exact (heuristic_vocabulary sample_rnd sample_digest matcher_ratio
             (fun _ => None) two_page_pdf None 0%nat doc k' E).
Defined.

(** ** When the pipeline returns *)

Lemma fold_run_ok {S A} (f : S -> A -> Run S) (l : list A) :
  (forall st x k, In x l -> exists st' k', f st x k = Some (st', k')) ->
  forall st k, exists st' k', fold_run f l st k = Some (st', k').
Proof.
  induction l as [|x l IH]; intros Hf st k; simpl.
  - now exists st, k.
  - destruct (Hf st x k (or_introl eq_refl)) as (st1 & k1 & E).
    unfold bind. rewrite E. apply IH.
    intros s y j Hy. apply Hf. now right.
Qed.

Lemma for_each_ok {A B} (Q : A -> B -> Prop) (f : A -> Run B) (l : list A) :
  (forall x k, In x l -> exists y k', f x k = Some (y, k') /\ Q x y) ->
  forall k, exists ys k', for_each f l k = Some (ys, k') /\ Forall2 Q l ys.
Proof.
  induction l as [|x l IH]; intros Hf k; simpl.
  - exists [], k. split; [reflexivity|constructor].
  - destruct (Hf x k (or_introl eq_refl)) as (y & k1 & E & Hq).
    destruct (IH (fun z j Hz => Hf z j (or_intror Hz)) k1)
      as (ys & k2 & E2 & Hqs).
    exists (y :: ys), k2. unfold bind at 1. rewrite E.
    unfold bind at 1. rewrite E2. split; [reflexivity|now constructor].
Qed.

Lemma chain_edge_ok (prev : option string) (target : string)
  (edges : list Edge) :
  exists edges', chain_edge prev target edges = Some edges'.
Proof.
  unfold chain_edge. destruct prev as [p|]; [|now eexists].
  destruct (Py.truthy p); now eexists.
Qed.

Lemma emit_block_ok (rnd : nat -> N) (pn : Z) (w h : Q) (st : Asm)
  (bd : BlockDict) (k : nat) :
  1 <= pn -> 0 <= default 0 (bd_reading_order bd) ->
  exists st' k', emit_block rnd pn w h st bd k = Some (st', k').
Proof.
  intros Hpn Hro. unfold emit_block, bind, uuid4, lift.
  unfold new_Block. cbn [b_page b_reading_order text_block].
  destruct (Z.leb_spec 1 pn); [|lia].
  destruct (Z.leb_spec 0 (default 0 (bd_reading_order bd))); [|lia].
  cbn [andb].
  destruct (chain_edge_ok (prev_block_id st)
              (default (str_uuid (uuid4_int (rnd k))) (bd_id bd))
              (all_edges st)) as (e & ->).
  now eexists _, _.
Qed.

Lemma mapM_map {A B} (f : A -> option B) (g : A -> B) (l : list A) :
  Forall (fun x => f x = Some (g x)) l -> mapM f l = Some (map g l).
Proof.
  intros H. apply mapM_Some. induction H; simpl; constructor; auto.
Qed.

Lemma emit_table_ok (pn : Z) (w h : Q) (st : Asm) (td : TableDict)
  (k : nat) :
  1 <= pn -> table_valid td ->
  exists st' k', emit_table pn w h st td k = Some (st', k').
Proof.
  intros Hpn (Hr & Hc & Hcells). unfold emit_table.
  rewrite (mapM_map _ (table_cell w h)).
  2:{ eapply List.Forall_impl; [|exact Hcells].
      intros c (H1 & H2 & H3 & H4). unfold new_TableCell.
      cbn [tc_row tc_col tc_row_span tc_col_span table_cell].
      destruct (Z.leb_spec 0 (cd_row c)); [|lia].
      destruct (Z.leb_spec 0 (cd_col c)); [|lia].
      destruct (Z.leb_spec 1 (cd_row_span c)); [|lia].
      destruct (Z.leb_spec 1 (cd_col_span c)); [|lia]. reflexivity. }
  unfold bind, lift, new_Table. cbn [t_page t_rows t_cols].
  destruct (Z.leb_spec 1 pn); [|lia].
  destruct (Z.leb_spec 1 (td_rows td)); [|lia].
  destruct (Z.leb_spec 1 (td_cols td)); [|lia]. cbn [andb].
  destruct (td_bbox td) as [bbox|]; [|now eexists _, _].
  unfold new_Block. cbn [b_page b_reading_order table_block].
  destruct (Z.leb_spec 1 pn); [|lia].
  destruct (Z.leb_spec 0 (Z.of_nat (length (all_blocks st)))); [|lia].
  cbn [andb].
  destruct (chain_edge_ok (prev_block_id st) (td_id td) (all_edges st))
    as (e & ->).
  now eexists _, _.
Qed.

Lemma assemble_page_ok (rnd : nat -> N)
  (merged_blocks : list (Z * list BlockDict))
  (tables_by_page : list (Z * list TableDict)) (st : Asm) (pd : PageData)
  (k : nat) :
  1 <= pd_page_number pd -> (0 < pd_width pd)%Q -> (0 < pd_height pd)%Q ->
  (forall i bds bd, In (i, bds) merged_blocks -> In bd bds ->
                    0 <= default 0 (bd_reading_order bd)) ->
  (forall i tds td, In (i, tds) tables_by_page -> In td tds ->
                    table_valid td) ->
  exists st' k',
    assemble_page rnd merged_blocks tables_by_page st pd k = Some (st', k').
Proof.
  intros Hn Hw Hh Hb Ht.
  assert (new_Page (pd_page_number pd) (pd_width pd) (pd_height pd) 0
          = Some (page_of pd)) as Enew.
  { unfold new_Page. destruct (Z.leb_spec 1 (pd_page_number pd)); [|lia].
    apply ltb_spec in Hw, Hh. now rewrite Hw, Hh. }
  destruct (fold_run_ok
              (emit_block rnd (pd_page_number pd) (pd_width pd)
                 (pd_height pd)) (page_blocks merged_blocks pd))
    with (st := with_page st (page_of pd)) (k := k) as (st1 & k1 & E1).
  { intros s bd j Hin. apply emit_block_ok; [assumption|].
    apply (page_blocks_In merged_blocks pd) in Hin as (bds & H1 & H2).
    exact (Hb _ _ _ H1 H2). }
  destruct (fold_run_ok
              (emit_table (pd_page_number pd) (pd_width pd) (pd_height pd))
              (page_tables tables_by_page pd))
    with (st := st1) (k := k1) as (st2 & k2 & E2).
  { intros s td j Hin. apply emit_table_ok; [assumption|].
    apply (page_tables_In tables_by_page pd) in Hin as (tds & H1 & H2).
    exact (Ht _ _ _ H1 H2). }
  exists st2, k2. unfold assemble_page, bind, lift. rewrite Enew.
  cbv zeta.
  change (fold_run (emit_block rnd (pd_page_number pd) (pd_width pd)
                      (pd_height pd)) _ _ k)
    with (fold_run (emit_block rnd (pd_page_number pd) (pd_width pd)
                      (pd_height pd)) (page_blocks merged_blocks pd)
            (with_page st (page_of pd)) k).
  rewrite E1. exact E2.
Qed.

Lemma assemble_document_ok (rnd : nat -> N) (doc_id : string)
  (pages_data : list PageData) (merged_blocks : list (Z * list BlockDict))
  (tables_by_page : list (Z * list TableDict))
  (styles_ : gmap string StyleDict) (source_type : SourceType) (k : nat) :
  Forall (fun pd => 1 <= pd_page_number pd /\ (0 < pd_width pd)%Q
                    /\ (0 < pd_height pd)%Q) pages_data ->
  (forall i bds bd, In (i, bds) merged_blocks -> In bd bds ->
                    0 <= default 0 (bd_reading_order bd)) ->
  (forall i tds td, In (i, tds) tables_by_page -> In td tds ->
                    table_valid td) ->
  exists doc k',
    assemble_document rnd doc_id pages_data merged_blocks tables_by_page
      styles_ source_type k = Some (doc, k').
Proof.
  intros Hp Hb Ht. unfold assemble_document.
  destruct (fold_run_ok (assemble_page rnd merged_blocks tables_by_page)
              pages_data) with (st := Asm_init) (k := k) as (st & k1 & E).
  { intros s pd j Hin. rewrite List.Forall_forall in Hp.
    destruct (Hp pd Hin) as (H1 & H2 & H3). now apply assemble_page_ok. }
  unfold bind. rewrite E. now eexists _, _.
Qed.

Lemma build_words_total (chars : list Char) :
  exists words, build_words chars = Some words.
Proof.
  unfold build_words. destruct (sorted_chars chars) as [|c0 rest].
  - now exists [].
  - destruct (words_loop_spec rest [] [c0] []) as (ws & gs & H & _);
      [congruence|constructor|]. now exists ws.
Qed.

Lemma dict_set_In {V} (k : Z) (v : V) (d : list (Z * V)) (i : Z) (x : V) :
  In (i, x) (Py.dict_set k v d) -> (i, x) = (k, v) \/ In (i, x) d.
Proof.
  induction d as [|[k' v'] d IH]; simpl.
  - intros [H|[]]. now left.
  - destruct (k =? k'); simpl.
    + intros [H|H]; [now left|right; now right].
    + intros [H|H]; [right; now left|].
      destruct (IH H) as [G|G]; [now left|right; now right].
Qed.

Lemma collect_geometry_tables
  (results : list (Z * list BlockDict * list TableDict)) (i : Z)
  (tds : list TableDict) :
  In (i, tds) (snd (collect_geometry results)) ->
  exists bl, In (i, bl, tds) results.
Proof.
  unfold collect_geometry.
  assert (forall acc : list (Z * list BlockDict) * list (Z * list TableDict),
            In (i, tds)
              (snd (fold_left
                      (fun '(merged_blocks, tables_by_page)
                           '(page_idx, blocks, tbls) =>
                         (Py.dict_set page_idx blocks merged_blocks,
                          Py.dict_set page_idx tbls tables_by_page))
                      results acc)) ->
            In (i, tds) (snd acc) \/ exists bl, In (i, bl, tds) results) as H.
  { induction results as [|[[j bl] tb] rs IH]; intros [m t] Hin; simpl in *.
    - now left.
    - destruct (IH _ Hin) as [H|(bl' & H)].
      + simpl in H. apply dict_set_In in H as [[= -> ->]|H].
        * right. exists bl. now left.
        * now left.
      + right. exists bl'. now right. }
  intros Hin. destruct (H _ Hin) as [[]|G]. exact G.
Qed.

Lemma build_page_geometry_ok (rnd : nat -> N) (pdf : list PdfPage)
  (page : PageData) (k : nat) :
  Forall (fun d => dt_data d = [] \/ 1 <= longest_row (dt_data d))
    (detected_on pdf (pd_page_number page)) ->
  exists blocks_ tables_ k',
    _build_page_geometry rnd pdf page k
    = Some ((pd_page_number page - 1, blocks_, tables_), k')
    /\ Forall table_valid tables_.
Proof.
  intros Hd. unfold _build_page_geometry.
  destruct (build_words_total (pd_chars page)) as (words & Ew).
  destruct (build_lines_spec words) as (lines & El & _).
  destruct (build_blocks_spec rnd lines k) as (bl & Eb & _).
  destruct (extract_tables_spec rnd (pd_page_number page)
              (detected_on pdf (pd_page_number page))
              (k + length bl)%nat) as (tbs & Et & Hbb & _ & Hg & Hrc).
  assert (deduplicate_blocks_from_tables bl tbs default_overlap_threshold
          = Some (List.filter
                    (fun b => negb (existsb
                                      (overlaps_table
                                         default_overlap_threshold b)
                                      (map dt_bbox
                                         (with_data
                                            (detected_on pdf
                                               (pd_page_number page))))))
                    bl)) as Ed.
  { apply dedup_filter. now rewrite Hbb, map_map. }
  unfold bind at 1. unfold lift at 1. rewrite Ew.
  unfold bind at 1. unfold lift at 1. rewrite El.
  unfold bind at 1. rewrite Eb.
  unfold bind at 1. rewrite Et.
  unfold bind at 1. unfold lift at 1. rewrite Ed. unfold ret.
  eexists _, _, _. split; [reflexivity|].
  apply List.Forall_forall. intros t Ht.
  rewrite List.Forall_forall in Hg. destruct (Hg t Ht) as (_ & _ & Hr & Hc).
  destruct (Forall2_In_r _ _ _ t Hrc Ht) as (d & Hdin & _ & Hcols & _).
  unfold with_data in Hdin. apply filter_In in Hdin as [Hdin Hne].
  rewrite List.Forall_forall in Hd.
  split; [exact Hr|]. split.
  - rewrite Hcols. destruct (Hd d Hdin) as [E|E]; [|exact E].
    now rewrite E in Hne.
  - eapply List.Forall_impl; [|exact Hc].
    intros c (H1 & H2 & H3 & H4 & _). lia.
Qed.

Lemma detected_on_ok (pdf : list PdfPage) (n : Z) :
  Forall page_ok pdf ->
  Forall (fun d => dt_data d = [] \/ 1 <= longest_row (dt_data d))
    (detected_on pdf n).
Proof.
  intros H. unfold detected_on.
  destruct (nth_error pdf (Z.to_nat (n - 1))) as [p|] eqn:E; [|constructor].
  destruct (1 <=? n); [|constructor].
  apply nth_error_In in E. rewrite List.Forall_forall in H.
  now destruct (H p E) as (_ & _ & Ht).
Qed.

Lemma process_pdf_ok (rnd : nat -> N) (sha : string -> string)
  (ratio : string -> string -> Q)
  (tagger : list (Z * list BlockDict) -> option (list (Z * list Tag)))
  (pdf : list PdfPage) (page_range : option string) (k : nat) :
  Forall page_ok pdf ->
  exists doc k',
    process_pdf rnd sha ratio tagger pdf false page_range k = Some (doc, k').
Proof.
  intros Hok. unfold process_pdf. unfold bind at 1. unfold uuid4 at 1.
  cbv zeta.
  set (pages_data :=
         match page_range with
         | Some r =>
             if Py.truthy r
             then List.filter
                    (fun p => bool_decide
                                (pd_page_number p
                                 ∈ _parse_page_range r
                                     (Z.of_nat
                                        (length
                                           (extract_chars_from_pdf pdf)))))
                    (extract_chars_from_pdf pdf)
             else extract_chars_from_pdf pdf
         | None => extract_chars_from_pdf pdf
         end).
  assert (forall pd, In pd pages_data ->
                     In pd (extract_chars_from_pdf pdf)) as Hsub.
  { intros pd. subst pages_data.
    destruct page_range as [r|]; [destruct (Py.truthy r)|]; auto.
    intros H. now apply filter_In in H. }
  destruct (for_each_ok
              (fun (page : PageData)
                   (r : Z * list BlockDict * list TableDict) =>
                 Forall table_valid (snd r))
              (_build_page_geometry rnd pdf) pages_data)
    with (k := S k) as (results & k2 & E & Hres).
  { intros pd j _.
    destruct (build_page_geometry_ok rnd pdf pd j
                (detected_on_ok pdf (pd_page_number pd) Hok))
      as (bl & tb & j' & Eg & Hv).
    exists (pd_page_number pd - 1, bl, tb), j'. split; [exact Eg|exact Hv]. }
  unfold bind at 1. rewrite E.
  destruct (collect_geometry results) as [merged0 tables0] eqn:Ec.
  unfold normalize_and_assemble. cbv zeta.
  apply assemble_document_ok.
  - apply List.Forall_forall. intros pd Hpd.
    apply Hsub in Hpd.
    destruct (In_extract _ _ Hpd) as (p & Hp & Ew & Eh & _).
    rewrite Ew, Eh.
    apply list_elem_of_lookup_2, list_elem_of_In in Hp as Hin.
    rewrite List.Forall_forall in Hok.
    destruct (Hok p Hin) as (Hw & Hh & _).
    split; [|now split].
    assert (In (pd_page_number pd)
              (map pd_page_number (extract_chars_from_pdf pdf))) as Hn.
    { now apply in_map. }
    rewrite extract_page_numbers in Hn.
    apply in_map_iff in Hn as (i & <- & _). lia.
  - intros i bds bd Hin Hbd.
    apply on_pages_In in Hin as (bds1 & Hin & ->).
    unfold classify in Hin.
    apply on_pages_In in Hin as (bds0 & _ & ->).
    simpl in Hbd. apply in_map_iff in Hbd as (bd1 & <- & Hbd).
    unfold enumerate_map in Hbd.
    apply in_map_iff in Hbd as ([j b0] & <- & Hj).
    apply In_enumerate in Hj. simpl. lia.
  - intros i tds td Hin Htd.
    assert (In (i, tds) (snd (collect_geometry results))) as Hin'
      by now rewrite Ec.
    apply collect_geometry_tables in Hin' as (bl & Hr).
    destruct (Forall2_In_r _ _ _ _ Hres Hr) as (pd & _ & Hv).
    simpl in Hv. rewrite List.Forall_forall in Hv. now apply Hv.
Qed.

(** X18. With the tagger disabled [process_pdf] never raises on a file
    that has at least one page, in which every page has a positive width
    and height and every detected table that has data has at least one
    cell, whatever the characters on the pages and whatever the page
    range. *)
Theorem process_pdf_returns (rnd : nat -> N) (sha : string -> string)
  (ratio : string -> string -> Q)
  (tagger : list (Z * list BlockDict) -> option (list (Z * list Tag)))
  (pdf : list PdfPage) (page_range : option string) (k : nat) :
  pdf <> [] -> Forall page_ok pdf ->
  exists doc k',
    process_pdf rnd sha ratio tagger pdf false page_range k = Some (doc, k').
Proof. intros _. apply process_pdf_ok. Qed.

Lemma two_page_pdf_ok : Forall page_ok two_page_pdf.
Proof.
  unfold two_page_pdf. constructor; [|constructor; [|constructor]].
  - split; [reflexivity|]. split; [reflexivity|constructor].
  - split; [reflexivity|]. split; [reflexivity|].
    constructor; [|constructor]. right. vm_compute. discriminate.
Qed.

Lemma process_pdf_returns_witness :
  exists doc k',
    process_pdf sample_rnd sample_digest matcher_ratio (fun _ => None)
      two_page_pdf false (Some "1-2") 0%nat = Some (doc, k').
Proof.
  exact (process_pdf_returns sample_rnd sample_digest matcher_ratio
           (fun _ => None) two_page_pdf (Some "1-2") 0%nat
           ltac:(discriminate) two_page_pdf_ok).
Defined.

(** ** When the pipeline raises *)

Lemma assemble_pages_valid rnd merged_blocks tables_by_page
  (pages_data : list PageData) :
  forall st k st' k',
    fold_run (assemble_page rnd merged_blocks tables_by_page) pages_data
      st k = Some (st', k') ->
    Forall (fun pd => 1 <= pd_page_number pd /\ (0 < pd_width pd)%Q
                      /\ (0 < pd_height pd)%Q) pages_data.
Proof.
  induction pages_data as [|pd pds IH]; intros st k st' k' H; simpl in H;
    [constructor|].
  apply bind_Some in H as (st1 & k1 & H1 & H).
  apply assemble_page_inv in H1
    as (page & st2 & k2 & _ & _ & _ & Hn & Hw & Hh & _).
  constructor; [now repeat split|]. exact (IH _ _ _ _ H).
Qed.

Lemma extract_In (pdf : list PdfPage) (i : nat) (p : PdfPage) :
  pdf !! i = Some p ->
  In {| pd_page_number := Z.of_nat i + 1; pd_width := pp_width p;
        pd_height := pp_height p; pd_chars := pp_chars p |}
    (extract_chars_from_pdf pdf).
Proof.
  intros H. apply enumerate_lookup in H.
  apply list_elem_of_lookup_2, list_elem_of_In in H.
  unfold extract_chars_from_pdf. apply in_map_iff.
  exists (Z.of_nat i, p). split; [reflexivity|exact H].
Qed.

(** X19. [process_pdf], with or without the tagger, raises whenever a
    page selected for processing has a width or a height that is not
    positive: the page model rejects it. *)
Theorem process_pdf_rejects_flat_page (rnd : nat -> N)
  (sha : string -> string) (ratio : string -> string -> Q)
  (tagger : list (Z * list BlockDict) -> option (list (Z * list Tag)))
  (pdf : list PdfPage) (use_vision : bool) (page_range : option string)
  (k : nat) (i : nat) (p : PdfPage) :
  pdf !! i = Some p ->
  selected page_range (Z.of_nat (length pdf)) (Z.of_nat i + 1) = true ->
  (pp_width p <= 0)%Q \/ (pp_height p <= 0)%Q ->
  process_pdf rnd sha ratio tagger pdf use_vision page_range k = None.
Proof.
  intros Hp Hsel Hflat.
  destruct (process_pdf rnd sha ratio tagger pdf use_vision page_range k)
    as [[doc k']|] eqn:H; [exfalso|reflexivity].
  unfold process_pdf in H.
  apply bind_Some in H as (doc_id & k1 & _ & H). cbv zeta in H.
  apply bind_Some in H as (results & k2 & _ & H).
  destruct (collect_geometry results) as [merged0 tables0].
  unfold normalize_and_assemble in H. cbv zeta in H.
  apply assemble_document_inv in H as (st & Hf & _).
  apply assemble_pages_valid in Hf.
  rewrite List.Forall_forall in Hf.
  assert (length (extract_chars_from_pdf pdf) = length pdf) as L.
  { rewrite <- (length_map pd_page_number), extract_page_numbers.
    now rewrite length_map, length_seq. }
  rewrite L in Hf.
  pose proof (extract_In pdf i p Hp) as Hin.
  set (pd := {| pd_page_number := Z.of_nat i + 1; pd_width := pp_width p;
                pd_height := pp_height p; pd_chars := pp_chars p |}) in *.
  assert (1 <= pd_page_number pd /\ (0 < pd_width pd)%Q
          /\ (0 < pd_height pd)%Q) as (_ & Hw & Hh).
  { apply Hf. unfold selected in Hsel.
    destruct page_range as [r|]; [destruct (Py.truthy r)|];
      try exact Hin.
    apply filter_In. split; [exact Hin|exact Hsel]. }
  simpl in Hw, Hh. destruct Hflat; lra.
Qed.

Lemma process_pdf_rejects_flat_page_witness :
  process_pdf sample_rnd sample_digest matcher_ratio (fun _ => None)
    [flat_page] false None 0%nat = None.
Proof.
  apply (process_pdf_rejects_flat_page sample_rnd sample_digest
           matcher_ratio (fun _ => None) [flat_page] false None 0%nat
           0%nat flat_page).
  - reflexivity.
  - reflexivity.
  - left. vm_compute. discriminate.
Defined.

(** ** Pagination *)

Lemma Qfloor_iff (x : Q) (i : Z) :
  Qfloor x = i <-> (inject_Z i <= x /\ x < inject_Z i + 1)%Q.
Proof.
  pose proof (Qfloor_le x) as H1. pose proof (Qlt_floor x) as H2.
  rewrite inject_Z_plus in H2. change (inject_Z 1) with 1%Q in H2. split.
  - intros <-. now split.
  - intros [Ha Hb]. apply Z.le_antisymm.
    + assert (inject_Z (Qfloor x) < inject_Z (i + 1))%Q as H.
      { rewrite inject_Z_plus. change (inject_Z 1) with 1%Q. lra. }
      rewrite <- Zlt_Qlt in H. lia.
    + rewrite <- (Qfloor_Z i). now apply Qfloor_resp_le.
Qed.

Lemma on_page_iff (page_h y : Q) (i : Z) :
  (0 < page_h)%Q ->
  Py.leb (inject_Z i * page_h) y
  && Py.ltb y (inject_Z i * page_h + page_h) = true
  <-> Qfloor (y / page_h) = i.
Proof.
  intros Hh. rewrite andb_true_iff, leb_spec, ltb_spec, Qfloor_iff.
  split; intros [H1 H2]; split.
  - apply Qle_shift_div_l; [exact Hh|exact H1].
  - apply Qlt_shift_div_r; [exact Hh|].
    assert ((inject_Z i + 1) * page_h == inject_Z i * page_h + page_h)%Q
      as -> by ring. exact H2.
  - assert (y == y / page_h * page_h)%Q as -> by (field; lra).
    apply Qmult_le_compat_r; lra.
  - assert (y == y / page_h * page_h)%Q as E by (field; lra).
    assert (inject_Z i * page_h + page_h == (inject_Z i + 1) * page_h)%Q
      as -> by ring.
    rewrite E. apply Qmult_lt_compat_r; lra.
Qed.

Lemma page_blocks_of_index (page_h : Q) (i : Z) (bl : list BlockDict) :
  (0 < page_h)%Q ->
  page_blocks_of (inject_Z i * page_h) (inject_Z i * page_h + page_h) bl
  = map (shift_block (inject_Z i * page_h))
      (List.filter (fun b => page_index page_h b =? i) bl).
Proof.
  intros Hh. unfold page_blocks_of. f_equal.
  apply filter_ext. intros b. unfold page_index.
  destruct (Z.eqb_spec (Qfloor (bd_y0 b / page_h)) i) as [E|N].
  - now apply on_page_iff.
  - apply not_true_is_false. intros H. apply N. now apply on_page_iff in H.
Qed.

Lemma page_tables_of_ok (top bottom : Q) (tbs : list TableDict)
  (bbs : list BBox) :
  map td_bbox tbs = map Some bbs ->
  exists l, page_tables_of top bottom tbs = Some l.
Proof.
  revert bbs. induction tbs as [|t ts IH]; intros [|b bbs] H;
    simpl in H; try discriminate; [now exists []|].
  injection H as Ht Hts. destruct (IH bbs Hts) as (l & El).
  simpl. rewrite Ht, El. simpl. now eexists.
Qed.

Lemma paginate_loop_spec (bl : list BlockDict) (tbs : list TableDict)
  (bbs : list BBox) (w h : Q) (nums : list Z) :
  map td_bbox tbs = map Some bbs ->
  forall pages_data bbp tbp,
    exists tbp',
      paginate_loop bl tbs w h nums (pages_data, bbp, tbp)
      = Some (pages_data ++ map (docx_page w h) nums,
              fold_left
                (fun d num =>
                   Py.dict_set (num - 1)
                     (page_blocks_of (inject_Z (num - 1) * h)
                        (inject_Z (num - 1) * h + h) bl) d) nums bbp,
              tbp').
Proof.
  intros Hb. induction nums as [|num nums IH]; intros pages_data bbp tbp.
  - exists tbp. simpl. now rewrite app_nil_r.
  - cbn [paginate_loop].
    destruct (page_tables_of_ok (inject_Z (num - 1) * h)
                (inject_Z (num - 1) * h + h) tbs bbs Hb) as (l & ->).
    cbn [mbind option_bind].
    destruct (IH (pages_data
                  ++ [{| pd_page_number := num; pd_width := w;
                         pd_height := h; pd_chars := [] |}])
                (Py.dict_set (num - 1)
                   (page_blocks_of (inject_Z (num - 1) * h)
                      (inject_Z (num - 1) * h + h) bl) bbp)
                (Py.dict_set (num - 1) l tbp)) as (tbp' & E).
    exists tbp'. rewrite E. cbn [map fold_left].
    now rewrite <- app_assoc.
Qed.

Lemma dict_get_fold {V} (g : Z -> V) (nums : list Z) :
  forall (d : list (Z * V)) (i : Z),
    In (i + 1) nums ->
    Py.dict_get i
      (fold_left (fun d num => Py.dict_set (num - 1) (g (num - 1)) d) nums d)
    = Some (g i).
Proof.
  induction nums as [|x xs IH]; intros d i Hin; [destruct Hin|].
  simpl. destruct (in_dec Z.eq_dec (i + 1) xs) as [H|H].
  - now apply IH.
  - destruct Hin as [->|Hin]; [|contradiction].
    replace (i + 1 - 1) with i by lia.
    clear IH. revert d.
    assert (forall d, Py.dict_get i d = Some (g i) ->
              Py.dict_get i
                (fold_left
                   (fun d num => Py.dict_set (num - 1) (g (num - 1)) d)
                   xs d) = Some (g i)) as G.
    { induction xs as [|y ys IHy]; intros d Hd; [exact Hd|].
      simpl. apply IHy.
      - intros Hy. apply H. now right.
      - destruct (Z.eq_dec i (y - 1)) as [->|N].
        + apply dict_get_set_eq.
        + now rewrite dict_get_set_ne. }
    intros d. apply G. apply dict_get_set_eq.
Qed.

Lemma max_ge_l (a b : Q) : (a <= Py.max a b)%Q.
Proof. destruct (max_cases a b) as [[-> ?]|[-> ?]]; lra. Qed.

Lemma max_ge_r (a b : Q) : (b <= Py.max a b)%Q.
Proof. destruct (max_cases a b) as [[-> ?]|[-> ?]]; lra. Qed.

Lemma max_default_ge (xs : list Q) (d x : Q) :
  In x xs -> (x <= Py.max_default xs d)%Q.
Proof.
  destruct xs as [|y ys]; [intros []|]. simpl.
  assert (forall (l : list Q) (m : Q),
            (m <= fold_left Py.max l m)%Q
            /\ forall z, In z l -> (z <= fold_left Py.max l m)%Q) as H.
  { induction l as [|a l IH]; intros m; simpl.
    - split; [lra|intros z []].
    - destruct (IH (Py.max m a)) as [H1 H2].
      pose proof (max_ge_l m a). pose proof (max_ge_r m a).
      split; [lra|]. intros z [<-|Hz]; [lra|now apply H2]. }
  destruct (H ys y) as [H1 H2]. intros [<-|Hx]; [exact H1|now apply H2].
Qed.

Lemma int_of_float_floor (x : Q) :
  (0 <= x)%Q -> Py.int_of_float x = Qfloor x.
Proof.
  intros H0. unfold Py.int_of_float.
  assert (0 <= Qnum x).
  { destruct x as [a d]. unfold Qle in H0. simpl in *. lia. }
  rewrite Z.quot_div_nonneg by lia. now destruct x.
Qed.

Lemma range_seq (m : nat) :
  map Z.of_nat (seq 1 m) = range 1 (Z.of_nat m + 1).
Proof.
  unfold range. replace (Z.to_nat (Z.of_nat m + 1 - 1)) with m by lia.
  rewrite <- seq_shift, map_map. apply map_ext. intros i. lia.
Qed.

Lemma paginate_body (bl : list BlockDict) (tbs : list TableDict)
  (bbs : list BBox) (w h : Q) :
  (0 < h)%Q ->
  Forall (fun b => (0 <= bd_y0 b /\ bd_y0 b <= bd_y1 b)%Q) bl ->
  map td_bbox tbs = map Some bbs ->
  exists n bbp tbp,
    (bottoms ← mapM (fun t => by1 <$> td_bbox t) tbs;
     let max_y :=
       Py.max (Py.max_default (map bd_y1 bl) 0%Q)
              (Py.max_default bottoms 0%Q) in
     if Py.eqb h 0 then None
     else
       let n_pages := Z.max 1 (Py.int_of_float (max_y / h) + 1) in
       paginate_loop bl tbs w h
         (map Z.of_nat (seq 1 (Z.to_nat n_pages))) ([], [], []))
    = Some (map (docx_page w h) (range 1 (n + 1)), bbp, tbp)
    /\ 1 <= n
    /\ (forall b, In b bl -> 0 <= page_index h b < n)
    /\ forall i, 0 <= i < n ->
         Py.dict_get i bbp
         = Some (map (shift_block (inject_Z i * h))
                   (List.filter (fun b => page_index h b =? i) bl)).
Proof.
  intros Hh Hbl Hb.
  assert (exists bottoms,
            mapM (fun t => by1 <$> td_bbox t) tbs = Some bottoms)
    as (bottoms & Ebot).
  { exists (map by1 bbs). apply mapM_Some. clear -Hb. revert bbs Hb.
    induction tbs as [|t ts IH]; intros [|bb bbs] H; simpl in H;
      try discriminate; [constructor|].
    injection H as Ht Hts. constructor; [now rewrite Ht|now apply IH]. }
  set (max_y := Py.max (Py.max_default (map bd_y1 bl) 0)
                  (Py.max_default bottoms 0)).
  set (n := Z.max 1 (Py.int_of_float (max_y / h) + 1)).
  destruct (paginate_loop_spec bl tbs bbs w h
              (map Z.of_nat (seq 1 (Z.to_nat n))) Hb [] [] [])
    as (tbp & E).
  exists n.
  exists (fold_left
            (fun d num =>
               Py.dict_set (num - 1)
                 (page_blocks_of (inject_Z (num - 1) * h)
                    (inject_Z (num - 1) * h + h) bl) d)
            (map Z.of_nat (seq 1 (Z.to_nat n))) []).
  exists tbp. split.
  { rewrite Ebot. cbn [mbind option_bind].
    destruct (Py.eqb h 0) eqn:E0.
    { unfold Py.eqb in E0. apply Qeq_bool_iff in E0. lra. }
    fold max_y. fold n. rewrite E. cbn [app].
    rewrite range_seq, Z2Nat.id by lia. reflexivity. }
  split; [lia|]. split.
  - intros b Hin. rewrite List.Forall_forall in Hbl.
    destruct (Hbl b Hin) as [H0 H1]. unfold page_index.
    assert (bd_y1 b <= max_y)%Q as Hmax.
    { unfold max_y.
      pose proof (max_ge_l (Py.max_default (map bd_y1 bl) 0)
                    (Py.max_default bottoms 0)).
      pose proof (max_default_ge (map bd_y1 bl) 0 (bd_y1 b)
                    (in_map bd_y1 _ _ Hin)). lra. }
    assert (0 <= bd_y0 b / h)%Q as Hq0.
    { apply Qle_shift_div_l; [exact Hh|]. lra. }
    assert (bd_y0 b / h <= max_y / h)%Q as Hq1.
    { apply Qmult_le_compat_r; [lra|].
      apply Qlt_le_weak, Qinv_lt_0_compat, Hh. }
    split.
    + rewrite <- (Qfloor_Z 0). now apply Qfloor_resp_le.
    + pose proof (Qfloor_resp_le _ _ Hq1) as Hf.
      rewrite <- (int_of_float_floor (max_y / h)) in Hf by lra. lia.
  - intros i Hi. rewrite (dict_get_fold
      (fun j => page_blocks_of (inject_Z j * h) (inject_Z j * h + h) bl)).
    + f_equal. now apply page_blocks_of_index.
    + apply in_map_iff. exists (Z.to_nat (i + 1)). split; [lia|].
      apply in_seq. lia.
Qed.

Lemma paginate_spec (bl : list BlockDict) (tbs : list TableDict)
  (bbs : list BBox) (w h : Q) :
  (0 < h)%Q ->
  Forall (fun b => (0 <= bd_y0 b /\ bd_y0 b <= bd_y1 b)%Q) bl ->
  map td_bbox tbs = map Some bbs ->
  exists n bbp tbp,
    _paginate bl tbs w h
    = Some (map (docx_page w h) (range 1 (n + 1)), bbp, tbp)
    /\ 1 <= n
    /\ (forall b, In b bl -> 0 <= page_index h b < n)
    /\ forall i, 0 <= i < n ->
         Py.dict_get i bbp
         = Some (map (shift_block (inject_Z i * h))
                   (List.filter (fun b => page_index h b =? i) bl)).
Proof.
  intros Hh Hbl Hb.
  pose proof (paginate_body bl tbs bbs w h Hh Hbl Hb) as H.
  destruct bl as [|b0 bl0]; [destruct tbs as [|t0 ts0]|]; try exact H.
  exists 1, [(0, [])], [(0, [])]. split; [reflexivity|].
  split; [lia|]. split; [intros b []|].
  intros i Hi. assert (i = 0) as -> by lia. reflexivity.
Qed.



(** ** The block summary *)

Lemma length_take (n : nat) (s : string) :
  String.length (Py.take n s) = Nat.min n (String.length s).
Proof.
  unfold Py.take. revert s. induction n as [|n IH]; intros [|c s];
    simpl; try reflexivity. now rewrite IH.
Qed.

Lemma take_app (n : nat) (a b : string) :
  String.length a = n -> Py.take n (a +:+ b) = a.
Proof.
  unfold Py.take. revert a. induction n as [|n IH]; intros [|c a] H;
    simpl in H; try discriminate.
  - now destruct b.
  - change (String c a +:+ b) with (String c (a +:+ b)). simpl.
    rewrite IH; [reflexivity|lia].
Qed.

Lemma take_take (n : nat) (s : string) :
  (n <= String.length s)%nat -> Py.take n (Py.take n s) = Py.take n s.
Proof.
  intros H. rewrite <- (append_empty_r (Py.take n s)) at 1.
  apply take_app. rewrite length_take. lia.
Qed.

(** X21. The summary built for the tagger has one entry per block, in
    order, numbered from 0, with the block's font and size; its text is
    the block's text when that has at most 120 characters, and otherwise
    its first 120 characters followed by "...", so that no summary text
    is longer than 123 characters. *)
Theorem blocks_summary_bounded (bl : list BlockDict) :
  Forall2 (fun ib s =>
             bs_index s = fst ib
             /\ bs_font s = bd_fontname (snd ib)
             /\ bs_size s = bd_size (snd ib)
             /\ (String.length (bs_text s) <= 123)%nat
             /\ Py.take 120 (bs_text s) = Py.take 120 (bd_text (snd ib))
             /\ ((String.length (bd_text (snd ib)) <= 120)%nat ->
                 bs_text s = bd_text (snd ib))
             /\ ((120 < String.length (bd_text (snd ib)))%nat ->
                 bs_text s = Py.take 120 (bd_text (snd ib)) +:+ "..."))
    (Py.enumerate bl) (_build_blocks_summary bl)
  /\ map bs_index (_build_blocks_summary bl)
     = map Z.of_nat (seq 0 (length bl)).
Proof.
  split.
  - unfold _build_blocks_summary. apply Forall2_fmap_r.
    apply Forall2_same. intros [i b]. cbn [fst snd bs_index bs_font bs_size
      bs_text].
    split; [reflexivity|]. split; [reflexivity|]. split; [reflexivity|].
    destruct (Nat.ltb_spec 120 (String.length (bd_text b))) as [H|H];
      cbn [bs_text].
    + split.
      { rewrite length_app_str, length_take.
        change (String.length "...") with 3%nat. lia. }
      split.
      { rewrite take_app; [reflexivity|]. rewrite length_take. lia. }
      split; [lia|reflexivity].
    + split; [lia|]. split; [reflexivity|]. split; [reflexivity|lia].
  - unfold _build_blocks_summary. rewrite map_map.
    rewrite (map_ext _ fst) by (now intros [i b]).
    unfold Py.enumerate.
    assert (forall (ks : list Z) (l : list BlockDict),
              length ks = length l -> map fst (combine ks l) = ks) as H.
    { induction ks as [|k ks IH]; intros [|x l] Hl; simpl in *;
        try reflexivity; try discriminate. f_equal. apply IH. lia. }
    apply H. now rewrite length_map, length_seq.
Qed.

Lemma blocks_summary_bounded_witness :
  map bs_index (_build_blocks_summary [sample_block "b1"; sample_block "b2"])
  = [0; 1].
Proof.
  exact (proj2 (blocks_summary_bounded [sample_block "b1"; sample_block "b2"])).
Defined.

(** ** Font names *)

Lemma split_first_skip (c0 : ascii) (m tag X : string) :
  Py.forallb_str (fun c => negb (Ascii.eqb c c0)) tag = true ->
  Py.split_first (String c0 m) (tag +:+ X)
  = match Py.split_first (String c0 m) X with
    | Some (a, b) => Some (tag +:+ a, b)
    | None => None
    end.
Proof.
  induction tag as [|c tag IH]; intros H.
  - change ("" +:+ X) with X.
    now destruct (Py.split_first (String c0 m) X) as [[a b]|].
  - cbn [Py.forallb_str] in H. apply andb_true_iff in H as [Hc H].
    apply negb_true_iff, Ascii.eqb_neq in Hc.
    change (String c tag +:+ X) with (String c (tag +:+ X)).
    cbn [Py.split_first String.prefix].
    destruct (ascii_dec c0 c) as [->|_]; [congruence|].
    rewrite (IH H).
    now destruct (Py.split_first (String c0 m) X) as [[a b]|].
Qed.

Lemma before_first_skip (c0 : ascii) (m tag X : string) :
  Py.forallb_str (fun c => negb (Ascii.eqb c c0)) tag = true ->
  Py.before_first (String c0 m) (tag +:+ X)
  = tag +:+ Py.before_first (String c0 m) X.
Proof.
  intros H. unfold Py.before_first. rewrite (split_first_skip _ _ _ _ H).
  now destruct (Py.split_first (String c0 m) X) as [[a b]|].
Qed.

Lemma forallb_str_weaken (p q : ascii -> bool) (s : string) :
  (forall c, p c = true -> q c = true) ->
  Py.forallb_str p s = true -> Py.forallb_str q s = true.
Proof.
  intros Hpq. induction s as [|c s IH]; [reflexivity|].
  cbn [Py.forallb_str]. rewrite !andb_true_iff. intros [Hc Hs].
  split; [now apply Hpq | now apply IH].
Qed.

Lemma plain_tag_plus (c0 : ascii) (tag : string) :
  (c0 = "-" \/ c0 = ",")%char -> plain_tag tag = true ->
  Py.forallb_str (fun c => negb (Ascii.eqb c c0)) (tag +:+ "+") = true.
Proof.
  intros Hc0 H. rewrite forallb_str_app. apply andb_true_iff. split.
  - revert H. apply forallb_str_weaken. intros c.
    rewrite !andb_true_iff. intros [[H1 H2] _]. now destruct Hc0 as [->| ->].
  - now destruct Hc0 as [->| ->].
Qed.

Lemma append_assoc_str (a b c : string) : (a +:+ b) +:+ c = a +:+ (b +:+ c).
Proof.
  induction a as [|x a IH]; [reflexivity|].
  change (String x a +:+ b) with (String x (a +:+ b)).
  change (String x (a +:+ b) +:+ c) with (String x ((a +:+ b) +:+ c)).
  change (String x a +:+ (b +:+ c)) with (String x (a +:+ (b +:+ c))).
  now rewrite IH.
Qed.

Lemma substring_all (s : string) : String.substring 0 (String.length s) s = s.
Proof. induction s as [|c s IH]; [reflexivity|]. simpl. now rewrite IH. Qed.

Lemma split_first_plus (Y : string) :
  Py.split_first "+" (String "+" Y) = Some ("", Y).
Proof.
  cbn [Py.split_first String.prefix].
  destruct (ascii_dec "+" "+") as [_|n]; [|congruence].
  destruct Y as [|c Y]; [reflexivity|].
  cbn [String.prefix String.length String.substring Nat.sub].
  now rewrite substring_all.
Qed.

Lemma font_family_subset (tag rest : string) :
  plain_tag tag = true ->
  _font_family (tag +:+ "+" +:+ rest) = Py.strip tag.
Proof.
  intros H. unfold _font_family. f_equal. cbn [fold_left].
  rewrite <- (append_assoc_str tag "+" rest).
  repeat (rewrite before_first_skip
            by (apply plain_tag_plus; [tauto | exact H] )).
  rewrite append_assoc_str.
  rewrite before_first_skip.
  - match goal with
    | |- context [Py.before_first "+" ("+" +:+ ?x)] =>
        change ("+" +:+ x) with (String "+"%char x);
        unfold Py.before_first at 1; rewrite (split_first_plus x)
    end.
    apply append_empty_r.
  - revert H. apply forallb_str_weaken. intros c.
    rewrite !andb_true_iff. tauto.
Qed.

Lemma clean_font_name_subset (tag rest : string) :
  plain_tag tag = true ->
  _clean_font_name (tag +:+ "+" +:+ rest) = rest.
Proof.
  intros H. unfold _clean_font_name. rewrite split_first_skip.
  - change ("+" +:+ rest) with (String "+"%char rest).
    now rewrite split_first_plus.
  - revert H. apply forallb_str_weaken. intros c.
    rewrite !andb_true_iff. tauto.
Qed.

(** X22. For an embedded subset font name [tag+name] whose tag has no
    hyphen, comma or plus sign, the family used to group lines into blocks
    is the (stripped) tag, whatever the name after the plus sign is, while
    the style table keeps the name after the plus sign: the two cleaners
    keep opposite halves.  So two lines in subset fonts count as the same
    font for block building whenever their tags agree. *)
Theorem subset_font_halves (tag rest rest' : string) :
  plain_tag tag = true ->
  _font_family (tag +:+ "+" +:+ rest) = Py.strip tag
  /\ _clean_font_name (tag +:+ "+" +:+ rest) = rest
  /\ _font_family (tag +:+ "+" +:+ rest)
     = _font_family (tag +:+ "+" +:+ rest').
Proof.
  intros H. split; [now apply font_family_subset|].
  split; [now apply clean_font_name_subset|].
  now rewrite !font_family_subset.
Qed.

Lemma subset_font_halves_witness :
  plain_tag "ABCDEF" = true
  /\ _font_family "ABCDEF+Arial-Bold" = "ABCDEF"
  /\ _clean_font_name "ABCDEF+Arial-Bold" = "Arial-Bold"
  /\ _font_family "ABCDEF+Arial-Bold" = _font_family "ABCDEF+Times".
Proof.
  split; [reflexivity|].
  exact (subset_font_halves "ABCDEF" "Arial-Bold" "Times" eq_refl).
Defined.
